(** * Conservative spatial regridding (CONUS404 spatial aggregation notebook)

    A shallow embedding of the regridding pipeline of
    [dataset_access/conus404_temporal_aggregation.ipynb]:

    - the Grid Polygonizer ([bounds_to_poly] and its application to every
      stacked grid point),
    - the Overlay Engine (the [grid_df.overlay(regions_df)] call),
    - the Weight Builder ([grid_cell_fraction], the multi-index and the
      sparse [unstack]),
    - the Regridder ([apply_weights_matmul_sparse] and the [xr.apply_ufunc]
      call that feeds it).

    Numbers.  The notebook computes on float64 values.  In the pipeline
    every number is an exact rational ([Qc], rationals in lowest terms, so
    that equality of values is Leibniz equality).  Rounding, infinities
    and NaN are outside that model: a statement that names a value names
    it in the arithmetic the notebook approximates, and a statement that
    compares values the notebook computes in different ways is made
    within the relative tolerance of the specification.  Where rounding
    itself settles a question, the Regridder is taken once more on
    binary64 floats (module [float64]).

    Library calls.  The notebook is glue code; the calls it makes into numpy,
    pandas, xarray, dask, shapely and sparse are modelled by small
    executable functions placed in modules named after the libraries.
    Three operations of the geometry stack stay parameters of the
    pipeline: the reprojection done by [to_crs], and the test of the
    spatial index and the polygon intersection done by [overlay].

    Around the pipeline.  The development also covers the cells next to
    the four components: the frame of grid polygons and the sparsity
    figure, the evaluation in chunks along time that the regridding call
    asks of dask, the means over time and their merge with the regions,
    and the [configure_cluster] cells with which both notebooks of the
    file start. *)

From Stdlib Require Import String.
From Stdlib Require Import List Sorted Arith Lia Bool ZArith QArith Qcanon Qcabs.
From Stdlib Require PrimFloat.
Import ListNotations.

Set Implicit Arguments.
Close Scope Qc_scope.
Close Scope Q_scope.
Close Scope Z_scope.
Local Open Scope nat_scope.
Local Open Scope list_scope.

(* ================================================================== *)
(** * Numbers and Python exceptions                                     *)
(* ================================================================== *)

(** A float64 value of the notebook, idealised as an exact rational. *)
Abbreviation num := Qc (only parsing).

Definition num_eqb (a b : num) : bool := Qc_eq_bool a b.

Definition num_of_Z (z : Z) : num := Q2Qc (inject_Z z).

Definition Qcltb (a b : num) : bool :=
  match Qccompare a b with Lt => true | _ => false end.

Definition Qcmin (a b : num) : num :=
  match Qccompare a b with Gt => b | _ => a end.

Definition Qcmax (a b : num) : num :=
  match Qccompare a b with Lt => b | _ => a end.

(** The ways a step of the notebook can stop.  The first four are Python
    exceptions.  [MissingLabel] is not an exception: it marks the one place
    where xarray would fill a missing coordinate label with NaN, a value
    this model does not have. *)
Inductive exn : Type :=
| AssertionError
| IndexError
| ValueError
| KeyError
| MissingLabel.

Inductive result (A : Type) : Type :=
| Ok (a : A)
| Raise (e : exn).

Arguments Ok {A} a.
Arguments Raise {A} e.

Definition bind {A B : Type} (r : result A) (k : A -> result B) : result B :=
  match r with
  | Ok a => k a
  | Raise e => Raise e
  end.

Notation "x <- e1 ;; e2" := (bind e1 (fun x => e2))
  (at level 61, e1 at next level, right associativity).

(** Python's [assert b]. *)
Definition assert (b : bool) : result unit :=
  if b then Ok tt else Raise AssertionError.

(** [a[i]] on a tuple, list or one-dimensional array, for [i >= 0]. *)
Definition getitem {A : Type} (a : list A) (i : nat) : result A :=
  match nth_error a i with
  | Some v => Ok v
  | None => Raise IndexError
  end.

Fixpoint mapM {A B : Type} (f : A -> result B) (l : list A) : result (list B) :=
  match l with
  | [] => Ok []
  | a :: l' => b <- f a ;; bs <- mapM f l' ;; Ok (b :: bs)
  end.

Definition is_Ok {A : Type} (r : result A) : bool :=
  match r with Ok _ => true | Raise _ => false end.

(** Sums of numbers, written as a left-to-right accumulation from zero. *)
Definition sum (l : list num) : num := fold_left Qcplus l 0%Qc.

(** [big_sum n f] is [f 0 + f 1 + ... + f (n-1)]. *)
Definition big_sum (n : nat) (f : nat -> num) : num := sum (map f (seq 0 n)).

(** Sorted distinct values of a list, as pandas computes the levels of an
    index. *)
Fixpoint insert_unique {A : Type} (cmp : A -> A -> comparison) (x : A) (l : list A)
  : list A :=
  match l with
  | [] => [x]
  | h :: t =>
      match cmp x h with
      | Lt => x :: l
      | Eq => l
      | Gt => h :: insert_unique cmp x t
      end
  end.

Definition sort_unique {A : Type} (cmp : A -> A -> comparison) (l : list A) : list A :=
  fold_right (insert_unique cmp) [] l.

(** Position of the first occurrence of a label. *)
Fixpoint index_of {A : Type} (eqb : A -> A -> bool) (x : A) (l : list A) : option nat :=
  match l with
  | [] => None
  | h :: t => if eqb x h then Some 0 else option_map S (index_of eqb x t)
  end.

(* ================================================================== *)
(** * shapely: polygons and their area                                  *)
(* ================================================================== *)

Module shapely.

Definition point : Type := (num * num)%type.

Definition point_eqb (p q : point) : bool :=
  num_eqb (fst p) (fst q) && num_eqb (snd p) (snd q).

(** A polygon without holes: its exterior ring, stored closed. *)
Record Polygon : Type := mkPolygon { exterior : list point }.

(** A ring given open is closed by repeating its first point. *)
Definition close_ring (shell : list point) : list point :=
  match shell with
  | [] => []
  | p :: _ => if point_eqb (last shell p) p then shell else shell ++ [p]
  end.

(** [Polygon(shell)]: no coordinate tuple at all gives the empty polygon;
    otherwise a ring needs at least three of them.  Nothing else about the
    coordinates is checked. *)
Definition Polygon_ (shell : list point) : result Polygon :=
  match shell with
  | [] => Ok (mkPolygon [])
  | _ :: _ =>
      if length shell <? 3 then Raise ValueError
      else Ok (mkPolygon (close_ring shell))
  end.

(** Twice the signed area of a closed ring (the shoelace sum). *)
Fixpoint shoelace (ring : list point) : num :=
  match ring with
  | p :: (q :: _) as tl =>
      (fst p * snd q - fst q * snd p + shoelace tl)%Qc
  | _ => 0%Qc
  end.

(** [polygon.area]: unsigned, whatever the orientation of the ring. *)
Definition area (p : Polygon) : num :=
  (Qcabs (shoelace (exterior p)) / num_of_Z 2)%Qc.

End shapely.

(* ================================================================== *)
(** * Grid Polygonizer                                                  *)
(* ================================================================== *)

(** [[
def bounds_to_poly(x_bounds, y_bounds):
    return Polygon([
        (x_bounds[0], y_bounds[0]),
        (x_bounds[0], y_bounds[1]),
        (x_bounds[1], y_bounds[1]),
        (x_bounds[1], y_bounds[0])
    ])
]] *)
Definition bounds_to_poly (x_bounds y_bounds : list num) : result shapely.Polygon :=
  x0 <- getitem x_bounds 0 ;;
  y0 <- getitem y_bounds 0 ;;
  x0' <- getitem x_bounds 0 ;;
  y1 <- getitem y_bounds 1 ;;
  x1 <- getitem x_bounds 1 ;;
  y1' <- getitem y_bounds 1 ;;
  x1' <- getitem x_bounds 1 ;;
  y0' <- getitem y_bounds 0 ;;
  shapely.Polygon_ [ (x0, y0); (x0', y1); (x1, y1'); (x1', y0') ].

(* ================================================================== *)
(** * numpy: dense arrays                                               *)
(* ================================================================== *)

Module np.

(** A dense array: its shape and its elements in C (row-major) order. *)
Record ndarray : Type := mk_ndarray { shape : list nat; data : list num }.

(** Number of elements of an array of the given shape. *)
Definition prod (shape : list nat) : nat := fold_right Nat.mul 1 shape.

(** Position in the flat data of a multi-index, row-major. *)
Fixpoint ravel_multi_index (idx shape : list nat) : nat :=
  match idx, shape with
  | i :: idx', _ :: shape' => i * prod shape' + ravel_multi_index idx' shape'
  | _, _ => 0
  end.

(** Multi-index of a flat position, row-major. *)
Fixpoint unravel_index (p : nat) (shape : list nat) : list nat :=
  match shape with
  | [] => []
  | _ :: shape' => p / prod shape' :: unravel_index (p mod prod shape') shape'
  end.

(** Elementwise [a + b] for arrays of one shape. *)
Definition add (a b : ndarray) : ndarray :=
  {| shape := shape a;
     data := map (fun ab => (fst ab + snd ab)%Qc) (combine (data a) (data b)) |}.

(** Scalar multiple [c * a]. *)
Definition scale (c : num) (a : ndarray) : ndarray :=
  {| shape := shape a; data := map (fun v => (c * v)%Qc) (data a) |}.

(** Array filled with one value, [np.full(shape, v)]. *)
Definition full (shape : list nat) (v : num) : ndarray :=
  {| shape := shape; data := repeat v (prod shape) |}.

End np.

(* ================================================================== *)
(** * sparse: arrays in coordinate format                               *)
(* ================================================================== *)

Module sparse.

(** A COO array with fill value zero: its shape and its stored entries,
    each a multi-index (a column of [coords]) with its value (the matching
    element of [data]).  Values stored under one multi-index add up. *)
Record COO : Type := mk_COO { shape : list nat; entries : list (list nat * num) }.

(** [COO.from_numpy(x)]: the non-zero elements of [x] with their
    positions. *)
Definition from_numpy (x : np.ndarray) : COO :=
  {| shape := np.shape x;
     entries :=
       flat_map
         (fun pv => if num_eqb (snd pv) 0%Qc then []
                    else [(np.unravel_index (fst pv) (np.shape x), snd pv)])
         (combine (seq 0 (length (np.data x))) (np.data x)) |}.

(** [c.reshape(new_shape)]: every stored multi-index goes through its flat
    position; the total size must not change. *)
Definition reshape (c : COO) (new_shape : list nat) : result COO :=
  if np.prod (shape c) =? np.prod new_shape then
    Ok {| shape := new_shape;
          entries :=
            map (fun e => (np.unravel_index
                             (np.ravel_multi_index (fst e) (shape c)) new_shape,
                           snd e))
                (entries c) |}
  else Raise ValueError.

(** [sparse.matmul(a, b)] for two-dimensional operands: one product for
    each pair of stored entries that meet on the inner index. *)
Definition matmul (a b : COO) : result COO :=
  match shape a, shape b with
  | [n; k], [k'; m] =>
      if k =? k' then
        Ok {| shape := [n; m];
              entries :=
                flat_map
                  (fun ea =>
                     flat_map
                       (fun eb =>
                          match fst ea, fst eb with
                          | [i; p], [q; j] =>
                              if p =? q then [([i; j], (snd ea * snd eb)%Qc)] else []
                          | _, _ => []
                          end)
                       (entries b))
                  (entries a) |}
      else Raise ValueError
  | _, _ => Raise ValueError
  end.

(** Value of the array at a flat position: the stored values found there,
    added up. *)
Definition at_flat (c : COO) (p : nat) : num :=
  sum (map snd
           (filter (fun e => np.ravel_multi_index (fst e) (shape c) =? p)
                   (entries c))).

(** [c.todense()]. *)
Definition todense (c : COO) : np.ndarray :=
  {| np.shape := shape c;
     np.data := map (at_flat c) (seq 0 (np.prod (shape c))) |}.

End sparse.

(* ================================================================== *)
(** * Regridder                                                         *)
(* ================================================================== *)

Definition shape_eqb (s1 s2 : list nat) : bool :=
  if list_eq_dec Nat.eq_dec s1 s2 then true else false.

(** [[
def apply_weights_matmul_sparse(weights, data):

    assert isinstance(weights, sparse.SparseArray)
    assert isinstance(data, np.ndarray)
    data = sparse.COO.from_numpy(data)
    data_shape = data.shape
    # k = nlat * nlon
    n, k = data_shape[0], data_shape[1] * data_shape[2]
    data = data.reshape((n, k))
    weights_shape = weights.shape
    k_, m = weights_shape[0] * weights_shape[1], weights_shape[2]
    assert k == k_
    weights_data = weights.reshape((k, m))

    regridded = sparse.matmul(data, weights_data)
    assert regridded.shape == (n, m)
    return regridded.todense()
]]
    The two [isinstance] assertions are the types of the arguments. *)
Definition apply_weights_matmul_sparse (weights : sparse.COO) (data : np.ndarray)
  : result np.ndarray :=
  let data := sparse.from_numpy data in
  let data_shape := sparse.shape data in
  n <- getitem data_shape 0 ;;
  d1 <- getitem data_shape 1 ;;
  d2 <- getitem data_shape 2 ;;
  let k := d1 * d2 in
  data <- sparse.reshape data [n; k] ;;
  let weights_shape := sparse.shape weights in
  w0 <- getitem weights_shape 0 ;;
  w1 <- getitem weights_shape 1 ;;
  let k_ := w0 * w1 in
  m <- getitem weights_shape 2 ;;
  _ <- assert (k =? k_) ;;
  weights_data <- sparse.reshape weights [k; m] ;;
  regridded <- sparse.matmul data weights_data ;;
  _ <- assert (shape_eqb (sparse.shape regridded) [n; m]) ;;
  Ok (sparse.todense regridded).

(* ================================================================== *)
(** * The Regridder on float64 values                                   *)
(* ================================================================== *)

(** The same function once more, on the numbers the notebook really
    computes with: [PrimFloat.float] is IEEE 754 binary64 and its
    operations round to nearest, ties to even, as numpy's do.  The steps
    are those of [apply_weights_matmul_sparse] above, and so are the
    models of the calls into numpy and sparse; only the arithmetic
    differs.  The products that meet in one element of the result are
    added in the order in which they are stored. *)
Module float64.

Import PrimFloat.
#[local] Set Warnings "-inexact-float".

Record ndarray : Type := mk_ndarray { shape : list nat; data : list float }.

(** Elementwise [a + b] and the scalar multiple [c * a]. *)
Definition add (a b : ndarray) : ndarray :=
  {| shape := shape a;
     data := map (fun ab => PrimFloat.add (fst ab) (snd ab)) (combine (data a) (data b)) |}.

Definition scale (c : float) (a : ndarray) : ndarray :=
  {| shape := shape a; data := map (fun v => PrimFloat.mul c v) (data a) |}.

Record COO : Type := mk_COO { coo_shape : list nat; entries : list (list nat * float) }.

(** [COO.from_numpy(x)]: the elements that are not equal to zero. *)
Definition from_numpy (x : ndarray) : COO :=
  {| coo_shape := shape x;
     entries :=
       flat_map
         (fun pv => if PrimFloat.eqb (snd pv) zero then []
                    else [(np.unravel_index (fst pv) (shape x), snd pv)])
         (combine (seq 0 (length (data x))) (data x)) |}.

Definition reshape (c : COO) (new_shape : list nat) : result COO :=
  if np.prod (coo_shape c) =? np.prod new_shape then
    Ok {| coo_shape := new_shape;
          entries :=
            map (fun e => (np.unravel_index
                             (np.ravel_multi_index (fst e) (coo_shape c)) new_shape,
                           snd e))
                (entries c) |}
  else Raise ValueError.

Definition matmul (a b : COO) : result COO :=
  match coo_shape a, coo_shape b with
  | [n; k], [k'; m] =>
      if k =? k' then
        Ok {| coo_shape := [n; m];
              entries :=
                flat_map
                  (fun ea =>
                     flat_map
                       (fun eb =>
                          match fst ea, fst eb with
                          | [i; p], [q; j] =>
                              if p =? q then [([i; j], PrimFloat.mul (snd ea) (snd eb))]
                              else []
                          | _, _ => []
                          end)
                       (entries b))
                  (entries a) |}
      else Raise ValueError
  | _, _ => Raise ValueError
  end.

Definition at_flat (c : COO) (p : nat) : float :=
  fold_left PrimFloat.add
            (map snd
                 (filter (fun e => np.ravel_multi_index (fst e) (coo_shape c) =? p)
                         (entries c)))
            zero.

Definition todense (c : COO) : ndarray :=
  {| shape := coo_shape c;
     data := map (at_flat c) (seq 0 (np.prod (coo_shape c))) |}.

Definition apply_weights_matmul_sparse (weights : COO) (data : ndarray)
  : result ndarray :=
  let data := from_numpy data in
  let data_shape := coo_shape data in
  n <- getitem data_shape 0 ;;
  d1 <- getitem data_shape 1 ;;
  d2 <- getitem data_shape 2 ;;
  let k := d1 * d2 in
  data <- reshape data [n; k] ;;
  let weights_shape := coo_shape weights in
  w0 <- getitem weights_shape 0 ;;
  w1 <- getitem weights_shape 1 ;;
  let k_ := w0 * w1 in
  m <- getitem weights_shape 2 ;;
  _ <- assert (k =? k_) ;;
  weights_data <- reshape weights [k; m] ;;
  regridded <- matmul data weights_data ;;
  _ <- assert (shape_eqb (coo_shape regridded) [n; m]) ;;
  Ok (todense regridded).

(** One time step of a grid of one cell: the values 0.1 and 0.2, the
    weight 10.0 for a single region, the scalar 3.0, and the number next
    above 3.0. *)
Definition sample_A : ndarray := {| shape := [1; 1; 1]; data := [0.1%float] |}.

Definition sample_B : ndarray := {| shape := [1; 1; 1]; data := [0.2%float] |}.

Definition sample_weights : COO :=
  {| coo_shape := [1; 1; 1]; entries := [([0; 0; 0], 10%float)] |}.

Definition three : float := 3%float.

Definition above_three : float := 3.0000000000000004%float.

(** The relative tolerance of the specification, and the test that two
    values differ by at most that tolerance of a magnitude. *)
Definition tolerance : float := 1e-6%float.

Definition within_tolerance (x y magnitude : float) : bool :=
  PrimFloat.leb (PrimFloat.abs (PrimFloat.sub x y)) (PrimFloat.mul tolerance magnitude).

End float64.

(* ================================================================== *)
(** * geopandas: the frames of the notebook and their overlay           *)
(* ================================================================== *)

Module geopandas.

(** A row of [grid_df]: the polygon of one grid cell and the coordinates
    of its centre. *)
Record grid_row : Type :=
  mk_grid_row { g_geometry : shapely.Polygon; g_y : num; g_x : num }.

(** A row of [regions_df]: a region, its name (column [region_name]) and
    its boundary. *)
Record region_row : Type :=
  mk_region_row { r_name : string; r_geometry : shapely.Polygon }.

(** A row of [overlay]: the part of one region that lies in one grid cell,
    with the columns of both parents. *)
Record overlay_row : Type :=
  mk_overlay_row { o_geometry : shapely.Polygon; o_y : num; o_x : num; o_name : string }.

Section Engine.

(** The reprojection of one polygon into the equal-area reference system
    ([EPSG:6931] in the notebook). *)
Variable reproject : shapely.Polygon -> shapely.Polygon.

(** The test of the spatial index, [predicate="intersects"]: the two
    polygons have a point in common, be it a single point of their
    boundaries. *)
Variable intersects : shapely.Polygon -> shapely.Polygon -> bool.

(** The polygonal intersection of a grid cell and a region, [None] when
    they share no area (disjoint, or touching along a line or at a
    point, which [keep_geom_type=True] drops). *)
Variable intersection : shapely.Polygon -> shapely.Polygon -> option shapely.Polygon.

Definition grid_to_crs (df : list grid_row) : list grid_row :=
  map (fun r => {| g_geometry := reproject (g_geometry r);
                   g_y := g_y r; g_x := g_x r |}) df.

Definition regions_to_crs (df : list region_row) : list region_row :=
  map (fun r => {| r_name := r_name r; r_geometry := reproject (r_geometry r) |}) df.

(** The fragment of a pair of a cell and a region: the intersection is
    only computed for the pairs the spatial index returns. *)
Definition fragment (cell region : shapely.Polygon) : option shapely.Polygon :=
  if intersects cell region then intersection cell region else None.

(** The rows of the overlay: one row for each pair of a cell and a region
    with a polygonal intersection, cell by cell. *)
Definition overlay_rows (grid_df : list grid_row) (regions_df : list region_row)
  : list overlay_row :=
  flat_map
    (fun c =>
       flat_map
         (fun r =>
            match fragment (g_geometry c) (r_geometry r) with
            | Some g => [ {| o_geometry := g; o_y := g_y c; o_x := g_x c; o_name := r_name r |} ]
            | None => []
            end)
         regions_df)
    grid_df.

(** Whether the spatial index returns a pair at all. *)
Definition any_pair (grid_df : list grid_row) (regions_df : list region_row) : bool :=
  existsb (fun c => existsb (fun r => intersects (g_geometry c) (r_geometry r)) regions_df)
          grid_df.

(** [grid_df.overlay(regions_df, keep_geom_type=True)].  When the spatial
    index returns no pair, geopandas joins the two frames, emptied, on
    their indexes; the index of [grid_df] is the multi-index [point] of
    the stacked grid and that of [regions_df] has no name, and pandas
    refuses the join ("cannot join with no overlapping index names").
    With a pair or more the rows are returned; they can still be none,
    when the pairs only touch. *)
Definition overlay (grid_df : list grid_row) (regions_df : list region_row)
  : result (list overlay_row) :=
  if any_pair grid_df regions_df then Ok (overlay_rows grid_df regions_df)
  else Raise ValueError.

End Engine.

End geopandas.

(* ================================================================== *)
(** * pandas: series, group-by and transform                            *)
(* ================================================================== *)

Module pandas.

(** [x.sum()] *)
Definition Series_sum (x : list num) : num := sum x.

(** [x / s] for a scalar [s].  (Division by zero, NaN or an infinity in
    float64, is zero in [Qc]; no statement below divides by zero.) *)
Definition Series_div (x : list num) (s : num) : list num :=
  map (fun a => (a / s)%Qc) x.

Section GroupBy.

Variable K : Type.
Variable eqb : K -> K -> bool.

(** The values of the rows whose key is [k], in row order. *)
Definition get_group (keys : list K) (vals : list num) (k : K) : list num :=
  map snd (filter (fun kv => eqb (fst kv) k) (combine keys vals)).

(** Position of row [i] inside the group of key [k]: the number of
    earlier rows with that key. *)
Definition rank (keys : list K) (i : nat) (k : K) : nat :=
  length (filter (fun k' => eqb k' k) (firstn i keys)).

(** [vals.groupby(keys).transform(f)]: [f] is applied to each group as a
    whole and each row receives the element of the result at its own
    position in the group. *)
Definition transform (f : list num -> list num) (keys : list K) (vals : list num)
  : list num :=
  map (fun ik =>
         nth (rank keys (fst ik) (snd ik)) (f (get_group keys vals (snd ik))) 0%Qc)
      (combine (seq 0 (length vals)) keys).

(** [vals.groupby(keys).sum()] read at one key. *)
Definition group_sum (keys : list K) (vals : list num) (k : K) : num :=
  Series_sum (get_group keys vals k).

End GroupBy.

End pandas.

(* ================================================================== *)
(** * Weight Builder                                                    *)
(* ================================================================== *)

Import geopandas.

(** [overlay.geometry.area] *)
Definition overlay_area (overlay : list overlay_row) : list num :=
  map (fun r => shapely.area (o_geometry r)) overlay.

(** [overlay[region_name]] *)
Definition overlay_region (overlay : list overlay_row) : list string :=
  map o_name overlay.

(** [[
grid_cell_fraction = overlay.geometry.area.groupby(overlay[region_name]).transform(lambda x: x / x.sum())
]] *)
Definition grid_cell_fraction (overlay : list overlay_row) : list num :=
  pandas.transform String.eqb
    (fun x => pandas.Series_div x (pandas.Series_sum x))
    (overlay_region overlay) (overlay_area overlay).

(** [grid_cell_fraction.groupby(overlay[region_name]).sum()], read at one
    region. *)
Definition fraction_sum (overlay : list overlay_row) (region : string) : num :=
  pandas.group_sum String.eqb (overlay_region overlay) (grid_cell_fraction overlay) region.

(** A key of the multi-index [(y, x, region_name)]. *)
Definition index_key : Type := (num * num * string)%type.

Definition index_key_eqb (a b : index_key) : bool :=
  num_eqb (fst (fst a)) (fst (fst b)) && num_eqb (snd (fst a)) (snd (fst b))
  && String.eqb (snd a) (snd b).

(** [[
multi_index = overlay.set_index([y, x, region_name]).index
df_weights = pd.DataFrame({"weights": grid_cell_fraction.values}, index=multi_index)
]] *)
Definition multi_index (overlay : list overlay_row) : list index_key :=
  map (fun r => (o_y r, o_x r, o_name r)) overlay.

Definition df_weights (overlay : list overlay_row) : list (index_key * num) :=
  combine (multi_index overlay) (grid_cell_fraction overlay).

(* ================================================================== *)
(** * xarray: labelled arrays, unstack and apply_ufunc                  *)
(* ================================================================== *)

Module xr.

(** The sparse weights: dimensions [(y, x, region_name)] with their
    coordinate labels. *)
Record SparseDataArray : Type :=
  mk_SparseDataArray
    { w_y : list num; w_x : list num; w_name : list string; w_data : sparse.COO }.

(** A data variable: dimensions [(time, y, x)] with their labels, its
    values, and the way it is held: [d_chunks] is [None] for an array in
    memory and, for a dask array, the sizes of its chunks along each
    dimension ([.chunks]). *)
Record DataArray : Type :=
  mk_DataArray
    { d_time : list nat; d_y : list num; d_x : list num; d_values : np.ndarray;
      d_chunks : option (list (list nat)) }.

(** The regridded variable: dimensions [(time, region_name)]. *)
Record RegionArray : Type :=
  mk_RegionArray { r_time : list nat; r_region : list string; r_values : np.ndarray }.

Fixpoint has_duplicates (l : list index_key) : bool :=
  match l with
  | [] => false
  | k :: l' => existsb (index_key_eqb k) l' || has_duplicates l'
  end.

(** Code of a label in the sorted levels of its index. *)
Definition code {A : Type} (eqb : A -> A -> bool) (levels : list A) (a : A) : nat :=
  match index_of eqb a levels with
  | Some i => i
  | None => 0
  end.

(** [[
ds_weights = xr.Dataset(df_weights)
weights_sparse = ds_weights.unstack(sparse=True, fill_value=0.).weights
]]
    Each level of the multi-index becomes a dimension whose labels are the
    sorted distinct values found in the index; each row is stored at the
    codes of its key.  A multi-index with a repeated key cannot be
    unstacked. *)
Definition unstack (df : list (index_key * num)) : result SparseDataArray :=
  let idx := map fst df in
  if has_duplicates idx then Raise ValueError
  else
    let ys := sort_unique Qccompare (map (fun k => fst (fst k)) idx) in
    let xs := sort_unique Qccompare (map (fun k => snd (fst k)) idx) in
    let names := sort_unique String.compare (map (fun k => snd k) idx) in
    Ok {| w_y := ys; w_x := xs; w_name := names;
          w_data :=
            {| sparse.shape := [length ys; length xs; length names];
               sparse.entries :=
                 map (fun kv =>
                        ([ code num_eqb ys (fst (fst (fst kv)));
                           code num_eqb xs (snd (fst (fst kv)));
                           code String.eqb names (snd (fst kv)) ],
                         snd kv))
                     df |} |}.

Definition lookup {A : Type} (eqb : A -> A -> bool) (labels : list A) (a : A)
  : result nat :=
  match index_of eqb a labels with
  | Some i => Ok i
  | None => Raise MissingLabel
  end.

(** Alignment with [join="left"]: the data are re-indexed on the [y] and
    [x] labels of the weights. *)
Definition reindex_like (da : DataArray) (ys xs : list num) : result np.ndarray :=
  iy <- mapM (lookup num_eqb (d_y da)) ys ;;
  ix <- mapM (lookup num_eqb (d_x da)) xs ;;
  let ny := length (d_y da) in
  let nx := length (d_x da) in
  Ok {| np.shape := [length (d_time da); length ys; length xs];
        np.data :=
          flat_map
            (fun t =>
               flat_map
                 (fun i =>
                    map (fun j => nth ((t * ny + i) * nx + j) (np.data (d_values da)) 0%Qc)
                        ix)
                 iy)
            (seq 0 (length (d_time da))) |}.

(** With [dask="parallelized"] and no [allow_rechunk], a core dimension of
    a dask array must lie in one chunk ([len(data.chunks[axis]) != 1] is a
    ValueError).  The core dimensions of the variable are [y] and [x], the
    second and third of its dimensions.  The chunks are those of the
    variable as the dataset holds it: the alignment is taken to leave
    their number unchanged. *)
Definition core_dims_in_one_chunk (da : DataArray) : bool :=
  match d_chunks da with
  | None => true
  | Some chunks =>
      (length (nth 1 chunks []) =? 1) && (length (nth 2 chunks []) =? 1)
  end.

(** [[
xr.apply_ufunc(apply_weights_matmul_sparse, weights_sparse, ds[var],
             join="left",
             input_core_dims=[[y, x, region_name], [y, x]],
             output_core_dims=[[region_name]],
             dask="parallelized", ...)
]]
    The arguments are aligned, the chunks of the core dimensions are
    checked, and the function is applied. *)
Definition apply_ufunc
           (f : sparse.COO -> np.ndarray -> result np.ndarray)
           (weights : SparseDataArray) (da : DataArray) : result RegionArray :=
  data <- reindex_like da (w_y weights) (w_x weights) ;;
  _ <- (if core_dims_in_one_chunk da then Ok tt else Raise ValueError) ;;
  out <- f (w_data weights) data ;;
  Ok {| r_time := d_time da; r_region := w_name weights; r_values := out |}.

(** [weights_sparse.sel(y=.., x=.., name=..)] *)
Definition sel_weight (w : SparseDataArray) (vy vx : num) (region : string)
  : result num :=
  match index_of num_eqb vy (w_y w), index_of num_eqb vx (w_x w),
        index_of String.eqb region (w_name w) with
  | Some i, Some j, Some r =>
      Ok (sparse.at_flat (w_data w)
            (np.ravel_multi_index [i; j; r] (sparse.shape (w_data w))))
  | _, _, _ => Raise KeyError
  end.

(** [var_regridded.sel(name=region)] at the time step of position [t]. *)
Definition sel_region (a : RegionArray) (t : nat) (region : string) : result num :=
  match index_of String.eqb region (r_region a) with
  | Some r => getitem (np.data (r_values a)) (t * length (r_region a) + r)
  | None => Raise KeyError
  end.

End xr.

(* ================================================================== *)
(** * The pipeline, cell by cell of the notebook                        *)
(* ================================================================== *)

(** The gridded dataset after [cf.add_bounds]: the labels of its
    dimensions, the bounds of every column and row, and one variable with
    the chunks dask holds it in ([None] for a variable in memory). *)
Record Dataset : Type :=
  mk_Dataset
    { ds_time : list nat;
      ds_y : list num;
      ds_x : list num;
      ds_y_bounds : list (list num);
      ds_x_bounds : list (list num);
      ds_var : np.ndarray;
      ds_chunks : option (list (list nat)) }.

(** [ds[var]] *)
Definition ds_getitem (ds : Dataset) : xr.DataArray :=
  {| xr.d_time := ds_time ds; xr.d_y := ds_y ds; xr.d_x := ds_x ds;
     xr.d_values := ds_var ds; xr.d_chunks := ds_chunks ds |}.

(** [[
points = grid.stack(point=(y,x))
boxes = xr.apply_ufunc(bounds_to_poly, points.x_bounds, points.y_bounds, ...)
grid_df= gp.GeoDataFrame(data={"geometry": boxes.values, "y": boxes[y], "x": boxes[x]}, ...)
]] *)
Definition grid_df (ds : Dataset) : result (list grid_row) :=
  rows <- mapM
            (fun yb =>
               mapM (fun xb =>
                       p <- bounds_to_poly (snd xb) (snd yb) ;;
                       Ok {| g_geometry := p; g_y := fst yb; g_x := fst xb |})
                    (combine (ds_x ds) (ds_x_bounds ds)))
            (combine (ds_y ds) (ds_y_bounds ds)) ;;
  Ok (concat rows).

Section Pipeline.

Variable reproject : shapely.Polygon -> shapely.Polygon.
Variable intersects : shapely.Polygon -> shapely.Polygon -> bool.
Variable intersection : shapely.Polygon -> shapely.Polygon -> option shapely.Polygon.

(** The overlay of the projected grid and the projected regions. *)
Definition overlay_of (ds : Dataset) (regions_df : list region_row)
  : result (list overlay_row) :=
  grid <- grid_df ds ;;
  overlay intersects intersection (grid_to_crs reproject grid)
          (regions_to_crs reproject regions_df).

Definition weights_sparse (ds : Dataset) (regions_df : list region_row)
  : result xr.SparseDataArray :=
  ov <- overlay_of ds regions_df ;;
  xr.unstack (df_weights ov).

Definition var_regridded (ds : Dataset) (regions_df : list region_row)
  : result xr.RegionArray :=
  w <- weights_sparse ds regions_df ;;
  xr.apply_ufunc apply_weights_matmul_sparse w (ds_getitem ds).

End Pipeline.

(* ================================================================== *)
(** * A geometry engine for axis-aligned rectangles                     *)
(* ================================================================== *)

(** The end-to-end scenarios only involve rectangles with sides parallel to
    the axes.  For those the two parameters of the pipeline are instantiated
    as follows: the grid is already in an equal-area plane (no reprojection)
    and the intersection of two rectangles is the rectangle common to their
    bounding boxes, when it has positive width and height. *)
Module rectangles.

(** [polygon.bounds]: (minx, miny, maxx, maxy). *)
Definition bounds (p : shapely.Polygon) : option (num * num * num * num) :=
  match shapely.exterior p with
  | [] => None
  | q :: ring =>
      Some (fold_left (fun b r =>
                         match b with
                         | (x0, y0, x1, y1) =>
                             (Qcmin x0 (fst r), Qcmin y0 (snd r),
                              Qcmax x1 (fst r), Qcmax y1 (snd r))
                         end)
                      ring (fst q, snd q, fst q, snd q))
  end.

Definition intersection (a b : shapely.Polygon) : option shapely.Polygon :=
  match bounds a, bounds b with
  | Some (ax0, ay0, ax1, ay1), Some (bx0, by0, bx1, by1) =>
      let x0 := Qcmax ax0 bx0 in
      let y0 := Qcmax ay0 by0 in
      let x1 := Qcmin ax1 bx1 in
      let y1 := Qcmin ay1 by1 in
      if Qcltb x0 x1 && Qcltb y0 y1 then
        match bounds_to_poly [x0; x1] [y0; y1] with
        | Ok p => Some p
        | Raise _ => None
        end
      else None
  | _, _ => None
  end.

(** Two rectangles have a point in common when their bounding boxes
    meet, a common side or corner included. *)
Definition intersects (a b : shapely.Polygon) : bool :=
  match bounds a, bounds b with
  | Some (ax0, ay0, ax1, ay1), Some (bx0, by0, bx1, by1) =>
      negb (Qcltb (Qcmin ax1 bx1) (Qcmax ax0 bx0))
      && negb (Qcltb (Qcmin ay1 by1) (Qcmax ay0 by0))
  | _, _ => false
  end.

Definition reproject (p : shapely.Polygon) : shapely.Polygon := p.

(** The rectangle [x0, x1] x [y0, y1] as a region boundary. *)
Definition box (x0 x1 y0 y1 : num) : shapely.Polygon :=
  shapely.mkPolygon [ (x0, y0); (x0, y1); (x1, y1); (x1, y0); (x0, y0) ].

End rectangles.

(* ================================================================== *)
(** * The two end-to-end scenarios                                      *)
(* ================================================================== *)

Definition half (z : Z) : num := (num_of_Z z / num_of_Z 2)%Qc.

(** Bounds [[0,1]; [1,2]; ...] and centres [0.5; 1.5; ...] of [n] unit
    cells along one axis. *)
Definition unit_bounds (n : nat) : list (list num) :=
  map (fun i => [num_of_Z (Z.of_nat i); num_of_Z (Z.of_nat (S i))]) (seq 0 n).

Definition unit_centres (n : nat) : list num :=
  map (fun i => half (2 * Z.of_nat i + 1)) (seq 0 n).

(** A uniform [n] x [n] grid of 1 x 1 cells covering [0,n] x [0,n], with
    [T] time steps of a variable in memory that is [v] everywhere. *)
Definition uniform_grid (n T : nat) (v : num) : Dataset :=
  {| ds_time := seq 0 T;
     ds_y := unit_centres n;
     ds_x := unit_centres n;
     ds_y_bounds := unit_bounds n;
     ds_x_bounds := unit_bounds n;
     ds_var := np.full [T; n; n] v;
     ds_chunks := None |}.

(** The left and right halves of [0,4] x [0,4]. *)
Definition two_halves : list region_row :=
  [ {| r_name := "left";
       r_geometry := rectangles.box (num_of_Z 0) (num_of_Z 2) (num_of_Z 0) (num_of_Z 4) |};
    {| r_name := "right";
       r_geometry := rectangles.box (num_of_Z 2) (num_of_Z 4) (num_of_Z 0) (num_of_Z 4) |} ].

(** A region inside [0,2] x [0,2] and a region away from it. *)
Definition inside_region : region_row :=
  {| r_name := "inside";
     r_geometry := rectangles.box (num_of_Z 0) (num_of_Z 2) (num_of_Z 0) (num_of_Z 2) |}.

Definition outside_region : region_row :=
  {| r_name := "outside";
     r_geometry := rectangles.box (num_of_Z 5) (num_of_Z 6) (num_of_Z 5) (num_of_Z 6) |}.

Definition inside_outside : list region_row := [ inside_region; outside_region ].

(** A region that shares a side with [0,2] x [0,2] and no area. *)
Definition touching_region : region_row :=
  {| r_name := "touch";
     r_geometry := rectangles.box (num_of_Z 2) (num_of_Z 3) (num_of_Z 0) (num_of_Z 2) |}.

Definition rect_weights (ds : Dataset) (regions_df : list region_row)
  : result xr.SparseDataArray :=
  weights_sparse rectangles.reproject rectangles.intersects rectangles.intersection ds regions_df.

Definition rect_regridded (ds : Dataset) (regions_df : list region_row)
  : result xr.RegionArray :=
  var_regridded rectangles.reproject rectangles.intersects rectangles.intersection ds regions_df.

(* ================================================================== *)
(** * Vocabulary of the statements                                      *)
(* ================================================================== *)

Local Open Scope Qc_scope.

(** A multi-index that lies inside a shape. *)
Definition valid_index (idx shape : list nat) : Prop := Forall2 lt idx shape.

(** Every stored multi-index lies inside the shape. *)
Definition wf_COO (c : sparse.COO) : Prop :=
  Forall (fun e => valid_index (fst e) (sparse.shape c)) (sparse.entries c).

(** The elements of a dense array are as many as its shape says. *)
Definition wf_ndarray (a : np.ndarray) : Prop :=
  length (np.data a) = np.prod (np.shape a).

(** Boolean forms of the two conditions on indices, for concrete arrays. *)
Definition valid_indexb (idx shape : list nat) : bool :=
  (length idx =? length shape) && forallb (fun p => fst p <? snd p) (combine idx shape).

Definition wf_COOb (c : sparse.COO) : bool :=
  forallb (fun e => valid_indexb (fst e) (sparse.shape c)) (sparse.entries c).

(** [a[idx]] on a dense array and on a COO array. *)
Definition np_item (a : np.ndarray) (idx : list nat) : num :=
  nth (np.ravel_multi_index idx (np.shape a)) (np.data a) 0.

Definition sparse_item (c : sparse.COO) (idx : list nat) : num :=
  sparse.at_flat c (np.ravel_multi_index idx (sparse.shape c)).

(** The regridded value the specification describes: for time step [t] and
    region [region], the sum over all grid cells of the value of the cell
    times the weight of the cell for the region, the cells of both arrays
    being numbered row by row. *)
Definition regrid_spec (weights : sparse.COO) (data : np.ndarray) (t region : nat) : num :=
  match np.shape data, sparse.shape weights with
  | [_; rows; cols], [wrows; wcols; _] =>
      big_sum (rows * cols)
              (fun cell =>
                 np_item data [t; (cell / cols)%nat; (cell mod cols)%nat]
                 * sparse_item weights [(cell / wcols)%nat; (cell mod wcols)%nat; region])
  | _, _ => 0
  end.


(** The sum of column [j] of the Weight Matrix, the weights being read as a
    matrix of shape (rows x columns, regions). *)
Definition column_sum (weights : sparse.COO) (j : nat) : num :=
  match sparse.shape weights with
  | [w0; w1; m]%list =>
      big_sum (w0 * w1) (fun cell => sparse.at_flat weights (cell * m + j))
  | _ => 0
  end.

(** The total area of the fragments of one region, in the words of the
    specification: the sum of the areas of all rows of the overlay that
    belong to the region. *)
Definition fragments_of (overlay : list overlay_row) (region : string)
  : list overlay_row :=
  filter (fun r => String.eqb (o_name r) region) overlay.

Definition region_area (overlay : list overlay_row) (region : string) : num :=
  sum (map (fun r => shapely.area (o_geometry r)) (fragments_of overlay region)).

(** The relative tolerance of the specification, [1e-6]. *)
Definition tolerance : num := num_of_Z 1 / num_of_Z 1000000.

(** Bounds the specification calls malformed: an arity other than two, or
    a lower bound that is not below the upper bound. *)
Definition malformed_bounds (b : list num) : bool :=
  negb (length b =? 2)
  || match b with
     | [lo; hi] => negb (Qcltb lo hi)
     | _ => false
     end.

(** The ring [bounds_to_poly] hands to [Polygon]. *)
Definition cell_ring (x0 x1 y0 y1 : num) : list shapely.point :=
  [ (x0, y0); (x0, y1); (x1, y1); (x1, y0) ].

(** The hypothesis of the claim about regions away from the grid: region
    [R] shares no area with any cell of the grid of [ds]. *)
Definition no_overlay_fragment
           (reproject : shapely.Polygon -> shapely.Polygon)
           (intersects : shapely.Polygon -> shapely.Polygon -> bool)
           (intersection : shapely.Polygon -> shapely.Polygon -> option shapely.Polygon)
           (ds : Dataset) (R : region_row) : Prop :=
  forall grid c, grid_df ds = Ok grid -> In c grid ->
    fragment intersects intersection
             (reproject (g_geometry c)) (reproject (r_geometry R)) = None.

(** The regions that own a row of [df_weights]. *)
Definition weight_entry_regions (df : list (index_key * num)) : list string :=
  map (fun kw => snd (fst kw)) df.

(** Small concrete inputs on which the statements are exercised: an
    overlay with two fragments of region "a" (areas 1 and 3) and one of
    region "b"; two data arrays of shape (2, 2, 2); weights of shape
    (2, 2, 2) whose two columns both add up to one. *)
Definition sample_row_a1 : overlay_row :=
  {| o_geometry := rectangles.box (num_of_Z 0) (num_of_Z 1) (num_of_Z 0) (num_of_Z 1);
     o_y := half 1; o_x := half 1; o_name := "a" |}.

Definition sample_row_a2 : overlay_row :=
  {| o_geometry := rectangles.box (num_of_Z 1) (num_of_Z 4) (num_of_Z 0) (num_of_Z 1);
     o_y := half 1; o_x := half 3; o_name := "a" |}.

Definition sample_row_b : overlay_row :=
  {| o_geometry := rectangles.box (num_of_Z 0) (num_of_Z 2) (num_of_Z 1) (num_of_Z 2);
     o_y := half 3; o_x := half 1; o_name := "b" |}.

Definition sample_overlay : list overlay_row :=
  [ sample_row_a1; sample_row_a2; sample_row_b ]%list.

Definition sample_data : np.ndarray :=
  {| np.shape := [2; 2; 2]%nat;
     np.data := map num_of_Z [1; 2; 3; 4; 5; 6; 7; 8]%Z |}.

Definition sample_data' : np.ndarray :=
  {| np.shape := [2; 2; 2]%nat;
     np.data := map num_of_Z [0; 10; 0; (-3); 1; 1; 0; 20]%Z |}.

Definition sample_weights : sparse.COO :=
  {| sparse.shape := [2; 2; 2]%nat;
     sparse.entries :=
       [ ([0; 0; 0]%nat, half 1); ([0; 1; 0]%nat, half 1);
         ([1; 0; 1]%nat, num_of_Z 1 / num_of_Z 4);
         ([1; 1; 1]%nat, num_of_Z 3 / num_of_Z 4) ]%list |}.

(** Inclusion of one list of labels in another, and the test that a step
    returned a given number. *)
Definition inclb (l1 l2 : list num) : bool :=
  forallb (fun a => existsb (num_eqb a) l2) l1.

Definition is_Ok_num (r : result num) (q : num) : bool :=
  match r with
  | Ok a => num_eqb a q
  | Raise _ => false
  end.

(** Evaluation of a closed run recorded in hypothesis [E]. *)
Ltac run_in E := vm_compute in E; first [injection E as <- | discriminate E].

(** A list whose elements strictly increase for a comparison: the form of
    the levels of an index. *)
Definition increasing {A : Type} (cmp : A -> A -> comparison) (l : list A) : Prop :=
  StronglySorted (fun a b => cmp a b = Lt) l.

(* ================================================================== *)
(** * dask: a variable held in chunks along time                        *)
(* ================================================================== *)

Module dask.

(** [np.concatenate((a, b), axis=0)]: the arrays must agree on every
    dimension but the first. *)
Definition concatenate (a b : np.ndarray) : result np.ndarray :=
  match np.shape a, np.shape b with
  | (na :: ra)%list, (nb :: rb)%list =>
      if shape_eqb ra rb
      then Ok {| np.shape := ((na + nb)%nat :: ra)%list;
                 np.data := (np.data a ++ np.data b)%list |}
      else Raise ValueError
  | _, _ => Raise ValueError
  end.

(** The blocks of a chunked array put together along its first
    dimension. *)
Fixpoint concat_all (first : np.ndarray) (rest : list np.ndarray) : result np.ndarray :=
  match rest with
  | []%list => Ok first
  | (b :: rest')%list => ab <- concatenate first b ;; concat_all ab rest'
  end.

(** [xr.apply_ufunc(f, weights, var, dask="parallelized", ...)] followed by
    [compute()]: the variable is chunked along time only (its core
    dimensions [y] and [x] are whole in every chunk), [f] is applied to
    the weights and each chunk, and the results are put together along
    time. *)
Definition parallelized
           (f : sparse.COO -> np.ndarray -> result np.ndarray)
           (weights : sparse.COO) (first : np.ndarray) (rest : list np.ndarray)
  : result np.ndarray :=
  out <- f weights first ;;
  outs <- mapM (f weights) rest ;;
  concat_all out outs.

End dask.

(* ================================================================== *)
(** * Further vocabulary                                                *)
(* ================================================================== *)

(** What xarray guarantees of a dataset: the variable has one value for
    every (time, y, x) and each coordinate has its bounds. *)
Definition wf_Dataset (ds : Dataset) : Prop :=
  np.shape (ds_var ds) = [length (ds_time ds); length (ds_y ds); length (ds_x ds)]%list
  /\ wf_ndarray (ds_var ds)
  /\ length (ds_y_bounds ds) = length (ds_y ds)
  /\ length (ds_x_bounds ds) = length (ds_x ds).

(** Weights that make every grid cell a region of its own: the cell of row
    [i] and column [j] has weight one for the region numbered
    [i * columns + j] and no other weight is stored. *)
Definition identity_weights (rows cols : nat) : sparse.COO :=
  {| sparse.shape := [rows; cols; (rows * cols)%nat]%list;
     sparse.entries :=
       map (fun cell => ([(cell / cols)%nat; (cell mod cols)%nat; cell]%list, 1))
           (seq 0 (rows * cols)) |}.

(** The row of [grid_df] for the cell whose centre has the labels [fst yb]
    and [fst xb] and whose bounds are [snd yb] and [snd xb]. *)
Definition cell_of (yb xb : num * list num) : grid_row :=
  {| g_geometry :=
       shapely.mkPolygon
         (shapely.close_ring
            (cell_ring (nth 0 (snd xb) 0) (nth 1 (snd xb) 0)
                       (nth 0 (snd yb) 0) (nth 1 (snd yb) 0)));
     g_y := fst yb;
     g_x := fst xb |}.

(** [[
sparsity = len(overlay) / (len(grid_df) * len(regions_df))
]]
    [None] stands for the ZeroDivisionError of Python's true division. *)
Definition sparsity (overlay : list overlay_row) (grid_df : list grid_row)
           (regions_df : list region_row) : option num :=
  let cells := (length grid_df * length regions_df)%nat in
  if (cells =? 0)%nat then None
  else Some (num_of_Z (Z.of_nat (length overlay)) / num_of_Z (Z.of_nat cells)).

(* ================================================================== *)
(** * After the regridding: means over time and the merge               *)
(* ================================================================== *)

Module frames.





(** [[
ds_var = var_regridded.sel(name=['Delaware Bay-Deep', 'Black Creek'])...
]]
    The selection of a list of regions by name: the columns of the named
    regions, in the order of the list; a name that is not on the axis is a
    key error. *)
Definition sel_names (a : xr.RegionArray) (names : list string) : result xr.RegionArray :=
  idx <- mapM (fun name =>
                 match index_of String.eqb name (xr.r_region a) with
                 | Some j => Ok j
                 | None => Raise KeyError
                 end)
              names ;;
  Ok {| xr.r_time := xr.r_time a;
        xr.r_region := names;
        xr.r_values :=
          {| np.shape := [length (xr.r_time a); length names]%list;
             np.data :=
               flat_map
                 (fun t =>
                    map (fun j => nth (t * length (xr.r_region a) + j)%nat
                                      (np.data (xr.r_values a)) 0)
                        idx)
                 (seq 0 (length (xr.r_time a))) |} |}.

End frames.

(* ================================================================== *)
(** * Starting the Dask cluster                                         *)
(* ================================================================== *)

(** The part of Python the [configure_cluster] cells rely on.

    Names.  A name that is bound anywhere in the body of a function, by an
    assignment or by an [import], is local to the whole body; reading it
    before it is bound raises [UnboundLocalError], whatever the module
    binds under that name.  Every name the two functions read is local in
    this sense, so a frame of local names is all they see.

    The outside world.  Imports and calls into libraries are recorded, in
    order, in a trace; they are taken to succeed, and the call recorded at
    position [n] returns the value [Result n], which stands for whatever
    the library returned.  The environment variables and the number of
    cores are read from a [world]. *)
Module py.

Inductive value : Type :=
| Str (s : string)
| Int (z : Z)
| Bool (b : bool)
| None_
| Imported (module name : string)
| Attr (obj : value) (attr : string)
| Result (call : nat)
| Item (tuple : value) (i : nat).

Inductive event : Type :=
| Import_ (module : string)
| Call (callee : value) (args : list (string * value)).

Inductive error : Type :=
| UnboundLocalError (name : string)
| KeyError (key : string).

Record world : Type :=
  mk_world { environ : list (string * string); cpu_count : option Z }.

Record frame : Type :=
  mk_frame { locals : list (string * value); trace : list event }.

(** A statement returns with a new frame, or raises with the trace of what
    was done before. *)
Inductive outcome (A : Type) : Type :=
| Return (a : A) (f : frame)
| Throw (e : error) (done : list event).

Arguments Return {A} a f.
Arguments Throw {A} e done.

Definition M (A : Type) : Type := frame -> outcome A.

Definition ret {A : Type} (a : A) : M A := fun f => Return a f.

Definition and_then {A B : Type} (m : M A) (k : A -> M B) : M B :=
  fun f =>
    match m f with
    | Return a f' => k a f'
    | Throw e done => Throw e done
    end.

Definition throw {A : Type} (e : error) : M A := fun f => Throw e (trace f).

Fixpoint assoc {A : Type} (k : string) (l : list (string * A)) : option A :=
  match l with
  | []%list => None
  | ((k', v) :: l')%list => if String.eqb k k' then Some v else assoc k l'
  end.

(** Reading and binding a local name. *)
Definition load (name : string) : M value :=
  fun f =>
    match assoc name (locals f) with
    | Some v => Return v f
    | None => Throw (UnboundLocalError name) (trace f)
    end.

Definition store (name : string) (v : value) : M unit :=
  fun f => Return tt {| locals := ((name, v) :: locals f)%list; trace := trace f |}.

Definition emit (e : event) : M unit :=
  fun f => Return tt {| locals := locals f; trace := (trace f ++ [e])%list |}.

(** [import module as alias]; [import module] is [import_as module module]. *)
Definition import_as (module alias : string) : M unit :=
  and_then (emit (Import_ module)) (fun _ => store alias (Imported module EmptyString)).

(** [from module import name1, name2, ...] *)
Fixpoint bind_imported (module : string) (names : list string) : M unit :=
  match names with
  | []%list => ret tt
  | (name :: names')%list =>
      and_then (store name (Imported module name)) (fun _ => bind_imported module names')
  end.

Definition import_from (module : string) (names : list string) : M unit :=
  and_then (emit (Import_ module)) (fun _ => bind_imported module names).

(** A call into a library. *)
Definition call (callee : value) (args : list (string * value)) : M value :=
  fun f =>
    Return (Result (length (trace f)))
           {| locals := locals f; trace := (trace f ++ [Call callee args])%list |}.

(** [os.environ[key]] and [key in os.environ]. *)
Definition environ_getitem (w : world) (key : string) : M value :=
  match assoc key (environ w) with
  | Some s => ret (Str s)
  | None => throw (KeyError key)
  end.

Definition environ_contains (w : world) (key : string) : bool :=
  match assoc key (environ w) with
  | Some _ => true
  | None => false
  end.

(** [os.cpu_count()]: the number of cores, or [None] when it cannot be
    determined. *)
Definition os_cpu_count (w : world) (os : value) : M value :=
  and_then (emit (Call (Attr os "cpu_count") []%list))
       (fun _ => ret (match cpu_count w with Some n => Int n | None => None_ end)).

(** The text of a value inside an f-string (only strings are formatted
    here). *)
Definition format (v : value) : string :=
  match v with
  | Str s => s
  | _ => EmptyString
  end.

(** Running a function body in a fresh frame that holds its arguments. *)
Definition run {A : Type} (args : list (string * value)) (body : M A) : outcome A :=
  body {| locals := args; trace := []%list |}.

Definition returns {A : Type} (o : outcome A) : bool :=
  match o with
  | Return _ _ => true
  | Throw _ _ => false
  end.

End py.

Notation "x <<- e1 ;; e2" := (py.and_then e1 (fun x => e2))
  (at level 61, e1 at next level, right associativity).
Notation "e1 ;;; e2" := (py.and_then e1 (fun _ => e2))
  (at level 61, right associativity).

(** The line feed that ends the text of the warning. *)
Definition newline : string := String (Ascii.ascii_of_nat 10) EmptyString.

(** The cluster cells of the first notebook of the file (temporal aggregation).
[[
def configure_cluster(machine):
    if machine == 'denali':
        from dask.distributed import LocalCluster, Client
        cluster = LocalCluster(threads_per_worker=1)
        client = Client(cluster)
    elif machine == 'tallgrass':
        from dask.distributed import Client
        from dask_jobqueue import SLURMCluster
        cluster = SLURMCluster(queue='cpu', cores=1,
                               walltime="01:00:00", account="woodshole",
                               interface='ib0', memory='6GB')
        cluster.adapt(maximum=10)
        client = Client(cluster)
    elif machine == 'local':
        import os
        import warnings
        warnings.warn("Running locally can result in costly data transfers!\n")
        n_cores = os.cpu_count() # set to match your machine
        cluster = LocalCluster(threads_per_worker=n_cores)
        client = Client(cluster)
    elif machine in ['esip-qhub-gateway-v0.4']:
        import sys, os
        sys.path.append(os.path.join(os.environ['HOME'],'shared','users','lib'))
        import ebdpy as ebd
        aws_profile = 'esip-qhub'
        aws_region = 'us-west-2'
        endpoint = f's3.{aws_region}.amazonaws.com'
        ebd.set_credentials(profile=aws_profile, region=aws_region, endpoint=endpoint)
        worker_max = 10
        client,cluster = ebd.start_dask_cluster(profile=aws_profile, worker_max=worker_max,
                                              region=aws_region, use_existing_cluster=True,
                                              adaptive_scaling=False, wait_for_cluster=False,
                                              worker_profile='Medium Worker', propagate_env=True)
    return client, cluster
]] *)
Module notebook1.

Definition configure_cluster (w : py.world) (machine : string)
  : py.outcome (py.value * py.value) :=
  py.run [("machine"%string, py.Str machine)]%list
    ((if String.eqb machine "denali" then
        py.import_from "dask.distributed" ["LocalCluster"%string; "Client"%string]%list ;;;
        LocalCluster <<- py.load "LocalCluster" ;;
        v <<- py.call LocalCluster [("threads_per_worker"%string, py.Int 1)]%list ;;
        py.store "cluster" v ;;;
        Client <<- py.load "Client" ;;
        cluster <<- py.load "cluster" ;;
        v <<- py.call Client [(EmptyString, cluster)]%list ;;
        py.store "client" v
      else if String.eqb machine "tallgrass" then
        py.import_from "dask.distributed" ["Client"%string]%list ;;;
        py.import_from "dask_jobqueue" ["SLURMCluster"%string]%list ;;;
        SLURMCluster <<- py.load "SLURMCluster" ;;
        v <<- py.call SLURMCluster
                [("queue"%string, py.Str "cpu"); ("cores"%string, py.Int 1);
                 ("walltime"%string, py.Str "01:00:00");
                 ("account"%string, py.Str "woodshole");
                 ("interface"%string, py.Str "ib0");
                 ("memory"%string, py.Str "6GB")]%list ;;
        py.store "cluster" v ;;;
        cluster <<- py.load "cluster" ;;
        _ <<- py.call (py.Attr cluster "adapt") [("maximum"%string, py.Int 10)]%list ;;
        Client <<- py.load "Client" ;;
        cluster <<- py.load "cluster" ;;
        v <<- py.call Client [(EmptyString, cluster)]%list ;;
        py.store "client" v
      else if String.eqb machine "local" then
        py.import_as "os" "os" ;;;
        py.import_as "warnings" "warnings" ;;;
        warnings <<- py.load "warnings" ;;
        _ <<- py.call (py.Attr warnings "warn")
                [(EmptyString,
                  py.Str ("Running locally can result in costly data transfers!"
                          ++ newline))]%list ;;
        os <<- py.load "os" ;;
        v <<- py.os_cpu_count w os ;;
        py.store "n_cores" v ;;;
        LocalCluster <<- py.load "LocalCluster" ;;
        n_cores <<- py.load "n_cores" ;;
        v <<- py.call LocalCluster [("threads_per_worker"%string, n_cores)]%list ;;
        py.store "cluster" v ;;;
        Client <<- py.load "Client" ;;
        cluster <<- py.load "cluster" ;;
        v <<- py.call Client [(EmptyString, cluster)]%list ;;
        py.store "client" v
      else if existsb (String.eqb machine) ["esip-qhub-gateway-v0.4"%string]%list then
        py.import_as "sys" "sys" ;;;
        py.import_as "os" "os" ;;;
        sys <<- py.load "sys" ;;
        os <<- py.load "os" ;;
        os_ <<- py.load "os" ;;
        home <<- py.environ_getitem w "HOME" ;;
        path <<- py.call (py.Attr (py.Attr os "path") "join")
                   [(EmptyString, home); (EmptyString, py.Str "shared");
                    (EmptyString, py.Str "users"); (EmptyString, py.Str "lib")]%list ;;
        _ <<- py.call (py.Attr (py.Attr sys "path") "append") [(EmptyString, path)]%list ;;
        py.import_as "ebdpy" "ebd" ;;;
        py.store "aws_profile" (py.Str "esip-qhub") ;;;
        py.store "aws_region" (py.Str "us-west-2") ;;;
        aws_region <<- py.load "aws_region" ;;
        py.store "endpoint" (py.Str ("s3." ++ py.format aws_region ++ ".amazonaws.com")) ;;;
        ebd <<- py.load "ebd" ;;
        aws_profile <<- py.load "aws_profile" ;;
        aws_region <<- py.load "aws_region" ;;
        endpoint <<- py.load "endpoint" ;;
        _ <<- py.call (py.Attr ebd "set_credentials")
                [("profile"%string, aws_profile); ("region"%string, aws_region);
                 ("endpoint"%string, endpoint)]%list ;;
        py.store "worker_max" (py.Int 10) ;;;
        ebd <<- py.load "ebd" ;;
        aws_profile <<- py.load "aws_profile" ;;
        worker_max <<- py.load "worker_max" ;;
        aws_region <<- py.load "aws_region" ;;
        both <<- py.call (py.Attr ebd "start_dask_cluster")
                   [("profile"%string, aws_profile); ("worker_max"%string, worker_max);
                    ("region"%string, aws_region);
                    ("use_existing_cluster"%string, py.Bool true);
                    ("adaptive_scaling"%string, py.Bool false);
                    ("wait_for_cluster"%string, py.Bool false);
                    ("worker_profile"%string, py.Str "Medium Worker");
                    ("propagate_env"%string, py.Bool true)]%list ;;
        py.store "client" (py.Item both 0) ;;;
        py.store "cluster" (py.Item both 1)
      else py.ret tt) ;;;
     client <<- py.load "client" ;;
     cluster <<- py.load "cluster" ;;
     py.ret (client, cluster)).

(** [[
if 'SLURM_CLUSTER_NAME' in os.environ:
    dataset = 'conus404-hourly-onprem'
    machine = os.environ['SLURM_CLUSTER_NAME']
    client, cluster = configure_cluster(machine)
else:
    dataset = 'conus404-hourly-cloud'
    machine = 'esip-qhub-gateway-v0.4'
    client, cluster = configure_cluster(machine)
]]
    The cell leaves [dataset] bound and returns or raises as
    [configure_cluster] does. *)
Definition startup (w : py.world) : string * py.outcome (py.value * py.value) :=
  if py.environ_contains w "SLURM_CLUSTER_NAME" then
    ("conus404-hourly-onprem"%string,
     match py.assoc "SLURM_CLUSTER_NAME" (py.environ w) with
     | Some machine => configure_cluster w machine
     | None => py.Throw (py.KeyError "SLURM_CLUSTER_NAME") []%list
     end)
  else
    ("conus404-hourly-cloud"%string, configure_cluster w "esip-qhub-gateway-v0.4").

End notebook1.

(** The cluster cells of the second notebook of the file (spatial aggregation),
    the one that holds the regridding pipeline.
[[
def configure_cluster(machine):
    if machine == 'denali':
        from dask.distributed import LocalCluster, Client
        cluster = LocalCluster(threads_per_worker=1)
        client = Client(cluster)
    elif machine == 'tallgrass':
        from dask.distributed import Client
        from dask_jobqueue import SLURMCluster
        cluster = SLURMCluster(queue='cpu', cores=1,
                               walltime="01:00:00", account="woodshole",
                               interface='ib0', memory='6GB')
        cluster.adapt(maximum_jobs=10)
        client = Client(cluster)
    elif machine == 'local':
        import os
        import warnings
        from dask.distributed import LocalCluster, Client
        warnings.warn("Running locally can result in costly data transfers!\n")
        n_cores = os.cpu_count() # set to match your machine
        cluster = LocalCluster(threads_per_worker=n_cores)
        client = Client(cluster)
    elif machine in ['esip-qhub-gateway-v0.4']:
        import sys, os
        sys.path.append(os.path.join(os.environ['HOME'],'shared','users','lib'))
        import ebdpy as ebd
        aws_profile = 'esip-qhub'
        ebd.set_credentials(profile=aws_profile)

        aws_region = 'us-west-2'
        endpoint = f's3.{aws_region}.amazonaws.com'
        ebd.set_credentials(profile=aws_profile, region=aws_region, endpoint=endpoint)
        worker_max = 10
        client,cluster = ebd.start_dask_cluster(profile=aws_profile, worker_max=worker_max,
                                              region=aws_region, use_existing_cluster=True,
                                              adaptive_scaling=False, wait_for_cluster=False,
                                              worker_profile='Medium Worker', propagate_env=True)
    return client, cluster
]] *)
Module notebook2.

Definition configure_cluster (w : py.world) (machine : string)
  : py.outcome (py.value * py.value) :=
  py.run [("machine"%string, py.Str machine)]%list
    ((if String.eqb machine "denali" then
        py.import_from "dask.distributed" ["LocalCluster"%string; "Client"%string]%list ;;;
        LocalCluster <<- py.load "LocalCluster" ;;
        v <<- py.call LocalCluster [("threads_per_worker"%string, py.Int 1)]%list ;;
        py.store "cluster" v ;;;
        Client <<- py.load "Client" ;;
        cluster <<- py.load "cluster" ;;
        v <<- py.call Client [(EmptyString, cluster)]%list ;;
        py.store "client" v
      else if String.eqb machine "tallgrass" then
        py.import_from "dask.distributed" ["Client"%string]%list ;;;
        py.import_from "dask_jobqueue" ["SLURMCluster"%string]%list ;;;
        SLURMCluster <<- py.load "SLURMCluster" ;;
        v <<- py.call SLURMCluster
                [("queue"%string, py.Str "cpu"); ("cores"%string, py.Int 1);
                 ("walltime"%string, py.Str "01:00:00");
                 ("account"%string, py.Str "woodshole");
                 ("interface"%string, py.Str "ib0");
                 ("memory"%string, py.Str "6GB")]%list ;;
        py.store "cluster" v ;;;
        cluster <<- py.load "cluster" ;;
        _ <<- py.call (py.Attr cluster "adapt") [("maximum_jobs"%string, py.Int 10)]%list ;;
        Client <<- py.load "Client" ;;
        cluster <<- py.load "cluster" ;;
        v <<- py.call Client [(EmptyString, cluster)]%list ;;
        py.store "client" v
      else if String.eqb machine "local" then
        py.import_as "os" "os" ;;;
        py.import_as "warnings" "warnings" ;;;
        py.import_from "dask.distributed" ["LocalCluster"%string; "Client"%string]%list ;;;
        warnings <<- py.load "warnings" ;;
        _ <<- py.call (py.Attr warnings "warn")
                [(EmptyString,
                  py.Str ("Running locally can result in costly data transfers!"
                          ++ newline))]%list ;;
        os <<- py.load "os" ;;
        v <<- py.os_cpu_count w os ;;
        py.store "n_cores" v ;;;
        LocalCluster <<- py.load "LocalCluster" ;;
        n_cores <<- py.load "n_cores" ;;
        v <<- py.call LocalCluster [("threads_per_worker"%string, n_cores)]%list ;;
        py.store "cluster" v ;;;
        Client <<- py.load "Client" ;;
        cluster <<- py.load "cluster" ;;
        v <<- py.call Client [(EmptyString, cluster)]%list ;;
        py.store "client" v
      else if existsb (String.eqb machine) ["esip-qhub-gateway-v0.4"%string]%list then
        py.import_as "sys" "sys" ;;;
        py.import_as "os" "os" ;;;
        sys <<- py.load "sys" ;;
        os <<- py.load "os" ;;
        os_ <<- py.load "os" ;;
        home <<- py.environ_getitem w "HOME" ;;
        path <<- py.call (py.Attr (py.Attr os "path") "join")
                   [(EmptyString, home); (EmptyString, py.Str "shared");
                    (EmptyString, py.Str "users"); (EmptyString, py.Str "lib")]%list ;;
        _ <<- py.call (py.Attr (py.Attr sys "path") "append") [(EmptyString, path)]%list ;;
        py.import_as "ebdpy" "ebd" ;;;
        py.store "aws_profile" (py.Str "esip-qhub") ;;;
        ebd <<- py.load "ebd" ;;
        aws_profile <<- py.load "aws_profile" ;;
        _ <<- py.call (py.Attr ebd "set_credentials") [("profile"%string, aws_profile)]%list ;;
        py.store "aws_region" (py.Str "us-west-2") ;;;
        aws_region <<- py.load "aws_region" ;;
        py.store "endpoint" (py.Str ("s3." ++ py.format aws_region ++ ".amazonaws.com")) ;;;
        ebd <<- py.load "ebd" ;;
        aws_profile <<- py.load "aws_profile" ;;
        aws_region <<- py.load "aws_region" ;;
        endpoint <<- py.load "endpoint" ;;
        _ <<- py.call (py.Attr ebd "set_credentials")
                [("profile"%string, aws_profile); ("region"%string, aws_region);
                 ("endpoint"%string, endpoint)]%list ;;
        py.store "worker_max" (py.Int 10) ;;;
        ebd <<- py.load "ebd" ;;
        aws_profile <<- py.load "aws_profile" ;;
        worker_max <<- py.load "worker_max" ;;
        aws_region <<- py.load "aws_region" ;;
        both <<- py.call (py.Attr ebd "start_dask_cluster")
                   [("profile"%string, aws_profile); ("worker_max"%string, worker_max);
                    ("region"%string, aws_region);
                    ("use_existing_cluster"%string, py.Bool true);
                    ("adaptive_scaling"%string, py.Bool false);
                    ("wait_for_cluster"%string, py.Bool false);
                    ("worker_profile"%string, py.Str "Medium Worker");
                    ("propagate_env"%string, py.Bool true)]%list ;;
        py.store "client" (py.Item both 0) ;;;
        py.store "cluster" (py.Item both 1)
      else py.ret tt) ;;;
     client <<- py.load "client" ;;
     cluster <<- py.load "cluster" ;;
     py.ret (client, cluster)).

(** [[
import os
if 'SLURM_CLUSTER_NAME' in os.environ:
    dataset = 'conus404-hourly-onprem'
    machine = os.environ['SLURM_CLUSTER_NAME']
    client, cluster = configure_cluster(machine)
else:
    dataset = 'conus404-hourly-cloud'
    machine = 'esip-qhub-gateway-v0.4'
    client, cluster = configure_cluster(machine)
]]
    The cell leaves [dataset] bound and returns or raises as
    [configure_cluster] does. *)
Definition startup (w : py.world) : string * py.outcome (py.value * py.value) :=
  if py.environ_contains w "SLURM_CLUSTER_NAME" then
    ("conus404-hourly-onprem"%string,
     match py.assoc "SLURM_CLUSTER_NAME" (py.environ w) with
     | Some machine => configure_cluster w machine
     | None => py.Throw (py.KeyError "SLURM_CLUSTER_NAME") []%list
     end)
  else
    ("conus404-hourly-cloud"%string, configure_cluster w "esip-qhub-gateway-v0.4").

End notebook2.

(** What a caller of [configure_cluster] relies on: the client it receives
    was obtained, by the last call made, either from [Client(cluster)] for
    the cluster it receives, or together with that cluster from
    [ebd.start_dask_cluster]. *)
Definition connected (client cluster : py.value) (done : list py.event) : Prop :=
  (exists n,
      cluster = py.Result n /\ (S n < length done)%nat
      /\ client = py.Result (length done - 1)
      /\ nth_error done (length done - 1)
         = Some (py.Call (py.Imported "dask.distributed" "Client")
                         [(EmptyString, cluster)]%list))
  \/ (exists args,
         client = py.Item (py.Result (length done - 1)) 0
         /\ cluster = py.Item (py.Result (length done - 1)) 1
         /\ nth_error done (length done - 1)
            = Some (py.Call (py.Attr (py.Imported "ebdpy" EmptyString) "start_dask_cluster")
                            args)).

(** Further concrete inputs: weights that store nothing for their second
    region, and the environment of a SLURM cluster that
    [configure_cluster] does not know. *)
Definition sample_weights_one_region : sparse.COO :=
  {| sparse.shape := [2; 2; 2]%nat;
     sparse.entries :=
       [ ([0; 0; 0]%nat, half 1); ([1; 1; 0]%nat, half 1) ]%list |}.

Definition sample_world : py.world :=
  {| py.environ := [("SLURM_CLUSTER_NAME"%string, "hovenweep"%string)]%list;
     py.cpu_count := Some 4%Z |}.

(* ================================================================== *)
(** * Sums                                                              *)
(* ================================================================== *)

Lemma fold_left_Qcplus (l : list num) (a : num) :
  fold_left Qcplus l a = a + sum l.
Proof.
  unfold sum. revert a.
  induction l as [|b l IH]; intros a; simpl.
  - ring.
  - rewrite (IH (a + b)), (IH (0 + b)). ring.
Qed.

Lemma sum_nil : sum [] = 0.
Proof. reflexivity. Qed.

Lemma sum_cons (a : num) (l : list num) : sum (a :: l) = a + sum l.
Proof. unfold sum at 1. simpl. rewrite fold_left_Qcplus. ring. Qed.

Lemma sum_app (l1 l2 : list num) : sum (l1 ++ l2) = sum l1 + sum l2.
Proof.
  induction l1 as [|a l1 IH]; simpl.
  - rewrite sum_nil. ring.
  - rewrite !sum_cons, IH. ring.
Qed.

Lemma sum_map_plus {A : Type} (f g : A -> num) (l : list A) :
  sum (map (fun a => f a + g a) l) = sum (map f l) + sum (map g l).
Proof.
  induction l as [|a l IH]; simpl.
  - rewrite sum_nil. ring.
  - rewrite !sum_cons, IH. ring.
Qed.

Lemma sum_map_scal {A : Type} (c : num) (f : A -> num) (l : list A) :
  sum (map (fun a => c * f a) l) = c * sum (map f l).
Proof.
  induction l as [|a l IH]; simpl.
  - rewrite sum_nil. ring.
  - rewrite !sum_cons, IH. ring.
Qed.

Lemma sum_map_ext_in {A : Type} (f g : A -> num) (l : list A) :
  (forall a, In a l -> f a = g a) -> sum (map f l) = sum (map g l).
Proof.
  intros H. f_equal. apply map_ext_in. exact H.
Qed.

Lemma sum_map_zero {A : Type} (l : list A) : sum (map (fun _ => 0) l) = 0.
Proof.
  induction l as [|a l IH]; simpl.
  - apply sum_nil.
  - rewrite sum_cons, IH. ring.
Qed.

(** Exchange of two finite sums. *)
Lemma sum_map_swap {A B : Type} (f : A -> B -> num) (la : list A) (lb : list B) :
  sum (map (fun a => sum (map (fun b => f a b) lb)) la)
  = sum (map (fun b => sum (map (fun a => f a b) la)) lb).
Proof.
  induction la as [|a la IH]; simpl.
  - rewrite sum_nil, sum_map_zero. reflexivity.
  - rewrite sum_cons, IH, <- sum_map_plus.
    apply sum_map_ext_in. intros b _. rewrite sum_cons. reflexivity.
Qed.

(** A sum over the positions below [n] in which a single position [p]
    contributes. *)
Lemma sum_seq_single (n p : nat) (v : num) :
  (p < n)%nat ->
  sum (map (fun q => if q =? p then v else 0) (seq 0 n)) = v.
Proof.
  intros Hp.
  assert (G : forall s len, (s <= p < s + len)%nat ->
            sum (map (fun q => if q =? p then v else 0) (seq s len)) = v).
  { intros s len. revert s.
    induction len as [|len IH]; intros s Hs; [lia|].
    simpl. rewrite sum_cons.
    destruct (Nat.eqb_spec s p) as [->|Hne].
    - rewrite (sum_map_ext_in _ (fun _ => 0)).
      + rewrite sum_map_zero. ring.
      + intros q Hq. apply in_seq in Hq.
        destruct (Nat.eqb_spec q p); [lia|reflexivity].
    - rewrite IH by lia. ring. }
  apply G. lia.
Qed.

Lemma big_sum_ext (n : nat) (f g : nat -> num) :
  (forall i, (i < n)%nat -> f i = g i) -> big_sum n f = big_sum n g.
Proof.
  intros H. unfold big_sum. apply sum_map_ext_in.
  intros i Hi. apply in_seq in Hi. apply H. lia.
Qed.


Lemma big_sum_scal (n : nat) (c : num) (f : nat -> num) :
  big_sum n (fun i => c * f i) = c * big_sum n f.
Proof. unfold big_sum. apply sum_map_scal. Qed.

(* ================================================================== *)
(** * Row-major indexing                                                *)
(* ================================================================== *)

Lemma ravel_lt (idx shape : list nat) :
  valid_index idx shape -> (np.ravel_multi_index idx shape < np.prod shape)%nat.
Proof.
  induction 1 as [|i d idx shape Hi _ IH]; simpl.
  - lia.
  - fold (np.prod shape). nia.
Qed.

Lemma unravel_valid (shape : list nat) (p : nat) :
  (p < np.prod shape)%nat -> valid_index (np.unravel_index p shape) shape.
Proof.
  revert p. induction shape as [|d shape IH]; intros p Hp; simpl.
  - constructor.
  - simpl in Hp. fold (np.prod shape) in Hp.
    assert (Hpos : (0 < np.prod shape)%nat) by nia.
    constructor.
    + apply Nat.Div0.div_lt_upper_bound. lia.
    + apply IH. apply Nat.mod_upper_bound. lia.
Qed.

Lemma ravel_unravel (shape : list nat) (p : nat) :
  (p < np.prod shape)%nat ->
  np.ravel_multi_index (np.unravel_index p shape) shape = p.
Proof.
  revert p. induction shape as [|d shape IH]; intros p Hp; simpl.
  - simpl in Hp. lia.
  - simpl in Hp. fold (np.prod shape) in Hp.
    assert (Hpos : (0 < np.prod shape)%nat) by nia.
    rewrite IH by (apply Nat.mod_upper_bound; lia).
    rewrite (Nat.div_mod_eq p (np.prod shape)) at 3. lia.
Qed.

Lemma unravel_ravel (idx shape : list nat) :
  valid_index idx shape ->
  np.unravel_index (np.ravel_multi_index idx shape) shape = idx.
Proof.
  induction 1 as [|i d idx shape Hi Hv IH]; simpl.
  - reflexivity.
  - fold (np.prod shape).
    pose proof (ravel_lt Hv) as Hlt.
    f_equal.
    + rewrite Nat.div_add_l by lia. rewrite Nat.div_small by lia. lia.
    + rewrite Nat.add_comm, Nat.Div0.mod_add, Nat.mod_small by lia. exact IH.
Qed.

Lemma prod_2 (n k : nat) : np.prod [n; k] = (n * k)%nat.
Proof. simpl. lia. Qed.

Lemma prod_3 (a b c : nat) : np.prod [a; b; c] = (a * b * c)%nat.
Proof. simpl. lia. Qed.

Lemma ravel_2 (i p n k : nat) : np.ravel_multi_index [i; p] [n; k] = (i * k + p)%nat.
Proof. simpl. lia. Qed.

Lemma valid_index_2 (idx : list nat) (n k : nat) :
  valid_index idx [n; k] -> exists i p, idx = [i; p] /\ (i < n)%nat /\ (p < k)%nat.
Proof.
  intros H. inversion H as [|i d idx1 s1 Hi H1]; subst.
  inversion H1 as [|p d idx2 s2 Hp H2]; subst.
  inversion H2; subst. exists i, p. auto.
Qed.

Lemma pair_index_eqb (m i j i' j' : nat) :
  (j < m)%nat -> (j' < m)%nat ->
  (i' * m + j' =? i * m + j) = (i' =? i) && (j' =? j).
Proof.
  intros Hj Hj'.
  destruct (Nat.eqb_spec (i' * m + j') (i * m + j)) as [E|E].
  - assert (H : i' = i /\ j' = j).
    { apply (Nat.div_mod_unique m); lia. }
    destruct H as [-> ->]. rewrite !Nat.eqb_refl. reflexivity.
  - destruct (Nat.eqb_spec i' i) as [->|]; [|reflexivity].
    destruct (Nat.eqb_spec j' j) as [->|]; [|reflexivity].
    contradiction.
Qed.

(** A sum over the positions below [n] of a function that is read at one
    position only. *)
Lemma sum_seq_pick (n p : nat) (f : nat -> num) :
  (p < n)%nat ->
  sum (map (fun q => if q =? p then f q else 0) (seq 0 n)) = f p.
Proof.
  intros Hp. rewrite <- (sum_seq_single (f p) Hp).
  apply sum_map_ext_in. intros q _.
  destruct (Nat.eqb_spec q p) as [->|]; reflexivity.
Qed.

(* ================================================================== *)
(** * The value of a COO array at a position                            *)
(* ================================================================== *)

Lemma sum_filter_indicator {A : Type} (P : A -> bool) (v : A -> num) (l : list A) :
  sum (map v (filter P l)) = sum (map (fun e => if P e then v e else 0) l).
Proof.
  induction l as [|e l IH]; simpl.
  - reflexivity.
  - destruct (P e); simpl; rewrite !sum_cons, IH; ring.
Qed.

Lemma at_flat_indicator (c : sparse.COO) (p : nat) :
  sparse.at_flat c p
  = sum (map (fun e => if np.ravel_multi_index (fst e) (sparse.shape c) =? p
                       then snd e else 0)
             (sparse.entries c)).
Proof. unfold sparse.at_flat. apply sum_filter_indicator. Qed.

Lemma num_eqb_true (a b : num) : num_eqb a b = true -> a = b.
Proof. apply Qc_eq_bool_correct. Qed.

Lemma sum_enumerate_pick (data : list num) (s p : nat) :
  sum (map (fun qv : nat * num => if fst qv =? p then snd qv else 0)
           (combine (seq s (length data)) data))
  = if (s <=? p) && (p <? s + length data) then nth (p - s) data 0 else 0.
Proof.
  revert s. induction data as [|v data IH]; intros s; simpl.
  - rewrite sum_nil. destruct ((s <=? p) && (p <? s + 0)), (p - s)%nat; reflexivity.
  - rewrite sum_cons, IH.
    destruct (Nat.eqb_spec s p) as [->|Hne].
    + replace (p - p)%nat with 0%nat by lia.
      replace (S p <=? p) with false by (symmetry; apply Nat.leb_gt; lia).
      replace (p <=? p) with true by (symmetry; apply Nat.leb_le; lia).
      replace (p <? p + S (length data)) with true
        by (symmetry; apply Nat.ltb_lt; lia).
      simpl. ring.
    + destruct (Nat.leb_spec (S s) p) as [Hle|Hgt].
      * replace (s <=? p) with true by (symmetry; apply Nat.leb_le; lia).
        replace (p <? s + S (length data)) with (p <? S s + length data)
          by (f_equal; lia).
        simpl. destruct (p <? S (s + length data)).
        -- replace (p - s)%nat with (S (p - S s)) by lia. simpl. ring.
        -- ring.
      * replace (s <=? p) with false by (symmetry; apply Nat.leb_gt; lia).
        simpl. ring.
Qed.

Lemma sum_map_flat_map {A B : Type} (v : B -> num) (g : A -> list B) (l : list A) :
  sum (map v (flat_map g l)) = sum (map (fun a => sum (map v (g a))) l).
Proof.
  induction l as [|a l IH]; simpl.
  - reflexivity.
  - rewrite map_app, sum_app, sum_cons, IH. reflexivity.
Qed.

(** [from_numpy] keeps the value at every position. *)
Lemma at_flat_from_numpy (x : np.ndarray) (p : nat) :
  wf_ndarray x ->
  (p < np.prod (np.shape x))%nat ->
  sparse.at_flat (sparse.from_numpy x) p = nth p (np.data x) 0.
Proof.
  intros Hwf Hp. unfold wf_ndarray in Hwf.
  rewrite at_flat_indicator. simpl.
  rewrite sum_map_flat_map.
  rewrite (sum_map_ext_in _
             (fun qv : nat * num => if fst qv =? p then snd qv else 0)).
  - rewrite sum_enumerate_pick. simpl.
    replace (p <? length (np.data x)) with true
      by (symmetry; apply Nat.ltb_lt; lia).
    rewrite Nat.sub_0_r. reflexivity.
  - intros [q v] Hin. simpl.
    apply in_combine_l in Hin. apply in_seq in Hin.
    destruct (num_eqb v 0) eqn:Hv.
    + apply num_eqb_true in Hv. subst v. simpl. rewrite sum_nil.
      destruct (q =? p); reflexivity.
    + simpl. rewrite ravel_unravel by lia.
      rewrite sum_cons, sum_nil. destruct (q =? p); ring.
Qed.

Lemma wf_from_numpy (x : np.ndarray) :
  wf_ndarray x -> wf_COO (sparse.from_numpy x).
Proof.
  intros Hwf. unfold wf_ndarray in Hwf. unfold wf_COO. simpl.
  apply Forall_flat_map. apply Forall_forall.
  intros [q v] Hin. simpl.
  apply in_combine_l in Hin. apply in_seq in Hin.
  destruct (num_eqb v 0); constructor; [|constructor].
  simpl. apply unravel_valid. lia.
Qed.

(** [reshape] keeps the value at every flat position. *)
Lemma reshape_Ok (c : sparse.COO) (new_shape : list nat) :
  np.prod (sparse.shape c) = np.prod new_shape ->
  exists c', sparse.reshape c new_shape = Ok c'
             /\ sparse.shape c' = new_shape
             /\ (wf_COO c -> wf_COO c')
             /\ (wf_COO c -> forall p, sparse.at_flat c' p = sparse.at_flat c p).
Proof.
  intros Hprod. unfold sparse.reshape.
  rewrite Hprod, Nat.eqb_refl.
  eexists. split; [reflexivity|]. split; [reflexivity|]. split.
  - intros Hwf. unfold wf_COO in *. simpl.
    apply Forall_map. eapply Forall_impl; [|exact Hwf].
    intros e He. simpl. apply unravel_valid.
    rewrite <- Hprod. apply ravel_lt. exact He.
  - intros Hwf p. rewrite !at_flat_indicator. simpl.
    rewrite map_map. apply sum_map_ext_in.
    intros e He. simpl.
    unfold wf_COO in Hwf. rewrite Forall_forall in Hwf.
    rewrite ravel_unravel; [reflexivity|].
    rewrite <- Hprod. apply ravel_lt. apply Hwf. exact He.
Qed.

(** [matmul] computes, at every position of the product, the sum over the
    inner index of the products of the values of its operands. *)
Lemma at_flat_matmul (a b : sparse.COO) (n k m : nat) :
  sparse.shape a = [n; k] -> sparse.shape b = [k; m] ->
  wf_COO a -> wf_COO b ->
  exists c, sparse.matmul a b = Ok c
            /\ sparse.shape c = [n; m]
            /\ forall i j, (i < n)%nat -> (j < m)%nat ->
                 sparse.at_flat c (i * m + j)
                 = big_sum k (fun p => sparse.at_flat a (i * k + p)
                                       * sparse.at_flat b (p * m + j)).
Proof.
  intros Ha Hb Hwa Hwb. unfold sparse.matmul.
  rewrite Ha, Hb, Nat.eqb_refl.
  eexists. split; [reflexivity|]. split; [reflexivity|].
  intros i j Hi Hj.
  unfold wf_COO in Hwa, Hwb. rewrite Ha in Hwa. rewrite Hb in Hwb.
  rewrite Forall_forall in Hwa, Hwb.
  rewrite at_flat_indicator. simpl sparse.shape. simpl sparse.entries.
  rewrite sum_map_flat_map.
  (* right-hand side: a sum over the entries of [a] *)
  unfold big_sum.
  rewrite (sum_map_ext_in
             (fun p => sparse.at_flat a (i * k + p) * sparse.at_flat b (p * m + j))
             (fun p => sum (map (fun ea : list nat * num =>
                                   (if np.ravel_multi_index (fst ea) [n; k] =? i * k + p
                                    then snd ea else 0)
                                   * sparse.at_flat b (p * m + j))
                                (sparse.entries a)))).
  2:{ intros p _. rewrite (at_flat_indicator a), Ha.
      rewrite Qcmult_comm, <- sum_map_scal.
      apply sum_map_ext_in. intros ea _. ring. }
  rewrite <- (sum_map_swap
                (fun (ea : list nat * num) p =>
                   (if np.ravel_multi_index (fst ea) [n; k] =? i * k + p
                    then snd ea else 0)
                   * sparse.at_flat b (p * m + j))).
  apply sum_map_ext_in. intros [ia v] Hina.
  destruct (valid_index_2 (Hwa _ Hina)) as (i' & p' & Eia & Hi' & Hp').
  simpl in Eia. subst ia. simpl fst. simpl snd.
  (* the sum over the inner index keeps position p' only *)
  rewrite (sum_map_ext_in
             (fun p => (if np.ravel_multi_index [i'; p'] [n; k] =? i * k + p
                        then v else 0) * sparse.at_flat b (p * m + j))
             (fun p => if p =? p'
                       then (if i' =? i then v * sparse.at_flat b (p * m + j) else 0)
                       else 0)).
  2:{ intros p Hp. apply in_seq in Hp. rewrite ravel_2.
      rewrite (pair_index_eqb i i') by lia.
      rewrite (Nat.eqb_sym p p').
      destruct (i' =? i), (p' =? p); simpl; ring. }
  rewrite (sum_seq_pick (fun p => if i' =? i then v * sparse.at_flat b (p * m + j) else 0))
    by exact Hp'.
  (* left-hand side: the products stored for this entry of [a] *)
  rewrite sum_map_flat_map.
  rewrite (at_flat_indicator b), Hb.
  destruct (Nat.eqb_spec i' i) as [->|Hne].
  - rewrite <- sum_map_scal. apply sum_map_ext_in.
    intros [ib w] Hinb.
    destruct (valid_index_2 (Hwb _ Hinb)) as (q & j' & Eib & Hq & Hj').
    simpl in Eib. subst ib. simpl fst. simpl snd. cbv beta iota.
    rewrite ravel_2. rewrite (pair_index_eqb p' q) by lia.
    rewrite (Nat.eqb_sym q p').
    destruct (p' =? q); simpl.
    + rewrite sum_cons, sum_nil, !Nat.mul_1_r, !Nat.add_0_r.
      rewrite (pair_index_eqb i i) by lia. rewrite Nat.eqb_refl. simpl.
      destruct (j' =? j); ring.
    + rewrite sum_nil. ring.
  - rewrite (sum_map_ext_in _ (fun _ => 0)).
    + apply sum_map_zero.
    + intros [ib w] Hinb.
      destruct (valid_index_2 (Hwb _ Hinb)) as (q & j' & Eib & Hq & Hj').
      simpl in Eib. subst ib. simpl fst. simpl snd. cbv beta iota.
      destruct (p' =? q); simpl.
      * rewrite sum_cons, sum_nil, !Nat.mul_1_r, !Nat.add_0_r.
        rewrite (pair_index_eqb i i') by lia.
        destruct (Nat.eqb_spec i' i); [contradiction|]. simpl. ring.
      * apply sum_nil.
Qed.

Lemma nth_map_seq (f : nat -> num) (n p : nat) :
  (p < n)%nat -> nth p (map f (seq 0 n)) 0 = f p.
Proof.
  intros Hp.
  rewrite (nth_indep _ 0 (f 0%nat)) by (rewrite length_map, length_seq; exact Hp).
  rewrite map_nth, seq_nth by exact Hp. reflexivity.
Qed.

(** What [apply_weights_matmul_sparse] does on three-dimensional operands
    whose flattened planes have one size: it returns, and the value it
    returns at [(t, j)] is the sum over the flat cell index. *)
Lemma apply_weights_run (weights : sparse.COO) (data : np.ndarray)
      (n r c w0 w1 m : nat) :
  np.shape data = [n; r; c] ->
  sparse.shape weights = [w0; w1; m] ->
  (r * c = w0 * w1)%nat ->
  exists out,
    apply_weights_matmul_sparse weights data = Ok out
    /\ np.shape out = [n; m]
    /\ length (np.data out) = (n * m)%nat
    /\ (wf_ndarray data -> wf_COO weights ->
        forall t j, (t < n)%nat -> (j < m)%nat ->
          nth (t * m + j) (np.data out) 0
          = big_sum (r * c)
              (fun cell => nth (t * (r * c) + cell) (np.data data) 0
                           * sparse.at_flat weights (cell * m + j))).
Proof.
  intros Hd Hw Hk.
  unfold apply_weights_matmul_sparse.
  change (sparse.shape (sparse.from_numpy data)) with (np.shape data).
  rewrite Hd, Hw. cbn [getitem nth_error bind].
  destruct (@reshape_Ok (sparse.from_numpy data) [n; (r * c)%nat])
    as (d' & Ed & Sd & Wd & Vd).
  { change (sparse.shape (sparse.from_numpy data)) with (np.shape data).
    rewrite Hd, prod_3, prod_2. apply eq_sym, Nat.mul_assoc. }
  rewrite Ed. cbn [bind].
  rewrite <- Hk, Nat.eqb_refl. cbn [assert bind].
  destruct (@reshape_Ok weights [(r * c)%nat; m]) as (w' & Ew & Sw & Ww & Vw).
  { rewrite Hw, prod_3, prod_2, Hk. reflexivity. }
  rewrite Ew. cbn [bind].
  assert (Em : exists c', sparse.matmul d' w' = Ok c' /\ sparse.shape c' = [n; m]
               /\ (wf_COO d' -> wf_COO w' ->
                   forall i j, (i < n)%nat -> (j < m)%nat ->
                     sparse.at_flat c' (i * m + j)
                     = big_sum (r * c) (fun p => sparse.at_flat d' (i * (r * c) + p)
                                                 * sparse.at_flat w' (p * m + j)))).
  { unfold sparse.matmul at 1. rewrite Sd, Sw, Nat.eqb_refl.
    eexists. split; [reflexivity|]. split; [reflexivity|].
    intros Hwd Hww.
    destruct (at_flat_matmul Sd Sw Hwd Hww) as (c'' & Ec & _ & Vc).
    unfold sparse.matmul in Ec. rewrite Sd, Sw, Nat.eqb_refl in Ec.
    injection Ec as <-. exact Vc. }
  destruct Em as (c' & Ec & Sc & Vc).
  rewrite Ec. cbn [bind]. rewrite Sc.
  unfold shape_eqb. destruct (list_eq_dec Nat.eq_dec [n; m] [n; m]) as [_|N];
    [|exfalso; apply N; reflexivity].
  cbn [assert bind].
  eexists. split; [reflexivity|].
  unfold sparse.todense. cbn [np.shape np.data]. rewrite Sc.
  split; [reflexivity|].
  split; [rewrite length_map, length_seq, prod_2; reflexivity|].
  intros Hwfd Hwfw t j Ht Hj.
  assert (Hp : (t * m + j < np.prod [n; m])%nat) by (rewrite prod_2; nia).
  rewrite nth_map_seq by exact Hp.
  rewrite Vc; auto using wf_from_numpy.
  apply big_sum_ext. intros cell Hcell.
  rewrite Vd by auto using wf_from_numpy.
  rewrite Vw by assumption.
  rewrite at_flat_from_numpy; [reflexivity|assumption|].
  rewrite Hd, prod_3. nia.
Qed.



Lemma ndarray_ext (a b : np.ndarray) (n m : nat) :
  np.shape a = [n; m] -> np.shape b = [n; m] ->
  length (np.data a) = (n * m)%nat -> length (np.data b) = (n * m)%nat ->
  (forall t j, (t < n)%nat -> (j < m)%nat ->
     nth (t * m + j) (np.data a) 0 = nth (t * m + j) (np.data b) 0) ->
  a = b.
Proof.
  destruct a as [sa da], b as [sb db]. simpl.
  intros -> -> La Lb H. f_equal.
  apply (nth_ext da db 0 0); [lia|].
  intros p Hp. rewrite La in Hp.
  assert (Hm : (0 < m)%nat) by nia.
  rewrite (Nat.div_mod_eq p m), (Nat.mul_comm m).
  apply H.
  - apply Nat.Div0.div_lt_upper_bound. lia.
  - apply Nat.mod_upper_bound. lia.
Qed.

Lemma ravel_cell_data (n r c t cell : nat) :
  (cell < r * c)%nat ->
  np.ravel_multi_index [t; (cell / c)%nat; (cell mod c)%nat] [n; r; c]
  = (t * (r * c) + cell)%nat.
Proof.
  intros Hcell. simpl.
  rewrite (Nat.div_mod_eq cell c) at 3. lia.
Qed.

Lemma ravel_cell_weight (w0 w1 m cell j : nat) :
  np.ravel_multi_index [(cell / w1)%nat; (cell mod w1)%nat; j] [w0; w1; m]
  = (cell * m + j)%nat.
Proof.
  simpl. rewrite (Nat.div_mod_eq cell w1) at 3. lia.
Qed.

(* ================================================================== *)
(** * Regridder: the claims                                             *)
(* ================================================================== *)

(** C2.  For a data array indexed by (time, row, column) and weights whose
    cell dimension has rows x columns entries, the Regridder returns an
    array indexed by (time, region) whose entry at [(t, j)] is the sum over
    all grid cells of the value of the cell at time [t] times the weight of
    the cell for region [j]: the spatial plane of each time step is
    flattened, row by row, and multiplied with the weight matrix. *)
Theorem regridder_is_weighted_sum
        (weights : sparse.COO) (data : np.ndarray) (n r c w0 w1 m : nat) :
  np.shape data = [n; r; c] ->
  sparse.shape weights = [w0; w1; m] ->
  wf_ndarray data -> wf_COO weights ->
  (r * c = w0 * w1)%nat ->
  exists out,
    apply_weights_matmul_sparse weights data = Ok out
    /\ np.shape out = [n; m]
    /\ forall t j, (t < n)%nat -> (j < m)%nat ->
         np_item out [t; j] = regrid_spec weights data t j.
Proof.
  intros Hd Hw Hwfd Hwfw Hk.
  destruct (apply_weights_run weights data Hd Hw Hk) as (out & Eo & So & _ & Vo).
  exists out. split; [exact Eo|]. split; [exact So|].
  intros t j Ht Hj.
  unfold np_item, regrid_spec. rewrite So, Hd, Hw, ravel_2.
  rewrite (Vo Hwfd Hwfw t j Ht Hj).
  apply big_sum_ext. intros cell Hcell.
  unfold np_item, sparse_item. rewrite Hd, Hw.
  rewrite ravel_cell_data by exact Hcell.
  rewrite ravel_cell_weight. reflexivity.
Qed.

(** C3.  The Regridder fails its precondition assertion when the flattened
    spatial dimension of the data (rows x columns) differs from the cell
    dimension of the weights, and it returns when the two agree. *)
Theorem regridder_shape_contract
        (weights : sparse.COO) (data : np.ndarray) (n r c w0 w1 m : nat) :
  np.shape data = [n; r; c] ->
  sparse.shape weights = [w0; w1; m] ->
  ((r * c <> w0 * w1)%nat ->
     apply_weights_matmul_sparse weights data = Raise AssertionError)
  /\ ((r * c = w0 * w1)%nat ->
        exists out, apply_weights_matmul_sparse weights data = Ok out
                    /\ np.shape out = [n; m]).
Proof.
  intros Hd Hw. split.
  - intros Hne.
    unfold apply_weights_matmul_sparse.
    change (sparse.shape (sparse.from_numpy data)) with (np.shape data).
    rewrite Hd, Hw. cbn [getitem nth_error bind].
    destruct (@reshape_Ok (sparse.from_numpy data) [n; (r * c)%nat])
      as (d' & Ed & _).
    { change (sparse.shape (sparse.from_numpy data)) with (np.shape data).
      rewrite Hd, prod_3, prod_2. apply eq_sym, Nat.mul_assoc. }
    rewrite Ed. cbn [bind].
    destruct (Nat.eqb_spec (r * c) (w0 * w1)) as [E|_]; [contradiction|].
    reflexivity.
  - intros Hk.
    destruct (apply_weights_run weights data Hd Hw Hk) as (out & Eo & So & _).
    exists out. split; assumption.
Qed.


Lemma sum_nonneg {A : Type} (f : A -> num) (l : list A) :
  (forall a, In a l -> 0 <= f a) -> 0 <= sum (map f l).
Proof.
  induction l as [|a l IH]; intros H; simpl.
  - rewrite sum_nil. apply Qcle_refl.
  - rewrite sum_cons.
    replace 0 with (0 + 0) by ring.
    apply Qcplus_le_compat.
    + apply H. left. reflexivity.
    + apply IH. intros b Hb. apply H. right. exact Hb.
Qed.






(** At that input the two sides of each equation are within the
    tolerance of the amended statement, also in float64: they differ by
    one unit in the last place, against magnitudes of 0.1 * 10.0 +
    0.2 * 10.0 and of 3.0 * (0.1 * 10.0). *)
Example regridder_float64_within_tolerance :
  float64.within_tolerance float64.above_three float64.three
    (PrimFloat.add
       (PrimFloat.mul (PrimFloat.abs (nth 0 (float64.data float64.sample_A) PrimFloat.zero))
                      (PrimFloat.abs (snd (nth 0 (float64.entries float64.sample_weights)
                                               (nil, PrimFloat.zero)))))
       (PrimFloat.mul (PrimFloat.abs (nth 0 (float64.data float64.sample_B) PrimFloat.zero))
                      (PrimFloat.abs (snd (nth 0 (float64.entries float64.sample_weights)
                                               (nil, PrimFloat.zero))))))
  = true
  /\ float64.within_tolerance float64.above_three float64.three
       (PrimFloat.mul
          (PrimFloat.abs float64.three)
          (PrimFloat.mul
             (PrimFloat.abs (nth 0 (float64.data float64.sample_A) PrimFloat.zero))
             (PrimFloat.abs (snd (nth 0 (float64.entries float64.sample_weights)
                                      (nil, PrimFloat.zero))))))
     = true.
Proof. split; vm_compute; reflexivity. Qed.

(* ================================================================== *)
(** * Weight Builder: group-by and transform                            *)
(* ================================================================== *)

Section GroupByFacts.

Variable K : Type.
Variable eqb : K -> K -> bool.
Hypothesis eqb_refl : forall k, eqb k k = true.

(** A row finds its own value at its rank inside its group. *)
Lemma get_group_rank (keys : list K) (vals : list num) (i : nat) (k : K) (v : num) :
  nth_error keys i = Some k -> nth_error vals i = Some v ->
  nth_error (pandas.get_group eqb keys vals k) (pandas.rank eqb keys i k) = Some v.
Proof.
  revert vals i.
  induction keys as [|k0 keys IH]; intros [|v0 vals] [|i] Hk Hv;
    simpl in Hk, Hv; try discriminate.
  - injection Hk as ->. injection Hv as ->.
    unfold pandas.get_group, pandas.rank. simpl. rewrite eqb_refl. reflexivity.
  - specialize (IH vals i Hk Hv).
    unfold pandas.get_group, pandas.rank in *. simpl.
    destruct (eqb k0 k); simpl; exact IH.
Qed.

Lemma get_group_map {R : Type} (key : R -> K) (f : R -> num) (rows : list R) (k : K) :
  pandas.get_group eqb (map key rows) (map f rows) k
  = map f (filter (fun r => eqb (key r) k) rows).
Proof.
  unfold pandas.get_group.
  induction rows as [|r rows IH]; simpl; [reflexivity|].
  destruct (eqb (key r) k); simpl; rewrite IH; reflexivity.
Qed.

End GroupByFacts.

Lemma nth_error_enumerate {A : Type} (l : list A) (s n i : nat) :
  nth_error (combine (seq s n) l) i
  = if i <? n then option_map (fun a => ((s + i)%nat, a)) (nth_error l i) else None.
Proof.
  revert s l i. induction n as [|n IH]; intros s l i; simpl.
  - destruct i; reflexivity.
  - destruct l as [|a l]; simpl.
    + destruct i; simpl; [reflexivity|]. destruct (S i <? S n); reflexivity.
    + destruct i as [|i]; simpl.
      * rewrite Nat.add_0_r. reflexivity.
      * rewrite IH. change (S i <? S n) with (i <? n).
        destruct (i <? n); [|reflexivity].
        destruct (nth_error l i); simpl; [|reflexivity].
        do 2 f_equal. lia.
Qed.

Lemma nth_Series_div (x : list num) (s : num) (i : nat) :
  nth i (pandas.Series_div x s) 0 = nth i x 0 / s.
Proof.
  unfold pandas.Series_div.
  revert i. induction x as [|a x IH]; intros [|i]; simpl;
    try (unfold Qcdiv; ring); apply IH.
Qed.

(** The group of a region in the overlay is the list of the areas of its
    fragments. *)
Lemma get_group_area (overlay : list overlay_row) (region : string) :
  pandas.get_group String.eqb (overlay_region overlay) (overlay_area overlay) region
  = map (fun r => shapely.area (o_geometry r)) (fragments_of overlay region).
Proof. apply get_group_map. Qed.

(** Closed form of the Weight Builder: every fragment receives its area
    divided by the total area of the fragments of its region. *)
Lemma grid_cell_fraction_closed_form (overlay : list overlay_row) :
  grid_cell_fraction overlay
  = map (fun r => shapely.area (o_geometry r) / region_area overlay (o_name r)) overlay.
Proof.
  apply nth_error_ext. intros i.
  unfold grid_cell_fraction, pandas.transform.
  rewrite !nth_error_map, nth_error_enumerate.
  replace (length (overlay_area overlay)) with (length overlay)
    by (unfold overlay_area; rewrite length_map; reflexivity).
  replace (nth_error (overlay_region overlay) i)
    with (option_map o_name (nth_error overlay i))
    by (unfold overlay_region; rewrite nth_error_map; reflexivity).
  destruct (nth_error overlay i) as [row|] eqn:Hrow.
  - assert (Hi : (i < length overlay)%nat).
    { apply nth_error_Some. congruence. }
    apply Nat.ltb_lt in Hi. rewrite Hi. simpl. f_equal.
    rewrite nth_Series_div. unfold pandas.Series_sum.
    rewrite get_group_area. fold (region_area overlay (o_name row)).
    f_equal.
    rewrite <- get_group_area.
    apply nth_error_nth.
    apply get_group_rank.
    + apply String.eqb_refl.
    + unfold overlay_region. rewrite nth_error_map, Hrow. reflexivity.
    + unfold overlay_area. rewrite nth_error_map, Hrow. reflexivity.
  - simpl. destruct (i <? length overlay); reflexivity.
Qed.

Lemma sum_map_div {A : Type} (f : A -> num) (s : num) (l : list A) :
  sum (map (fun a => f a / s) l) = sum (map f l) / s.
Proof.
  unfold Qcdiv.
  rewrite (sum_map_ext_in _ (fun a => / s * f a)) by (intros; ring).
  rewrite sum_map_scal. ring.
Qed.

(** The weights of one region add up to the quotient of its area by
    itself. *)
Lemma fraction_sum_quotient (overlay : list overlay_row) (region : string) :
  fraction_sum overlay region
  = region_area overlay region / region_area overlay region.
Proof.
  unfold fraction_sum, pandas.group_sum, pandas.Series_sum.
  rewrite grid_cell_fraction_closed_form.
  unfold overlay_region. rewrite get_group_map.
  rewrite (sum_map_ext_in _
             (fun r => shapely.area (o_geometry r) / region_area overlay region)).
  - rewrite sum_map_div. reflexivity.
  - intros r Hr. apply filter_In in Hr. destruct Hr as [_ Hr].
    apply String.eqb_eq in Hr. rewrite Hr. reflexivity.
Qed.

Lemma area_nonneg (p : shapely.Polygon) : 0 <= shapely.area p.
Proof.
  unfold shapely.area, Qcdiv.
  rewrite <- (Qcmult_0_l (/ num_of_Z 2)).
  apply Qcmult_le_compat_r.
  - apply Qcabs_nonneg.
  - unfold Qcle. vm_compute. discriminate.
Qed.

Lemma sum_ge_member {A : Type} (f : A -> num) (l : list A) (a : A) :
  (forall b, In b l -> 0 <= f b) -> In a l -> f a <= sum (map f l).
Proof.
  induction l as [|b l IH]; intros H Hin; simpl; [contradiction|].
  rewrite sum_cons. destruct Hin as [->|Hin].
  - replace (f a) with (f a + 0) at 1 by ring.
    apply Qcplus_le_compat; [apply Qcle_refl|].
    apply sum_nonneg. intros c Hc. apply H. right. exact Hc.
  - replace (f a) with (0 + f a) by ring.
    apply Qcplus_le_compat.
    + apply H. left. reflexivity.
    + apply IH; [|exact Hin]. intros c Hc. apply H. right. exact Hc.
Qed.

Lemma Qcdiv_unit_interval (a s : num) :
  0 <= a -> a <= s -> 0 < s -> 0 <= a / s /\ a / s <= 1.
Proof.
  intros Ha Has Hs.
  assert (Hinv : 0 <= / s).
  { unfold Qcle, Qclt in *. simpl in *. rewrite Qred_correct.
    apply Qlt_le_weak, Qinv_lt_0_compat. exact Hs. }
  split.
  - unfold Qcdiv. rewrite <- (Qcmult_0_l (/ s)).
    apply Qcmult_le_compat_r; assumption.
  - unfold Qcdiv. rewrite <- (Qcmult_inv_r s).
    + apply Qcmult_le_compat_r; assumption.
    + intros E. rewrite E in Hs. exact (Qclt_not_le _ _ Hs (Qcle_refl _)).
Qed.

(* ================================================================== *)
(** * Weight Builder: the claims                                        *)
(* ================================================================== *)

(** C1.  For every overlay and every region that has at least one fragment
    and positive total fragment area, the Weight Builder gives each
    fragment of the region the weight area(fragment) / (sum of the areas of
    all fragments of the region), and the weights of the region add up to
    1 (exactly, hence within the relative tolerance 1e-6). *)
Theorem weight_builder_normalises (overlay : list overlay_row) (region : string) :
  In region (overlay_region overlay) ->
  0 < region_area overlay region ->
  (forall i row,
      nth_error overlay i = Some row -> o_name row = region ->
      nth_error (grid_cell_fraction overlay) i
      = Some (shapely.area (o_geometry row) / region_area overlay region))
  /\ fraction_sum overlay region = 1
  /\ Qcabs (fraction_sum overlay region - 1) <= tolerance * Qcabs 1.
Proof.
  intros _ Hpos.
  assert (Hne : region_area overlay region <> 0).
  { intros E. rewrite E in Hpos. exact (Qclt_not_le _ _ Hpos (Qcle_refl _)). }
  assert (Hsum : fraction_sum overlay region = 1).
  { rewrite fraction_sum_quotient. unfold Qcdiv. apply Qcmult_inv_r. exact Hne. }
  split; [|split].
  - intros i row Hrow Hname.
    rewrite grid_cell_fraction_closed_form, nth_error_map, Hrow. simpl.
    rewrite Hname. reflexivity.
  - exact Hsum.
  - rewrite Hsum. unfold Qcle. vm_compute. discriminate.
Qed.

(** C8.  Every weight the Weight Builder produces for a fragment of a region
    with positive total fragment area lies in the closed interval [0, 1].
    (Fragment areas are nonnegative by [area_nonneg].) *)
Theorem weights_in_unit_interval (overlay : list overlay_row) (i : nat) (row : overlay_row) :
  nth_error overlay i = Some row ->
  0 < region_area overlay (o_name row) ->
  exists w, nth_error (grid_cell_fraction overlay) i = Some w /\ 0 <= w /\ w <= 1.
Proof.
  intros Hrow Hpos.
  exists (shapely.area (o_geometry row) / region_area overlay (o_name row)).
  split.
  - rewrite grid_cell_fraction_closed_form, nth_error_map, Hrow. reflexivity.
  - apply Qcdiv_unit_interval.
    + apply area_nonneg.
    + unfold region_area.
      apply (sum_ge_member (fun r => shapely.area (o_geometry r))).
      * intros b _. apply area_nonneg.
      * apply filter_In. split.
        -- eapply nth_error_In. exact Hrow.
        -- apply String.eqb_refl.
    + exact Hpos.
Qed.

(* ================================================================== *)
(** * Grid Polygonizer: the claims                                      *)
(* ================================================================== *)

Lemma Qcabs_minus_two : Qcabs (- num_of_Z 2) = num_of_Z 2.
Proof. apply Qc_is_canon. reflexivity. Qed.

Lemma num_two_neq_0 : num_of_Z 2 <> 0.
Proof. intros E. apply (f_equal this) in E. vm_compute in E. discriminate. Qed.

Lemma area_cell_ring (x0 x1 y0 y1 : num) :
  shapely.area (shapely.mkPolygon (shapely.close_ring (cell_ring x0 x1 y0 y1)))
  = Qcabs (x1 - x0) * Qcabs (y1 - y0).
Proof.
  unfold shapely.area, shapely.close_ring, cell_ring. cbn [last shapely.exterior].
  destruct (shapely.point_eqb (x1, y0) (x0, y0)) eqn:E.
  - unfold shapely.point_eqb in E. cbn [fst snd] in E.
    apply andb_prop in E. destruct E as [E _]. apply num_eqb_true in E. subst x1.
    cbn [shapely.shoelace fst snd].
    replace (x0 * y1 - x0 * y0 + (x0 * y1 - x0 * y1 + (x0 * y0 - x0 * y1 + 0)))
      with 0 by ring.
    replace (x0 - x0) with 0 by ring.
    assert (Z0 : Qcabs 0 = 0) by (apply Qcabs_pos, Qcle_refl).
    rewrite Z0. unfold Qcdiv. ring.
  - cbn [app shapely.shoelace fst snd].
    replace (x0 * y1 - x0 * y0
             + (x0 * y1 - x1 * y1
                + (x1 * y0 - x1 * y1 + (x1 * y0 - x0 * y0 + 0))))
      with (- num_of_Z 2 * ((x1 - x0) * (y1 - y0))).
    + rewrite !Qcabs_Qcmult, Qcabs_minus_two.
      unfold Qcdiv. rewrite (Qcmult_comm (num_of_Z 2)), <- Qcmult_assoc.
      rewrite Qcmult_inv_r by exact num_two_neq_0. ring.
    + assert (T : num_of_Z 2 = 1 + 1) by (apply Qc_is_canon; reflexivity).
      rewrite T. ring.
Qed.

(** C9.  [bounds_to_poly] is total on pairs of two-element bounds: whatever
    the four numbers (monotonic or not, distinct or not), it returns the
    ring through (x0,y0), (x0,y1), (x1,y1), (x1,y0) in this order.  Nothing
    is validated: the area of the result is |x1 - x0| * |y1 - y0|, which is
    zero for degenerate bounds. *)
Theorem bounds_to_poly_total (x0 x1 y0 y1 : num) :
  exists p,
    bounds_to_poly [x0; x1] [y0; y1] = Ok p
    /\ shapely.exterior p = shapely.close_ring (cell_ring x0 x1 y0 y1)
    /\ firstn 4 (shapely.exterior p) = [ (x0, y0); (x0, y1); (x1, y1); (x1, y0) ]
    /\ shapely.area p = Qcabs (x1 - x0) * Qcabs (y1 - y0).
Proof.
  exists (shapely.mkPolygon (shapely.close_ring (cell_ring x0 x1 y0 y1))).
  split; [reflexivity|]. split; [reflexivity|]. split.
  - unfold shapely.close_ring, cell_ring. cbn [shapely.exterior last].
    destruct (shapely.point_eqb (x1, y0) (x0, y0)); reflexivity.
  - apply area_cell_ring.
Qed.

(** Degenerate bounds give a polygon of area zero, silently. *)
Lemma bounds_to_poly_degenerate (x y0 y1 : num) :
  exists p, bounds_to_poly [x; x] [y0; y1] = Ok p /\ shapely.area p = 0.
Proof.
  eexists. split; [reflexivity|].
  change (shapely.area (shapely.mkPolygon (shapely.close_ring (cell_ring x x y0 y1))) = 0).
  rewrite area_cell_ring.
  replace (x - x) with 0 by ring.
  assert (Z0 : Qcabs 0 = 0) by (apply Qcabs_pos, Qcle_refl).
  rewrite Z0. ring.
Qed.

(** C5, as the specification states it, fails: bounds that are not
    monotonic, bounds of arity three and degenerate bounds are all
    malformed, and [bounds_to_poly] returns a polygon for each of them. *)
Lemma malformed_bounds_accepted :
  (malformed_bounds [num_of_Z 1; num_of_Z 0] = true
   /\ is_Ok (bounds_to_poly [num_of_Z 1; num_of_Z 0] [num_of_Z 0; num_of_Z 1]) = true)
  /\ (malformed_bounds [num_of_Z 0; num_of_Z 1; num_of_Z 2] = true
      /\ is_Ok (bounds_to_poly [num_of_Z 0; num_of_Z 1; num_of_Z 2]
                               [num_of_Z 0; num_of_Z 1]) = true)
  /\ (malformed_bounds [num_of_Z 0; num_of_Z 0] = true
      /\ is_Ok (bounds_to_poly [num_of_Z 0; num_of_Z 0] [num_of_Z 0; num_of_Z 1]) = true)
  /\ ~ (forall xb yb : list num,
          malformed_bounds xb = true \/ malformed_bounds yb = true ->
          is_Ok (bounds_to_poly xb yb) = false).
Proof.
  repeat split; try reflexivity.
  intros H.
  specialize (H [num_of_Z 1; num_of_Z 0] [num_of_Z 0; num_of_Z 1]
                (or_introl eq_refl)).
  discriminate H.
Qed.

(** C5, amended.  The polygonizer validates nothing.  Given at least two
    bounds on each axis it returns the ring built from the bounds at
    positions 0 and 1 (monotonic or not, degenerate or not, further bounds
    ignored); given fewer than two bounds on an axis it stops with an
    index error. *)
Theorem bounds_to_poly_unvalidated (x_bounds y_bounds : list num) :
  bounds_to_poly x_bounds y_bounds
  = if (2 <=? length x_bounds) && (2 <=? length y_bounds)
    then Ok (shapely.mkPolygon
               (shapely.close_ring
                  (cell_ring (nth 0 x_bounds 0) (nth 1 x_bounds 0)
                             (nth 0 y_bounds 0) (nth 1 y_bounds 0))))
    else Raise IndexError.
Proof.
  destruct x_bounds as [|x0 [|x1 xs]]; destruct y_bounds as [|y0 [|y1 ys]];
    reflexivity.
Qed.

(* ================================================================== *)
(** * Regions without overlay fragments                                 *)
(* ================================================================== *)

Lemma insert_unique_In {A : Type} (cmp : A -> A -> comparison) (a x : A) (l : list A) :
  In a (insert_unique cmp x l) -> a = x \/ In a l.
Proof.
  induction l as [|h t IH]; simpl.
  - intros [<-|[]]. left. reflexivity.
  - destruct (cmp x h); simpl.
    + intros H. right. exact H.
    + intros [<-|H]; [left; reflexivity|right; exact H].
    + intros [<-|H].
      * right. left. reflexivity.
      * destruct (IH H) as [->|H']; [left; reflexivity|right; right; exact H'].
Qed.

Lemma sort_unique_In {A : Type} (cmp : A -> A -> comparison) (a : A) (l : list A) :
  In a (sort_unique cmp l) -> In a l.
Proof.
  induction l as [|x l IH]; simpl.
  - intros [].
  - intros H. apply insert_unique_In in H.
    destruct H as [->|H]; [left; reflexivity|right; apply IH; exact H].
Qed.

Lemma index_of_None {A : Type} (eqb : A -> A -> bool) (a : A) (l : list A) :
  (forall b, eqb a b = true -> a = b) ->
  ~ In a l -> index_of eqb a l = None.
Proof.
  intros Heq. induction l as [|h t IH]; simpl; intros Hn.
  - reflexivity.
  - destruct (eqb a h) eqn:E.
    + exfalso. apply Hn. left. symmetry. apply Heq. exact E.
    + rewrite IH; [reflexivity|]. intros H. apply Hn. right. exact H.
Qed.

Lemma index_of_name_None (region : string) (l : list string) :
  ~ In region l -> index_of String.eqb region l = None.
Proof.
  apply index_of_None. intros b E. apply String.eqb_eq. exact E.
Qed.

Section OverlayFacts.

Variable reproject : shapely.Polygon -> shapely.Polygon.
Variable intersects : shapely.Polygon -> shapely.Polygon -> bool.
Variable intersection : shapely.Polygon -> shapely.Polygon -> option shapely.Polygon.

(** Every row of the overlay comes from a region that meets some cell. *)
Lemma overlay_row_origin (grid : list grid_row) (regions : list region_row)
      (row : overlay_row) :
  In row (overlay_rows intersects intersection grid regions) ->
  exists c r, In c grid /\ In r regions
              /\ fragment intersects intersection (g_geometry c) (r_geometry r)
                 = Some (o_geometry row)
              /\ o_name row = r_name r.
Proof.
  unfold overlay_rows. intros H.
  apply in_flat_map in H. destruct H as (c & Hc & H).
  apply in_flat_map in H. destruct H as (r & Hr & H).
  destruct (fragment intersects intersection (g_geometry c) (r_geometry r)) as [g|] eqn:E.
  - destruct H as [<-|[]]. exists c, r. simpl. auto.
  - destruct H.
Qed.

(** A region that meets no cell leaves no trace in the overlay. *)
Lemma overlay_skip_region (grid : list grid_row) (rs1 rs2 : list region_row)
      (R : region_row) :
  (forall c, In c grid ->
     fragment intersects intersection (g_geometry c) (r_geometry R) = None) ->
  overlay_rows intersects intersection grid (rs1 ++ R :: rs2)
  = overlay_rows intersects intersection grid (rs1 ++ rs2).
Proof.
  unfold overlay_rows.
  induction grid as [|c grid IH]; intros H; simpl; [reflexivity|].
  rewrite IH by (intros c' Hc'; apply H; right; exact Hc').
  f_equal. rewrite !flat_map_app. simpl.
  rewrite (H c) by (left; reflexivity). reflexivity.
Qed.

Lemma grid_to_crs_In (grid : list grid_row) (c : grid_row) :
  In c (grid_to_crs reproject grid) ->
  exists c0, In c0 grid /\ g_geometry c = reproject (g_geometry c0).
Proof.
  unfold grid_to_crs. intros H. apply in_map_iff in H.
  destruct H as (c0 & <- & H0). exists c0. split; [exact H0|reflexivity].
Qed.

(** What a returned overlay is made of. *)
Lemma overlay_of_Ok (ds : Dataset) (regions : list region_row) (ov : list overlay_row) :
  overlay_of reproject intersects intersection ds regions = Ok ov ->
  exists grid,
    grid_df ds = Ok grid
    /\ any_pair intersects (grid_to_crs reproject grid)
                 (regions_to_crs reproject regions) = true
    /\ ov = overlay_rows intersects intersection (grid_to_crs reproject grid)
                         (regions_to_crs reproject regions).
Proof.
  unfold overlay_of, overlay.
  destruct (grid_df ds) as [grid|e]; cbn [bind]; [|discriminate].
  destruct (any_pair intersects (grid_to_crs reproject grid)
                     (regions_to_crs reproject regions)) eqn:P; [|discriminate].
  intros E. injection E as <-. exists grid. auto.
Qed.

(** The overlay fails in one way of its own: no pair of a cell and a
    region is returned by the spatial index. *)
Lemma overlay_of_no_pair (ds : Dataset) (regions : list region_row)
      (grid : list grid_row) :
  grid_df ds = Ok grid ->
  any_pair intersects (grid_to_crs reproject grid)
           (regions_to_crs reproject regions) = false ->
  overlay_of reproject intersects intersection ds regions = Raise ValueError.
Proof.
  intros Eg P. unfold overlay_of, overlay. rewrite Eg. cbn [bind]. rewrite P. reflexivity.
Qed.

Lemma any_pair_more (grid : list grid_row) (rs1 rs2 : list region_row) (R : region_row) :
  any_pair intersects grid (rs1 ++ rs2) = true ->
  any_pair intersects grid (rs1 ++ R :: rs2) = true.
Proof.
  unfold any_pair. rewrite !existsb_exists.
  intros (c & Hc & H). exists c. split; [exact Hc|].
  rewrite existsb_exists in *. destruct H as (r & Hr & H).
  exists r. split; [|exact H].
  apply in_app_or in Hr. apply in_or_app.
  destruct Hr as [Hr|Hr]; [left; exact Hr|right; right; exact Hr].
Qed.

Lemma overlay_rows_skip_region (ds : Dataset) (grid : list grid_row)
      (rs1 rs2 : list region_row) (R : region_row) :
  no_overlay_fragment reproject intersects intersection ds R ->
  grid_df ds = Ok grid ->
  overlay_rows intersects intersection (grid_to_crs reproject grid)
               (regions_to_crs reproject (rs1 ++ R :: rs2))
  = overlay_rows intersects intersection (grid_to_crs reproject grid)
                 (regions_to_crs reproject (rs1 ++ rs2)).
Proof.
  intros H E.
  unfold regions_to_crs. rewrite !map_app. cbn [map].
  apply overlay_skip_region.
  intros c Hc. apply grid_to_crs_In in Hc. destruct Hc as (c0 & Hc0 & ->).
  cbn [r_geometry]. apply (H grid c0 E Hc0).
Qed.

(** A region without fragments does not stop an overlay that returns
    without it, and does not change it. *)
Lemma overlay_of_skip_region (ds : Dataset) (rs1 rs2 : list region_row) (R : region_row)
      (ov : list overlay_row) :
  no_overlay_fragment reproject intersects intersection ds R ->
  overlay_of reproject intersects intersection ds (rs1 ++ rs2) = Ok ov ->
  overlay_of reproject intersects intersection ds (rs1 ++ R :: rs2) = Ok ov.
Proof.
  intros H E. apply overlay_of_Ok in E. destruct E as (grid & Eg & P & ->).
  unfold overlay_of, overlay. rewrite Eg. cbn [bind].
  unfold regions_to_crs in *. rewrite map_app in *. cbn [map].
  rewrite any_pair_more by exact P.
  f_equal.
  pose proof (overlay_rows_skip_region rs1 rs2 H Eg) as S.
  unfold regions_to_crs in S. rewrite !map_app in S. cbn [map] in S.
  rewrite ?map_app. exact S.
Qed.

(** The regions named in the overlay are regions of [regions_df]. *)
Lemma overlay_rows_names (grid : list grid_row) (regions : list region_row)
      (row : overlay_row) :
  In row (overlay_rows intersects intersection grid (regions_to_crs reproject regions)) ->
  In (o_name row) (map r_name regions).
Proof.
  intros Hrow. apply overlay_row_origin in Hrow.
  destruct Hrow as (c & r & _ & Hr & _ & ->).
  unfold regions_to_crs in Hr. apply in_map_iff in Hr.
  destruct Hr as (r0 & <- & Hr0). cbn [r_name].
  apply in_map. exact Hr0.
Qed.

Lemma overlay_of_names (ds : Dataset) (regions : list region_row)
      (ov : list overlay_row) (row : overlay_row) :
  overlay_of reproject intersects intersection ds regions = Ok ov ->
  In row ov -> In (o_name row) (map r_name regions).
Proof.
  intros E Hrow. apply overlay_of_Ok in E. destruct E as (grid & _ & _ & ->).
  eapply overlay_rows_names. exact Hrow.
Qed.

End OverlayFacts.

Lemma weight_entry_regions_In (ov : list overlay_row) (region : string) :
  In region (weight_entry_regions (df_weights ov)) ->
  exists row, In row ov /\ o_name row = region.
Proof.
  unfold weight_entry_regions, df_weights, multi_index.
  intros H. apply in_map_iff in H. destruct H as ([k w] & <- & H).
  apply in_combine_l in H. apply in_map_iff in H.
  destruct H as (row & <- & Hrow). exists row. split; [exact Hrow|reflexivity].
Qed.

Lemma unstack_names (df : list (index_key * num)) (w : xr.SparseDataArray)
      (region : string) :
  xr.unstack df = Ok w -> In region (xr.w_name w) ->
  In region (weight_entry_regions df).
Proof.
  unfold xr.unstack.
  destruct (xr.has_duplicates (map fst df)); [discriminate|].
  intros E. injection E as <-. cbn [xr.w_name].
  intros H. apply sort_unique_In in H.
  unfold weight_entry_regions. rewrite map_map in H. exact H.
Qed.

Lemma sel_weight_absent (w : xr.SparseDataArray) (vy vx : num) (region : string) :
  ~ In region (xr.w_name w) -> xr.sel_weight w vy vx region = Raise KeyError.
Proof.
  intros H. unfold xr.sel_weight.
  rewrite (index_of_name_None _ _ H).
  destruct (index_of num_eqb vy (xr.w_y w)), (index_of num_eqb vx (xr.w_x w));
    reflexivity.
Qed.

Lemma sel_region_absent (a : xr.RegionArray) (t : nat) (region : string) :
  ~ In region (xr.r_region a) -> xr.sel_region a t region = Raise KeyError.
Proof.
  intros H. unfold xr.sel_region.
  rewrite (index_of_name_None _ _ H). reflexivity.
Qed.

Lemma apply_ufunc_regions (f : sparse.COO -> np.ndarray -> result np.ndarray)
      (w : xr.SparseDataArray) (da : xr.DataArray) (out : xr.RegionArray) :
  xr.apply_ufunc f w da = Ok out -> xr.r_region out = xr.w_name w.
Proof.
  unfold xr.apply_ufunc.
  destruct (xr.reindex_like da (xr.w_y w) (xr.w_x w)); cbn [bind]; [|discriminate].
  destruct (xr.core_dims_in_one_chunk da); cbn [bind]; [|discriminate].
  destruct (f (xr.w_data w) a); cbn [bind]; [|discriminate].
  intros E. injection E as <-. reflexivity.
Qed.

Section ZeroOverlap.

Variable reproject : shapely.Polygon -> shapely.Polygon.
Variable intersects : shapely.Polygon -> shapely.Polygon -> bool.
Variable intersection : shapely.Polygon -> shapely.Polygon -> option shapely.Polygon.

(** C4, amended.  A region without Overlay Fragments, whose name no other
    region bears, raises no error on its account: whenever the weights or
    the regridded variable are returned without the region, they are
    returned, the same, with it.  Whenever the pipeline returns, no
    Weight Entry belongs to the region, and it labels no column of the
    Weight Matrix and no column of the regridded output, where selecting
    it is a key error.  The pipeline does raise an error, in the overlay,
    when no cell of the grid intersects any region at all. *)
Theorem zero_overlap_region_is_absent
        (ds : Dataset) (rs1 rs2 : list region_row) (R : region_row) :
  no_overlay_fragment reproject intersects intersection ds R ->
  ~ In (r_name R) (map r_name (rs1 ++ rs2)) ->
  (forall w,
     weights_sparse reproject intersects intersection ds (rs1 ++ rs2) = Ok w ->
     weights_sparse reproject intersects intersection ds (rs1 ++ R :: rs2) = Ok w)
  /\ (forall out,
        var_regridded reproject intersects intersection ds (rs1 ++ rs2) = Ok out ->
        var_regridded reproject intersects intersection ds (rs1 ++ R :: rs2) = Ok out)
  /\ (forall ov,
        overlay_of reproject intersects intersection ds (rs1 ++ R :: rs2) = Ok ov ->
        ~ In (r_name R) (weight_entry_regions (df_weights ov)))
  /\ (forall w,
        weights_sparse reproject intersects intersection ds (rs1 ++ R :: rs2) = Ok w ->
        ~ In (r_name R) (xr.w_name w)
        /\ forall vy vx, xr.sel_weight w vy vx (r_name R) = Raise KeyError)
  /\ (forall out,
        var_regridded reproject intersects intersection ds (rs1 ++ R :: rs2) = Ok out ->
        ~ In (r_name R) (xr.r_region out)
        /\ forall t, xr.sel_region out t (r_name R) = Raise KeyError)
  /\ (forall grid,
        grid_df ds = Ok grid ->
        any_pair intersects (grid_to_crs reproject grid)
                 (regions_to_crs reproject (rs1 ++ R :: rs2)) = false ->
        weights_sparse reproject intersects intersection ds (rs1 ++ R :: rs2)
        = Raise ValueError
        /\ var_regridded reproject intersects intersection ds (rs1 ++ R :: rs2)
           = Raise ValueError).
Proof.
  intros Hzero Hname.
  assert (Hw : forall w,
             weights_sparse reproject intersects intersection ds (rs1 ++ rs2) = Ok w ->
             weights_sparse reproject intersects intersection ds (rs1 ++ R :: rs2) = Ok w).
  { intros w. unfold weights_sparse.
    destruct (overlay_of reproject intersects intersection ds (rs1 ++ rs2))
      as [ov|e] eqn:Eov; cbn [bind]; [|discriminate].
    rewrite (overlay_of_skip_region rs1 rs2 Hzero Eov). cbn [bind]. auto. }
  assert (Hentries : forall ov,
             overlay_of reproject intersects intersection ds (rs1 ++ R :: rs2) = Ok ov ->
             ~ In (r_name R) (weight_entry_regions (df_weights ov))).
  { intros ov Eov Hin.
    apply overlay_of_Ok in Eov. destruct Eov as (grid & Eg & _ & ->).
    rewrite (overlay_rows_skip_region rs1 rs2 Hzero Eg) in Hin.
    apply weight_entry_regions_In in Hin. destruct Hin as (row & Hrow & Erow).
    apply Hname. rewrite <- Erow.
    eapply overlay_rows_names; eassumption. }
  assert (Hcol : forall w,
             weights_sparse reproject intersects intersection ds (rs1 ++ R :: rs2) = Ok w ->
             ~ In (r_name R) (xr.w_name w)).
  { intros w Ew Hin. unfold weights_sparse in Ew.
    destruct (overlay_of reproject intersects intersection ds (rs1 ++ R :: rs2))
      as [ov|e] eqn:Eov; cbn [bind] in Ew; [|discriminate].
    apply (Hentries ov eq_refl).
    eapply unstack_names; eassumption. }
  split; [exact Hw|]. split; [|split; [exact Hentries|split; [|split]]].
  - intros out. unfold var_regridded.
    destruct (weights_sparse reproject intersects intersection ds (rs1 ++ rs2))
      as [w|e] eqn:Ew; cbn [bind]; [|discriminate].
    rewrite (Hw w eq_refl). cbn [bind]. auto.
  - intros w Ew. split; [exact (Hcol w Ew)|].
    intros vy vx. apply sel_weight_absent. exact (Hcol w Ew).
  - intros out Eout. unfold var_regridded in Eout.
    destruct (weights_sparse reproject intersects intersection ds (rs1 ++ R :: rs2))
      as [w|e] eqn:Ew; cbn [bind] in Eout; [|discriminate].
    apply apply_ufunc_regions in Eout.
    assert (Hn : ~ In (r_name R) (xr.r_region out)).
    { rewrite Eout. exact (Hcol w eq_refl). }
    split; [exact Hn|]. intros t. apply sel_region_absent. exact Hn.
  - intros grid Eg P.
    unfold var_regridded, weights_sparse.
    rewrite (@overlay_of_no_pair reproject intersects intersection _ _ _ Eg P).
    split; reflexivity.
Qed.

End ZeroOverlap.

Lemma outside_region_no_overlay :
  no_overlay_fragment rectangles.reproject rectangles.intersects rectangles.intersection
                      (uniform_grid 2 3 (num_of_Z 10)) outside_region.
Proof.
  intros grid c E Hc. run_in E.
  simpl in Hc.
  repeat (destruct Hc as [<-|Hc]; [vm_compute; reflexivity|]).
  destruct Hc.
Qed.

(** C4, as the specification states it, fails.  On a 2 x 2 grid with one
    region inside and one region without any overlap, the pipeline returns;
    the Weight Matrix has shape (2, 2, 1): its only column is the one of
    the region inside, there is no column of zeros for the other region,
    and the regridded output has no value for it, so it is not 0. *)
Lemma zero_overlap_region_has_no_column :
  no_overlay_fragment rectangles.reproject rectangles.intersects rectangles.intersection
                      (uniform_grid 2 3 (num_of_Z 10)) outside_region
  /\ exists w out,
      rect_weights (uniform_grid 2 3 (num_of_Z 10)) inside_outside = Ok w
      /\ rect_regridded (uniform_grid 2 3 (num_of_Z 10)) inside_outside = Ok out
      /\ xr.w_name w = ["inside"%string]%list
      /\ sparse.shape (xr.w_data w) = [2; 2; 1]%nat
      /\ xr.r_region out = ["inside"%string]%list
      /\ np.shape (xr.r_values out) = [3; 1]%nat
      /\ xr.sel_weight w (half 1) (half 1) "outside" = Raise KeyError
      /\ xr.sel_region out 0 "outside" = Raise KeyError
      /\ xr.sel_region out 0 "outside" <> Ok 0.
Proof.
  split; [exact outside_region_no_overlay|].
  destruct (rect_weights (uniform_grid 2 3 (num_of_Z 10)) inside_outside)
    as [w|e] eqn:Ew; run_in Ew.
  destruct (rect_regridded (uniform_grid 2 3 (num_of_Z 10)) inside_outside)
    as [out|e] eqn:Eout; run_in Eout.
  eexists. eexists.
  split; [reflexivity|]. split; [reflexivity|].
  repeat split; try reflexivity.
  vm_compute. discriminate.
Qed.

(** Given alone, the region away from the grid stops the pipeline in the
    overlay: no cell intersects any region. *)
Example outside_region_alone_raises :
  rect_weights (uniform_grid 2 3 (num_of_Z 10)) [outside_region]%list = Raise ValueError
  /\ rect_regridded (uniform_grid 2 3 (num_of_Z 10)) [outside_region]%list
     = Raise ValueError.
Proof. split; vm_compute; reflexivity. Qed.

(** Given alone, a region that touches the grid along a side does not:
    the spatial index returns pairs, none of them has a fragment, and the
    pipeline returns weights and an output without any region. *)
Example touching_region_alone_returns :
  no_overlay_fragment rectangles.reproject rectangles.intersects rectangles.intersection
                      (uniform_grid 2 3 (num_of_Z 10)) touching_region
  /\ exists w out,
      rect_weights (uniform_grid 2 3 (num_of_Z 10)) [touching_region]%list = Ok w
      /\ rect_regridded (uniform_grid 2 3 (num_of_Z 10)) [touching_region]%list = Ok out
      /\ xr.w_name w = []%list
      /\ xr.r_region out = []%list.
Proof.
  split.
  - intros grid c E Hc. run_in E.
    simpl in Hc.
    repeat (destruct Hc as [<-|Hc]; [vm_compute; reflexivity|]).
    destruct Hc.
  - destruct (rect_weights (uniform_grid 2 3 (num_of_Z 10)) [touching_region]%list)
      as [w|e] eqn:Ew; run_in Ew.
    destruct (rect_regridded (uniform_grid 2 3 (num_of_Z 10)) [touching_region]%list)
      as [out|e] eqn:Eout; run_in Eout.
    eexists. eexists. repeat split; reflexivity.
Qed.

(* ================================================================== *)
(** * Regridding a constant field                                       *)
(* ================================================================== *)

Lemma flat_map_repeat {A : Type} (f : A -> list num) (v : num) (k : nat) (l : list A) :
  (forall a, In a l -> f a = repeat v k) ->
  flat_map f l = repeat v (length l * k).
Proof.
  induction l as [|a l IH]; intros H; simpl; [reflexivity|].
  rewrite (H a) by (left; reflexivity).
  rewrite IH by (intros b Hb; apply H; right; exact Hb).
  symmetry. apply repeat_app.
Qed.

Lemma map_repeat {A : Type} (f : A -> num) (v : num) (l : list A) :
  (forall a, In a l -> f a = v) -> map f l = repeat v (length l).
Proof.
  induction l as [|a l IH]; intros H; simpl; [reflexivity|].
  rewrite (H a) by (left; reflexivity).
  rewrite IH by (intros b Hb; apply H; right; exact Hb). reflexivity.
Qed.

Lemma nth_repeat_lt_num (v : num) (n p : nat) :
  (p < n)%nat -> nth p (repeat v n) 0 = v.
Proof. intros H. apply nth_repeat_lt. exact H. Qed.

Lemma num_eqb_refl (a : num) : num_eqb a a = true.
Proof.
  unfold num_eqb, Qc_eq_bool. destruct (Qc_eq_dec a a) as [_|N]; [reflexivity|].
  exfalso. apply N. reflexivity.
Qed.

Lemma index_of_In (a : num) (l : list num) :
  In a l -> exists i, index_of num_eqb a l = Some i /\ (i < length l)%nat.
Proof.
  induction l as [|h t IH]; simpl; [intros []|].
  intros H. destruct (num_eqb a h) eqn:E.
  - exists 0%nat. split; [reflexivity|lia].
  - destruct H as [->|H]; [rewrite num_eqb_refl in E; discriminate|].
    destruct (IH H) as (i & Ei & Hi). exists (S i). rewrite Ei.
    split; [reflexivity|lia].
Qed.

Lemma mapM_lookup_In (labels wanted : list num) :
  (forall a, In a wanted -> In a labels) ->
  exists idx, mapM (xr.lookup num_eqb labels) wanted = Ok idx
              /\ length idx = length wanted
              /\ Forall (fun i => (i < length labels)%nat) idx.
Proof.
  induction wanted as [|a wanted IH]; intros H; simpl.
  - exists []%list. repeat split. constructor.
  - destruct (index_of_In a labels (H a (or_introl eq_refl))) as (i & Ei & Hi).
    destruct IH as (idx & E & L & F).
    { intros b Hb. apply H. right. exact Hb. }
    exists (i :: idx)%list. unfold xr.lookup at 1. rewrite Ei. cbn [bind].
    rewrite E. cbn [bind]. split; [reflexivity|]. split; [simpl; lia|].
    constructor; assumption.
Qed.

Lemma index3_lt (T Y X t i j : nat) :
  (t < T)%nat -> (i < Y)%nat -> (j < X)%nat ->
  ((t * Y + i) * X + j < T * Y * X)%nat.
Proof.
  intros Ht Hi Hj.
  assert (H1 : (t * Y + i + 1 <= T * Y)%nat) by nia.
  assert (H2 : ((t * Y + i + 1) * X <= T * Y * X)%nat)
    by (apply Nat.mul_le_mono_r; exact H1).
  lia.
Qed.

(** Aligning a constant field on labels it has gives a constant field. *)
Lemma reindex_like_full (times : list nat) (ys xs ys' xs' : list num) (v : num)
      (chunks : option (list (list nat))) :
  (forall a, In a ys' -> In a ys) ->
  (forall a, In a xs' -> In a xs) ->
  xr.reindex_like
    {| xr.d_time := times; xr.d_y := ys; xr.d_x := xs;
       xr.d_values := np.full [length times; length ys; length xs] v;
       xr.d_chunks := chunks |}
    ys' xs'
  = Ok (np.full [length times; length ys'; length xs'] v).
Proof.
  intros Hy Hx. unfold xr.reindex_like.
  cbn [xr.d_time xr.d_y xr.d_x xr.d_values].
  destruct (mapM_lookup_In ys ys' Hy) as (iy & Ey & Ly & Fy).
  destruct (mapM_lookup_In xs xs' Hx) as (ix & Ex & Lx & Fx).
  rewrite Ey, Ex. cbn [bind]. unfold np.full. cbn [np.data]. do 2 f_equal.
  rewrite !prod_3.
  rewrite Forall_forall in Fy, Fx.
  rewrite (@flat_map_repeat _ _ v (length ys' * length xs')).
  - rewrite length_seq. f_equal. lia.
  - intros t Ht. apply in_seq in Ht.
    rewrite (@flat_map_repeat _ _ v (length xs')).
    + rewrite Ly. reflexivity.
    + intros i Hi. rewrite <- Lx. apply map_repeat.
      intros j Hj. apply nth_repeat_lt_num.
      apply index3_lt; [lia|apply Fy; exact Hi|apply Fx; exact Hj].
Qed.

(** A constant field regrids, for every region, to the constant times the
    sum of the weights of the region. *)
Lemma regrid_constant (weights : sparse.COO) (n r c w0 w1 m : nat) (v : num) :
  sparse.shape weights = [w0; w1; m] ->
  wf_COO weights ->
  (r * c = w0 * w1)%nat ->
  exists out,
    apply_weights_matmul_sparse weights (np.full [n; r; c] v) = Ok out
    /\ np.shape out = [n; m]
    /\ length (np.data out) = (n * m)%nat
    /\ forall t j, (t < n)%nat -> (j < m)%nat ->
         nth (t * m + j) (np.data out) 0 = v * column_sum weights j.
Proof.
  intros Hw Hwf Hk.
  assert (Hd : np.shape (np.full [n; r; c] v) = [n; r; c]) by reflexivity.
  assert (Wd : wf_ndarray (np.full [n; r; c] v)).
  { unfold wf_ndarray, np.full. cbn [np.data np.shape]. apply repeat_length. }
  destruct (apply_weights_run weights (np.full [n; r; c] v) Hd Hw Hk)
    as (out & Eo & So & Lo & Vo).
  exists out. split; [exact Eo|]. split; [exact So|]. split; [exact Lo|].
  intros t j Ht Hj. rewrite (Vo Wd Hwf t j Ht Hj).
  unfold column_sum. rewrite Hw, <- Hk, <- big_sum_scal.
  apply big_sum_ext. intros cell Hcell.
  unfold np.full. cbn [np.data]. rewrite nth_repeat_lt_num; [reflexivity|].
  rewrite prod_3. nia.
Qed.

(** When the weights of every region add up to one, a constant field
    regrids to the same constant. *)
Lemma regrid_constant_normalised (weights : sparse.COO) (n r c w0 w1 m : nat) (v : num) :
  sparse.shape weights = [w0; w1; m] ->
  wf_COO weights ->
  (r * c = w0 * w1)%nat ->
  (forall j, (j < m)%nat -> column_sum weights j = 1) ->
  apply_weights_matmul_sparse weights (np.full [n; r; c] v) = Ok (np.full [n; m] v).
Proof.
  intros Hw Hwf Hk Hcol.
  destruct (regrid_constant n r c v Hw Hwf Hk) as (out & Eo & So & Lo & Vo).
  rewrite Eo. f_equal.
  apply (@ndarray_ext out (np.full [n; m] v) n m); auto.
  - unfold np.full. cbn [np.data]. rewrite repeat_length, prod_2. reflexivity.
  - intros t j Ht Hj. rewrite (Vo t j Ht Hj), (Hcol j Hj).
    unfold np.full. cbn [np.data].
    rewrite nth_repeat_lt_num by (rewrite prod_2; nia). ring.
Qed.

(* ================================================================== *)
(** * Checks that compute                                               *)
(* ================================================================== *)

Lemma valid_indexb_true (idx shape : list nat) :
  valid_indexb idx shape = true -> valid_index idx shape.
Proof.
  unfold valid_indexb, valid_index.
  revert shape. induction idx as [|i idx IH]; intros [|d shape] H;
    simpl in H; try discriminate.
  - constructor.
  - apply andb_prop in H. destruct H as [Hl H].
    apply andb_prop in H. destruct H as [Hi H].
    constructor.
    + apply Nat.ltb_lt. exact Hi.
    + apply IH. rewrite Hl, H. reflexivity.
Qed.

Lemma wf_COOb_true (c : sparse.COO) : wf_COOb c = true -> wf_COO c.
Proof.
  unfold wf_COOb, wf_COO. intros H.
  rewrite forallb_forall in H. apply Forall_forall.
  intros e He. apply valid_indexb_true. apply H. exact He.
Qed.

Lemma inclb_true (l1 l2 : list num) :
  inclb l1 l2 = true -> forall a, In a l1 -> In a l2.
Proof.
  unfold inclb. intros H a Ha.
  rewrite forallb_forall in H. specialize (H a Ha).
  apply existsb_exists in H. destruct H as (b & Hb & E).
  apply num_eqb_true in E. subst b. exact Hb.
Qed.

Lemma is_Ok_num_true (r : result num) (q : num) : is_Ok_num r q = true -> r = Ok q.
Proof.
  destruct r as [a|e]; simpl; [|discriminate].
  intros H. apply num_eqb_true in H. subst a. reflexivity.
Qed.

Lemma getitem_repeat (v : num) (n p : nat) :
  (p < n)%nat -> getitem (repeat v n) p = Ok v.
Proof.
  intros H. unfold getitem.
  rewrite (nth_error_nth' (repeat v n) 0) by (rewrite repeat_length; exact H).
  rewrite nth_repeat_lt_num by exact H. reflexivity.
Qed.

(* ================================================================== *)
(** * The Weight Matrix: indices and column sums                        *)
(* ================================================================== *)

Section SortedLevels.

Variable A : Type.
Variable cmp : A -> A -> comparison.
Hypothesis cmp_Eq : forall a b, cmp a b = Eq -> a = b.

Lemma insert_unique_In_intro (a x : A) (l : list A) :
  a = x \/ In a l -> In a (insert_unique cmp x l).
Proof.
  induction l as [|h t IH]; simpl.
  - intros [->|[]]. left. reflexivity.
  - destruct (cmp x h) eqn:E; simpl.
    + intros [->|H]; [left; symmetry; apply cmp_Eq; exact E|exact H].
    + intros [->|H]; [left; reflexivity|right; exact H].
    + intros [->|[->|H]].
      * right. apply IH. left. reflexivity.
      * left. reflexivity.
      * right. apply IH. right. exact H.
Qed.

(** Every value of an index is one of its levels. *)
Lemma sort_unique_In_intro (a : A) (l : list A) :
  In a l -> In a (sort_unique cmp l).
Proof.
  induction l as [|x l IH]; simpl; [intros []|].
  intros [->|H]; apply insert_unique_In_intro.
  - left. reflexivity.
  - right. apply IH. exact H.
Qed.

End SortedLevels.

Section Codes.

Variable A : Type.
Variable eqb : A -> A -> bool.
Hypothesis eqb_refl : forall a, eqb a a = true.
Hypothesis eqb_true : forall a b, eqb a b = true -> a = b.

Lemma index_of_Some (a : A) (l : list A) (i : nat) :
  index_of eqb a l = Some i -> nth_error l i = Some a.
Proof.
  revert i. induction l as [|h t IH]; simpl; intros i; [discriminate|].
  destruct (eqb a h) eqn:E.
  - intros H. injection H as <-. apply eqb_true in E. subst h. reflexivity.
  - destruct (index_of eqb a t) as [k|]; simpl; [|discriminate].
    intros H. injection H as <-. simpl. apply IH. reflexivity.
Qed.

Lemma code_In (a : A) (levels : list A) :
  In a levels ->
  index_of eqb a levels = Some (xr.code eqb levels a)
  /\ (xr.code eqb levels a < length levels)%nat.
Proof.
  unfold xr.code. induction levels as [|h t IH]; simpl; [intros []|].
  intros H. destruct (eqb a h) eqn:E.
  - split; [reflexivity|lia].
  - destruct H as [->|H]; [rewrite eqb_refl in E; discriminate|].
    destruct (IH H) as [E1 L1].
    destruct (index_of eqb a t) as [k|]; [|discriminate].
    simpl in L1 |- *. split; [reflexivity|lia].
Qed.

Lemma code_lt (a : A) (levels : list A) :
  In a levels -> (xr.code eqb levels a < length levels)%nat.
Proof. intros H. apply (code_In a levels H). Qed.

(** A label has the code of another label exactly when it is that label. *)
Lemma code_is (a b : A) (levels : list A) (j : nat) :
  In a levels -> index_of eqb b levels = Some j ->
  (xr.code eqb levels a =? j) = eqb a b.
Proof.
  intros Ha Hb. destruct (code_In a levels Ha) as [Ea _].
  destruct (Nat.eqb_spec (xr.code eqb levels a) j) as [E|N].
  - rewrite E in Ea. apply index_of_Some in Ea, Hb.
    rewrite Ea in Hb. injection Hb as <-. symmetry. apply eqb_refl.
  - destruct (eqb a b) eqn:E; [|reflexivity].
    apply eqb_true in E. subst b. rewrite Ea in Hb. injection Hb as Hb.
    contradiction.
Qed.

End Codes.

Lemma Qccompare_Eq (a b : num) : Qccompare a b = Eq -> a = b.
Proof. apply Qceq_alt. Qed.

Lemma string_compare_Eq (a b : string) : String.compare a b = Eq -> a = b.
Proof. apply String.compare_eq_iff. Qed.

Lemma string_eqb_true (a b : string) : String.eqb a b = true -> a = b.
Proof. apply String.eqb_eq. Qed.

(** The unstacked weights are a well-formed array whose shape is given by
    the labels of its three dimensions. *)
Lemma unstack_wf (df : list (index_key * num)) (w : xr.SparseDataArray) :
  xr.unstack df = Ok w ->
  sparse.shape (xr.w_data w)
  = [length (xr.w_y w); length (xr.w_x w); length (xr.w_name w)]
  /\ wf_COO (xr.w_data w).
Proof.
  unfold xr.unstack.
  destruct (xr.has_duplicates (map fst df)); [discriminate|].
  intros E. injection E as <-. cbn [xr.w_data xr.w_y xr.w_x xr.w_name sparse.shape].
  split; [reflexivity|].
  unfold wf_COO. cbn [sparse.shape sparse.entries].
  apply Forall_map. apply Forall_forall. intros [[[vy vx] region] v] Hin.
  cbn [fst snd].
  assert (Hk : In (vy, vx, region) (map fst df)).
  { apply in_map_iff. exists (vy, vx, region, v). split; [reflexivity|exact Hin]. }
  repeat constructor.
  - apply code_lt; [apply num_eqb_refl|].
    apply sort_unique_In_intro; [apply Qccompare_Eq|].
    apply in_map_iff. exists (vy, vx, region). split; [reflexivity|exact Hk].
  - apply code_lt; [apply num_eqb_refl|].
    apply sort_unique_In_intro; [apply Qccompare_Eq|].
    apply in_map_iff. exists (vy, vx, region). split; [reflexivity|exact Hk].
  - apply code_lt; [apply String.eqb_refl|].
    apply sort_unique_In_intro; [apply string_compare_Eq|].
    apply in_map_iff. exists (vy, vx, region). split; [reflexivity|exact Hk].
Qed.

Lemma combine_map_l {A B C : Type} (h : A -> B) (l : list A) (l' : list C) :
  combine (map h l) l' = map (fun p => (h (fst p), snd p)) (combine l l').
Proof.
  revert l'. induction l as [|a l IH]; intros [|c l']; simpl; try reflexivity.
  rewrite IH. reflexivity.
Qed.

Lemma ravel_3 (a b c na nb nc : nat) :
  np.ravel_multi_index [a; b; c] [na; nb; nc] = ((a * nb + b) * nc + c)%nat.
Proof. simpl. lia. Qed.

Lemma index2_lt (Y X i j : nat) :
  (i < Y)%nat -> (j < X)%nat -> (i * X + j < Y * X)%nat.
Proof. intros Hi Hj. nia. Qed.

(** The column of a region in the Weight Matrix adds up to the sum of the
    weights of the fragments of the region. *)
Lemma column_sum_unstack (ov : list overlay_row) (w : xr.SparseDataArray)
      (region : string) (j : nat) :
  xr.unstack (df_weights ov) = Ok w ->
  index_of String.eqb region (xr.w_name w) = Some j ->
  column_sum (xr.w_data w) j = fraction_sum ov region.
Proof.
  intros Eu Hj.
  destruct (@unstack_wf _ _ Eu) as [Hs Hwf].
  assert (Hjm : (j < length (xr.w_name w))%nat).
  { apply (@index_of_Some _ _ string_eqb_true) in Hj.
    apply nth_error_Some. congruence. }
  unfold column_sum. rewrite Hs. unfold big_sum.
  rewrite (sum_map_ext_in _
             (fun cell => sum (map (fun e : list nat * num =>
                                      if np.ravel_multi_index (fst e)
                                           [length (xr.w_y w); length (xr.w_x w);
                                            length (xr.w_name w)]
                                         =? cell * length (xr.w_name w) + j
                                      then snd e else 0)
                                   (sparse.entries (xr.w_data w))))).
  2:{ intros cell _. rewrite at_flat_indicator, Hs. reflexivity. }
  rewrite <- (sum_map_swap
                (fun (e : list nat * num) cell =>
                   if np.ravel_multi_index (fst e)
                        [length (xr.w_y w); length (xr.w_x w); length (xr.w_name w)]
                      =? cell * length (xr.w_name w) + j
                   then snd e else 0)).
  (* each entry is met at one cell, when its region code is j *)
  rewrite (sum_map_ext_in _
             (fun e : list nat * num =>
                if nth 2 (fst e) 0%nat =? j then snd e else 0)).
  2:{ intros [idx v] Hin. cbn [fst snd].
      unfold wf_COO in Hwf. rewrite Forall_forall in Hwf.
      specialize (Hwf _ Hin). rewrite Hs in Hwf. cbn [fst] in Hwf.
      inversion Hwf as [|cy ny idx1 s1 Hcy H1]; subst.
      inversion H1 as [|cx nx idx2 s2 Hcx H2]; subst.
      inversion H2 as [|cn m idx3 s3 Hcn H3]; subst.
      inversion H3; subst. cbn [nth].
      rewrite (sum_map_ext_in _
                 (fun cell => if cell =? cy * length (xr.w_x w) + cx
                              then (if cn =? j then v else 0) else 0)).
      - apply (sum_seq_pick (fun _ => if cn =? j then v else 0)).
        apply index2_lt; assumption.
      - intros cell _. rewrite ravel_3.
        rewrite pair_index_eqb by assumption.
        rewrite (Nat.eqb_sym cell).
        destruct (cy * length (xr.w_x w) + cx =? cell), (cn =? j); reflexivity. }
  (* back to the rows of the overlay *)
  revert Eu Hj. unfold xr.unstack.
  destruct (xr.has_duplicates (map fst (df_weights ov))); [discriminate|].
  intros E. injection E as <-. cbn [xr.w_data xr.w_name sparse.entries].
  rewrite map_map. cbn [fst snd nth].
  unfold fraction_sum, pandas.group_sum, pandas.Series_sum, pandas.get_group.
  rewrite sum_filter_indicator.
  unfold df_weights, multi_index, overlay_region.
  rewrite !combine_map_l, !map_map. cbn [fst snd].
  intros Hj.
  apply sum_map_ext_in. intros [row f] Hin. cbn [fst snd].
  assert (Hrow : In (o_name row)
                    (sort_unique String.compare
                       (map (fun x : overlay_row * num => o_name (fst x))
                            (combine ov (grid_cell_fraction ov))))).
  { apply sort_unique_In_intro; [apply string_compare_Eq|].
    apply in_map_iff. exists (row, f). split; [reflexivity|exact Hin]. }
  cbn [nth].
  rewrite (@code_is _ _ String.eqb_refl string_eqb_true _ _ _ _ Hrow Hj).
  reflexivity.
Qed.

(** The invariant of the Weight Matrix: the column of every region on its
    axis whose fragments have positive total area adds up to one. *)
Lemma weight_matrix_columns_normalised (ov : list overlay_row)
      (w : xr.SparseDataArray) (region : string) (j : nat) :
  xr.unstack (df_weights ov) = Ok w ->
  index_of String.eqb region (xr.w_name w) = Some j ->
  0 < region_area ov region ->
  column_sum (xr.w_data w) j = 1.
Proof.
  intros Eu Hj Hpos.
  rewrite (@column_sum_unstack _ _ _ _ Eu Hj), fraction_sum_quotient.
  unfold Qcdiv. apply Qcmult_inv_r.
  intros E. rewrite E in Hpos. exact (Qclt_not_le _ _ Hpos (Qcle_refl _)).
Qed.

(* ================================================================== *)
(** * The pipeline on a constant field                                  *)
(* ================================================================== *)

Lemma mapM_In {A B : Type} (f : A -> result B) (l : list A) (bs : list B) :
  mapM f l = Ok bs -> forall b, In b bs -> exists a, In a l /\ f a = Ok b.
Proof.
  revert bs. induction l as [|a l IH]; simpl; intros bs E b Hb.
  - injection E as <-. destruct Hb.
  - destruct (f a) as [b0|e] eqn:Ea; cbn [bind] in E; [|discriminate].
    destruct (mapM f l) as [bs0|e] eqn:El; cbn [bind] in E; [|discriminate].
    injection E as <-. destruct Hb as [<-|Hb].
    + exists a. split; [left; reflexivity|exact Ea].
    + destruct (IH bs0 eq_refl b Hb) as (a' & Ha' & Ea').
      exists a'. split; [right; exact Ha'|exact Ea'].
Qed.

(** The centre of every grid cell carries labels of the dataset. *)
Lemma grid_df_labels (ds : Dataset) (grid : list grid_row) (c : grid_row) :
  grid_df ds = Ok grid -> In c grid ->
  In (g_y c) (ds_y ds) /\ In (g_x c) (ds_x ds).
Proof.
  unfold grid_df. intros E Hc.
  destruct (mapM _ (combine (ds_y ds) (ds_y_bounds ds))) as [rows|e] eqn:Er;
    cbn [bind] in E; [|discriminate].
  injection E as <-. apply in_concat in Hc. destruct Hc as (row & Hrow & Hc).
  destruct (@mapM_In _ _ _ _ _ Er row Hrow) as ([vy yb] & Hy & Ey). cbn [fst snd] in Ey.
  destruct (@mapM_In _ _ _ _ _ Ey c Hc) as ([vx xb] & Hx & Ex). cbn [fst snd] in Ex.
  destruct (bounds_to_poly xb yb) as [p|e]; cbn [bind] in Ex; [|discriminate].
  injection Ex as <-. cbn [g_y g_x].
  split; [exact (in_combine_l _ _ _ _ Hy)|exact (in_combine_l _ _ _ _ Hx)].
Qed.

Section ConstantField.

Variable reproject : shapely.Polygon -> shapely.Polygon.
Variable intersects : shapely.Polygon -> shapely.Polygon -> bool.
Variable intersection : shapely.Polygon -> shapely.Polygon -> option shapely.Polygon.

(** The overlay only returns fragments of positive area. *)
Hypothesis fragments_positive :
  forall a b g, intersection a b = Some g -> 0 < shapely.area g.

Lemma overlay_of_rows (ds : Dataset) (regions : list region_row)
      (ov : list overlay_row) (row : overlay_row) :
  overlay_of reproject intersects intersection ds regions = Ok ov -> In row ov ->
  In (o_y row) (ds_y ds) /\ In (o_x row) (ds_x ds)
  /\ 0 < shapely.area (o_geometry row).
Proof.
  intros E Hrow. apply overlay_of_Ok in E. destruct E as (grid & Eg & _ & ->).
  unfold overlay_rows in Hrow.
  apply in_flat_map in Hrow. destruct Hrow as (c & Hc & Hrow).
  apply in_flat_map in Hrow. destruct Hrow as (r & Hr & Hrow).
  destruct (fragment intersects intersection (g_geometry c) (r_geometry r))
    as [g|] eqn:Ei; [|destruct Hrow].
  destruct Hrow as [<-|[]]. cbn [o_y o_x o_geometry].
  unfold grid_to_crs in Hc. apply in_map_iff in Hc.
  destruct Hc as (c0 & <- & Hc0). cbn [g_y g_x].
  destruct (@grid_df_labels _ _ _ Eg Hc0) as [Hy Hx].
  split; [exact Hy|]. split; [exact Hx|].
  unfold fragment in Ei.
  destruct (intersects (g_geometry (mk_grid_row (reproject (g_geometry c0)) (g_y c0) (g_x c0)))
                       (r_geometry r)); [|discriminate].
  eapply fragments_positive; exact Ei.
Qed.

Lemma region_area_pos (ov : list overlay_row) (row : overlay_row) :
  (forall r, In r ov -> 0 < shapely.area (o_geometry r)) ->
  In row ov -> 0 < region_area ov (o_name row).
Proof.
  intros Hpos Hrow.
  apply Qclt_le_trans with (shapely.area (o_geometry row)).
  - apply Hpos. exact Hrow.
  - unfold region_area.
    apply (sum_ge_member (fun r => shapely.area (o_geometry r))).
    + intros b _. apply area_nonneg.
    + apply filter_In. split; [exact Hrow|apply String.eqb_refl].
Qed.

(** The labels of the weights are labels of rows of the overlay. *)
Lemma unstack_labels (ov : list overlay_row) (w : xr.SparseDataArray) :
  xr.unstack (df_weights ov) = Ok w ->
  (forall a, In a (xr.w_y w) -> exists row, In row ov /\ o_y row = a)
  /\ (forall a, In a (xr.w_x w) -> exists row, In row ov /\ o_x row = a)
  /\ (forall a, In a (xr.w_name w) -> exists row, In row ov /\ o_name row = a).
Proof.
  unfold xr.unstack.
  destruct (xr.has_duplicates (map fst (df_weights ov))); [discriminate|].
  intros E. injection E as <-. cbn [xr.w_y xr.w_x xr.w_name].
  assert (K : forall k, In k (map fst (df_weights ov)) ->
                exists row, In row ov /\ (o_y row, o_x row, o_name row) = k).
  { intros k Hk. apply in_map_iff in Hk. destruct Hk as ([k' v] & <- & Hk).
    unfold df_weights, multi_index in Hk. apply in_combine_l in Hk.
    apply in_map_iff in Hk. destruct Hk as (row & <- & Hrow).
    exists row. split; [exact Hrow|reflexivity]. }
  repeat split; intros a Ha; apply sort_unique_In in Ha;
    apply in_map_iff in Ha; destruct Ha as (k & <- & Hk);
    destruct (K k Hk) as (row & Hrow & <-); exists row;
    (split; [exact Hrow|reflexivity]).
Qed.

(** Once the weights exist, regridding a constant field whose rows and
    columns lie in one chunk cannot fail, and every region on the axis of
    the result receives the constant at every time step: the regridding
    is an area-weighted mean. *)
Lemma pipeline_preserves_constants
        (ds : Dataset) (regions : list region_row) (v : num)
        (w : xr.SparseDataArray) :
  ds_var ds = np.full [length (ds_time ds); length (ds_y ds); length (ds_x ds)] v ->
  xr.core_dims_in_one_chunk (ds_getitem ds) = true ->
  weights_sparse reproject intersects intersection ds regions = Ok w ->
  exists out,
    var_regridded reproject intersects intersection ds regions = Ok out
    /\ xr.r_time out = ds_time ds
    /\ xr.r_region out = xr.w_name w
    /\ np.shape (xr.r_values out) = [length (ds_time ds); length (xr.w_name w)]
    /\ forall t region,
         (t < length (ds_time ds))%nat -> In region (xr.r_region out) ->
         xr.sel_region out t region = Ok v.
Proof.
  intros Hvar Hchunk Ew.
  unfold var_regridded. rewrite Ew. cbn [bind].
  unfold weights_sparse in Ew.
  destruct (overlay_of reproject intersects intersection ds regions) as [ov|e] eqn:Eov;
    cbn [bind] in Ew; [|discriminate].
  destruct (@unstack_labels _ _ Ew) as (Ly & Lx & Ln).
  destruct (@unstack_wf _ _ Ew) as [Hs Hwf].
  assert (Hrows : forall r, In r ov -> 0 < shapely.area (o_geometry r)).
  { intros r Hr. eapply overlay_of_rows; eassumption. }
  unfold xr.apply_ufunc. rewrite Hchunk.
  unfold ds_getitem. cbn [xr.d_time]. rewrite Hvar.
  rewrite reindex_like_full.
  2:{ intros a Ha. destruct (Ly a Ha) as (row & Hrow & <-).
      eapply overlay_of_rows; eassumption. }
  2:{ intros a Ha. destruct (Lx a Ha) as (row & Hrow & <-).
      eapply overlay_of_rows; eassumption. }
  cbn [bind].
  destruct (@regrid_constant (xr.w_data w) (length (ds_time ds))
              (length (xr.w_y w)) (length (xr.w_x w))
              (length (xr.w_y w)) (length (xr.w_x w)) (length (xr.w_name w))
              v Hs Hwf eq_refl) as (o & Eo & So & Lo & Vo).
  rewrite Eo. cbn [bind].
  eexists. split; [reflexivity|].
  cbn [xr.r_time xr.r_region xr.r_values].
  split; [reflexivity|]. split; [reflexivity|]. split; [exact So|].
  intros t region Ht Hin. unfold xr.sel_region. cbn [xr.r_region xr.r_values].
  destruct (index_of String.eqb region (xr.w_name w)) as [j|] eqn:Ej.
  - assert (Hj : (j < length (xr.w_name w))%nat).
    { apply (@index_of_Some _ _ string_eqb_true) in Ej.
      apply nth_error_Some. congruence. }
    unfold getitem.
    rewrite (nth_error_nth' (np.data o) 0) by (rewrite Lo; nia).
    rewrite (Vo t j Ht Hj).
    destruct (Ln region Hin) as (row & Hrow & Erow).
    rewrite (@weight_matrix_columns_normalised ov w region j Ew Ej).
    + f_equal. ring.
    + rewrite <- Erow. apply region_area_pos; assumption.
  - exfalso.
    destruct (@code_In _ String.eqb String.eqb_refl region (xr.w_name w) Hin)
      as [E _].
    congruence.
Qed.

End ConstantField.

Lemma Qcltb_true (a b : num) : Qcltb a b = true -> a < b.
Proof.
  unfold Qcltb. intros H. apply Qclt_alt.
  destruct (a ?= b); [discriminate|reflexivity|discriminate].
Qed.

Lemma Qcabs_pos_diff (a b : num) : a < b -> 0 < Qcabs (b - a).
Proof.
  intros H.
  assert (Hp : 0 < b - a).
  { unfold Qcminus. apply Qclt_minus_iff in H. exact H. }
  rewrite Qcabs_pos by (apply Qclt_le_weak; exact Hp). exact Hp.
Qed.

(** The rectangle engine only returns fragments of positive area. *)
Lemma rectangles_fragments_positive (a b g : shapely.Polygon) :
  rectangles.intersection a b = Some g -> 0 < shapely.area g.
Proof.
  unfold rectangles.intersection.
  destruct (rectangles.bounds a) as [[[[ax0 ay0] ax1] ay1]|]; [|discriminate].
  destruct (rectangles.bounds b) as [[[[bx0 by0] bx1] by1]|]; [|discriminate].
  destruct (Qcltb (Qcmax ax0 bx0) (Qcmin ax1 bx1)) eqn:Ex; [|discriminate].
  destruct (Qcltb (Qcmax ay0 by0) (Qcmin ay1 by1)) eqn:Ey; [|discriminate].
  cbn [andb].
  change (bounds_to_poly [Qcmax ax0 bx0; Qcmin ax1 bx1] [Qcmax ay0 by0; Qcmin ay1 by1])
    with (Ok (shapely.mkPolygon
                (shapely.close_ring
                   (cell_ring (Qcmax ax0 bx0) (Qcmin ax1 bx1)
                              (Qcmax ay0 by0) (Qcmin ay1 by1))))).
  intros E. injection E as <-.
  change (0 < shapely.area
                (shapely.mkPolygon
                   (shapely.close_ring
                      (cell_ring (Qcmax ax0 bx0) (Qcmin ax1 bx1)
                                 (Qcmax ay0 by0) (Qcmin ay1 by1))))).
  rewrite area_cell_ring.
  apply Qcltb_true in Ex, Ey.
  replace 0 with (0 * Qcabs (Qcmin ay1 by1 - Qcmax ay0 by0)) by ring.
  apply Qcmult_lt_compat_r; apply Qcabs_pos_diff; assumption.
Qed.

(** With the rectangle engine, on every uniform grid and for every list of
    regions: once the weights exist, a constant field regrids to the same
    constant for every region of the result at every time step. *)
Lemma rect_pipeline_preserves_constants
      (n T : nat) (v : num) (regions : list region_row) (w : xr.SparseDataArray) :
  rect_weights (uniform_grid n T v) regions = Ok w ->
  exists out,
    rect_regridded (uniform_grid n T v) regions = Ok out
    /\ xr.r_region out = xr.w_name w
    /\ forall t region,
         (t < T)%nat -> In region (xr.r_region out) ->
         xr.sel_region out t region = Ok v.
Proof.
  intros Ew.
  assert (Hvar : ds_var (uniform_grid n T v)
                 = np.full [length (ds_time (uniform_grid n T v));
                            length (ds_y (uniform_grid n T v));
                            length (ds_x (uniform_grid n T v))] v).
  { unfold uniform_grid, unit_centres. cbn [ds_var ds_time ds_y ds_x].
    rewrite length_map, !length_seq. reflexivity. }
  destruct (@pipeline_preserves_constants
              rectangles.reproject rectangles.intersects rectangles.intersection
              rectangles_fragments_positive
              (uniform_grid n T v) regions v w Hvar eq_refl Ew)
    as (out & Eo & _ & Er & _ & Hv).
  exists out. split; [exact Eo|]. split; [exact Er|].
  intros t region Ht Hin. apply Hv; [|exact Hin].
  unfold uniform_grid. cbn [ds_time]. rewrite length_seq. exact Ht.
Qed.

(* ================================================================== *)
(** * End-to-end scenario: two halves of a 4 x 4 grid                   *)
(* ================================================================== *)

(** The weights only depend on the grid of the dataset. *)
Lemma rect_weights_uniform_grid (n T : nat) (v : num) (regions : list region_row) :
  rect_weights (uniform_grid n T v) regions = rect_weights (uniform_grid n 0 0) regions.
Proof. reflexivity. Qed.

(** The regridding of a constant field on a uniform grid, once the weights
    are known. *)
Lemma rect_regridded_uniform_grid (n T : nat) (v : num) (regions : list region_row)
      (w : xr.SparseDataArray) (m : nat) :
  rect_weights (uniform_grid n 0 0) regions = Ok w ->
  inclb (xr.w_y w) (unit_centres n) = true ->
  inclb (xr.w_x w) (unit_centres n) = true ->
  sparse.shape (xr.w_data w) = [length (xr.w_y w); length (xr.w_x w); m] ->
  wf_COOb (xr.w_data w) = true ->
  (forall j, (j < m)%nat -> column_sum (xr.w_data w) j = 1) ->
  rect_regridded (uniform_grid n T v) regions
  = Ok {| xr.r_time := seq 0 T; xr.r_region := xr.w_name w;
          xr.r_values := np.full [T; m] v |}.
Proof.
  intros Ew Hy Hx Hs Hwf Hcol.
  unfold rect_regridded, var_regridded.
  change (weights_sparse rectangles.reproject rectangles.intersects rectangles.intersection
            (uniform_grid n T v) regions)
    with (rect_weights (uniform_grid n T v) regions).
  rewrite rect_weights_uniform_grid, Ew. cbn [bind].
  unfold xr.apply_ufunc, xr.core_dims_in_one_chunk, ds_getitem, uniform_grid.
  cbn [ds_time ds_y ds_x ds_var ds_chunks xr.d_time xr.d_chunks].
  replace (np.full [T; n; n] v)
    with (np.full [length (seq 0 T); length (unit_centres n); length (unit_centres n)] v).
  2:{ unfold unit_centres. rewrite length_map, !length_seq. reflexivity. }
  rewrite reindex_like_full by (apply inclb_true; assumption).
  cbn [bind]. rewrite length_seq.
  erewrite regrid_constant_normalised;
    [reflexivity|exact Hs|apply wf_COOb_true; exact Hwf|reflexivity|exact Hcol].
Qed.

(** C7.  A 4 x 4 grid of unit cells over [0,4] x [0,4], covered by the
    regions "left" ([0,2] x [0,4]) and "right" ([2,4] x [0,4]), and a
    variable equal to 10 at every cell of every one of [T] time steps.
    The pipeline yields weights in which each of the eight cells of the
    left half (x = 0.5 or 1.5) has weight 1/8 for "left" and 0 for "right";
    the weights of each region add up to 1; and the regridded variable is
    10 for both regions at every time step. *)
Theorem two_halves_scenario (T : nat) :
  exists w out,
    rect_weights (uniform_grid 4 T (num_of_Z 10)) two_halves = Ok w
    /\ xr.w_name w = ["left"%string; "right"%string]
    /\ sparse.shape (xr.w_data w) = [4; 4; 2]%nat
    /\ (forall vy vx,
          In vy (unit_centres 4) -> In vx [half 1; half 3] ->
          xr.sel_weight w vy vx "left" = Ok (num_of_Z 1 / num_of_Z 8)
          /\ xr.sel_weight w vy vx "right" = Ok 0)
    /\ column_sum (xr.w_data w) 0 = 1
    /\ column_sum (xr.w_data w) 1 = 1
    /\ rect_regridded (uniform_grid 4 T (num_of_Z 10)) two_halves = Ok out
    /\ xr.r_time out = seq 0 T
    /\ xr.r_region out = ["left"%string; "right"%string]
    /\ xr.r_values out = np.full [T; 2%nat] (num_of_Z 10)
    /\ forall t, (t < T)%nat ->
         xr.sel_region out t "left" = Ok (num_of_Z 10)
         /\ xr.sel_region out t "right" = Ok (num_of_Z 10).
Proof.
  destruct (rect_weights (uniform_grid 4 0 0) two_halves) as [w|e] eqn:Ew.
  2:{ vm_compute in Ew. discriminate Ew. }
  assert (Ew' := Ew). vm_compute in Ew'. injection Ew' as Ew'.
  assert (C0 : column_sum (xr.w_data w) 0 = 1).
  { subst w. apply Qc_is_canon. vm_compute. reflexivity. }
  assert (C1 : column_sum (xr.w_data w) 1 = 1).
  { subst w. apply Qc_is_canon. vm_compute. reflexivity. }
  assert (Hsel : forallb
                   (fun vy =>
                      forallb
                        (fun vx =>
                           is_Ok_num (xr.sel_weight w vy vx "left")
                                     (num_of_Z 1 / num_of_Z 8)
                           && is_Ok_num (xr.sel_weight w vy vx "right") 0)
                        [half 1; half 3])
                   (unit_centres 4) = true).
  { subst w. vm_compute. reflexivity. }
  assert (Hout : rect_regridded (uniform_grid 4 T (num_of_Z 10)) two_halves
                 = Ok {| xr.r_time := seq 0 T; xr.r_region := xr.w_name w;
                         xr.r_values := np.full [T; 2%nat] (num_of_Z 10) |}).
  { apply rect_regridded_uniform_grid.
    - exact Ew.
    - subst w. vm_compute. reflexivity.
    - subst w. vm_compute. reflexivity.
    - subst w. vm_compute. reflexivity.
    - subst w. vm_compute. reflexivity.
    - intros j Hj. destruct j as [|[|j]]; [exact C0|exact C1|lia]. }
  assert (Hn : xr.w_name w = ["left"%string; "right"%string]).
  { subst w. reflexivity. }
  assert (Hs : sparse.shape (xr.w_data w) = [4; 4; 2]%nat).
  { subst w. reflexivity. }
  clear Ew'.
  exists w.
  exists {| xr.r_time := seq 0 T; xr.r_region := xr.w_name w;
            xr.r_values := np.full [T; 2%nat] (num_of_Z 10) |}.
  split; [rewrite rect_weights_uniform_grid; exact Ew|].
  split; [exact Hn|]. split; [exact Hs|]. split.
  { intros vy vx Hy Hx.
    rewrite forallb_forall in Hsel. specialize (Hsel vy Hy).
    rewrite forallb_forall in Hsel. specialize (Hsel vx Hx).
    apply andb_prop in Hsel. destruct Hsel as [Hl Hr].
    split; apply is_Ok_num_true; assumption. }
  split; [exact C0|]. split; [exact C1|].
  split; [exact Hout|].
  cbn [xr.r_time xr.r_region xr.r_values].
  split; [reflexivity|]. split; [exact Hn|]. split; [reflexivity|].
  intros t Ht. unfold xr.sel_region. cbn [xr.r_region xr.r_values].
  rewrite Hn. unfold np.full. cbn [np.data].
  rewrite prod_2.
  split.
  - change (index_of String.eqb "left"%string ["left"%string; "right"%string]) with (Some 0%nat).
    apply getitem_repeat. simpl. lia.
  - change (index_of String.eqb "right"%string ["left"%string; "right"%string]) with (Some 1%nat).
    apply getitem_repeat. simpl. lia.
Qed.

(* ================================================================== *)
(** * The statements at concrete inputs                                 *)
(* ================================================================== *)

(** The Weight Builder on [sample_overlay]: weights 1/4, 3/4 and 1. *)
Example grid_cell_fraction_sample :
  map this (grid_cell_fraction sample_overlay) = [(1 # 4)%Q; (3 # 4)%Q; 1%Q]%list.
Proof. vm_compute. reflexivity. Qed.

(** The Regridder on [sample_data]: per time step, the mean of the first
    two cells and the mean, weighted 1/4 and 3/4, of the last two. *)
Example apply_weights_sample :
  match apply_weights_matmul_sparse sample_weights sample_data with
  | Ok out => Some (np.shape out, map this (np.data out))
  | Raise _ => None
  end
  = Some ([2; 2]%nat, [(3 # 2)%Q; (15 # 4)%Q; (11 # 2)%Q; (31 # 4)%Q]%list).
Proof. vm_compute. reflexivity. Qed.

(** A weights array over a 3 x 1 grid cannot regrid data on a 2 x 2 grid. *)
Example apply_weights_mismatch :
  apply_weights_matmul_sparse
    {| sparse.shape := [3; 1; 2]%nat; sparse.entries := []%list |} sample_data
  = Raise AssertionError.
Proof. reflexivity. Qed.

Lemma weight_builder_normalises_witness :
  In "a"%string (overlay_region sample_overlay)
  /\ 0 < region_area sample_overlay "a"
  /\ (forall i row,
         nth_error sample_overlay i = Some row -> o_name row = "a"%string ->
         nth_error (grid_cell_fraction sample_overlay) i
         = Some (shapely.area (o_geometry row) / region_area sample_overlay "a"))
  /\ fraction_sum sample_overlay "a" = 1
  /\ Qcabs (fraction_sum sample_overlay "a" - 1) <= tolerance * Qcabs 1.
Proof.
  assert (H1 : In "a"%string (overlay_region sample_overlay))
    by (simpl; left; reflexivity).
  assert (H2 : 0 < region_area sample_overlay "a") by (vm_compute; reflexivity).
  split; [exact H1|]. split; [exact H2|].
  exact (weight_builder_normalises sample_overlay "a" H1 H2).
Defined.

Lemma weights_in_unit_interval_witness :
  nth_error sample_overlay 1 = Some sample_row_a2
  /\ 0 < region_area sample_overlay (o_name sample_row_a2)
  /\ exists w, nth_error (grid_cell_fraction sample_overlay) 1 = Some w
               /\ 0 <= w /\ w <= 1.
Proof.
  assert (H2 : 0 < region_area sample_overlay (o_name sample_row_a2))
    by (vm_compute; reflexivity).
  split; [reflexivity|]. split; [exact H2|].
  exact (@weights_in_unit_interval sample_overlay 1 sample_row_a2 eq_refl H2).
Defined.

Lemma regridder_is_weighted_sum_witness :
  np.shape sample_data = [2; 2; 2]%nat
  /\ sparse.shape sample_weights = [2; 2; 2]%nat
  /\ wf_ndarray sample_data /\ wf_COO sample_weights
  /\ (2 * 2 = 2 * 2)%nat
  /\ exists out,
      apply_weights_matmul_sparse sample_weights sample_data = Ok out
      /\ np.shape out = [2; 2]%nat
      /\ forall t j, (t < 2)%nat -> (j < 2)%nat ->
           np_item out [t; j] = regrid_spec sample_weights sample_data t j.
Proof.
  assert (W : wf_COO sample_weights) by (apply wf_COOb_true; reflexivity).
  split; [reflexivity|]. split; [reflexivity|]. split; [reflexivity|].
  split; [exact W|]. split; [reflexivity|].
  exact (@regridder_is_weighted_sum sample_weights sample_data 2 2 2 2 2 2
           eq_refl eq_refl eq_refl W eq_refl).
Defined.

Lemma regridder_shape_contract_witness :
  np.shape sample_data = [2; 2; 2]%nat
  /\ sparse.shape sample_weights = [2; 2; 2]%nat
  /\ (2 * 2 = 2 * 2)%nat
  /\ exists out, apply_weights_matmul_sparse sample_weights sample_data = Ok out
                 /\ np.shape out = [2; 2]%nat.
Proof.
  split; [reflexivity|]. split; [reflexivity|]. split; [reflexivity|].
  exact (proj2 (@regridder_shape_contract sample_weights sample_data 2 2 2 2 2 2
                  eq_refl eq_refl) eq_refl).
Defined.


Lemma zero_overlap_region_is_absent_witness :
  no_overlay_fragment rectangles.reproject rectangles.intersects rectangles.intersection
                      (uniform_grid 2 3 (num_of_Z 10)) outside_region
  /\ ~ In (r_name outside_region) (map r_name ([ inside_region ] ++ [])%list)
  /\ (forall out,
         rect_regridded (uniform_grid 2 3 (num_of_Z 10)) inside_outside = Ok out ->
         ~ In (r_name outside_region) (xr.r_region out)
         /\ forall t, xr.sel_region out t (r_name outside_region) = Raise KeyError).
Proof.
  assert (H2 : ~ In (r_name outside_region)
                    (map r_name ([ inside_region ] ++ [])%list)).
  { simpl. intros [E|[]]. discriminate E. }
  split; [exact outside_region_no_overlay|]. split; [exact H2|].
  exact (proj1 (proj2 (proj2 (proj2 (proj2
           (@zero_overlap_region_is_absent
              rectangles.reproject rectangles.intersects rectangles.intersection
              (uniform_grid 2 3 (num_of_Z 10))
              [ inside_region ]%list []%list outside_region
              outside_region_no_overlay H2)))))).
Defined.

Lemma two_halves_scenario_witness :
  exists w out,
    rect_weights (uniform_grid 4 3 (num_of_Z 10)) two_halves = Ok w
    /\ rect_regridded (uniform_grid 4 3 (num_of_Z 10)) two_halves = Ok out
    /\ xr.r_values out = np.full [3; 2]%nat (num_of_Z 10).
Proof.
  destruct (two_halves_scenario 3)
    as (w & out & Ew & _ & _ & _ & _ & _ & Eout & _ & _ & Ev & _).
  exists w, out. split; [exact Ew|]. split; [exact Eout|exact Ev].
Defined.

(* ================================================================== *)
(** * The levels of an index are sorted and distinct                    *)
(* ================================================================== *)

Section IncreasingLevels.

Variable A : Type.
Variable cmp : A -> A -> comparison.
Hypothesis cmp_Gt : forall a b, cmp a b = Gt -> cmp b a = Lt.
Hypothesis cmp_trans : forall a b c, cmp a b = Lt -> cmp b c = Lt -> cmp a c = Lt.
Hypothesis cmp_irrefl : forall a, cmp a a <> Lt.

Lemma insert_unique_increasing (x : A) (l : list A) :
  increasing cmp l -> increasing cmp (insert_unique cmp x l).
Proof.
  unfold increasing. induction 1 as [|h t Ht IH Hh]; simpl.
  - repeat constructor.
  - destruct (cmp x h) eqn:E.
    + constructor; assumption.
    + constructor; [constructor; assumption|].
      constructor; [exact E|].
      rewrite Forall_forall in Hh |- *. intros y Hy.
      apply cmp_trans with h; [exact E|apply Hh; exact Hy].
    + constructor; [exact IH|].
      rewrite Forall_forall in Hh |- *. intros y Hy.
      apply insert_unique_In in Hy. destruct Hy as [->|Hy].
      * apply cmp_Gt. exact E.
      * apply Hh. exact Hy.
Qed.

Lemma sort_unique_increasing (l : list A) : increasing cmp (sort_unique cmp l).
Proof.
  induction l as [|x l IH]; simpl.
  - constructor.
  - apply insert_unique_increasing. exact IH.
Qed.

Lemma increasing_NoDup (l : list A) : increasing cmp l -> NoDup l.
Proof.
  unfold increasing. induction 1 as [|h t Ht IH Hh]; constructor; [|exact IH].
  intros Hin. rewrite Forall_forall in Hh.
  exact (cmp_irrefl (Hh h Hin)).
Qed.

End IncreasingLevels.

Lemma Qccompare_Gt (a b : num) : Qccompare a b = Gt -> Qccompare b a = Lt.
Proof.
  intros H. apply Qclt_alt. apply Qcgt_alt in H. exact H.
Qed.

Lemma Qccompare_trans (a b c : num) :
  Qccompare a b = Lt -> Qccompare b c = Lt -> Qccompare a c = Lt.
Proof.
  intros H1 H2. apply Qclt_alt. apply Qclt_alt in H1, H2.
  exact (Qclt_trans _ _ _ H1 H2).
Qed.

Lemma Qccompare_irrefl (a : num) : Qccompare a a <> Lt.
Proof.
  intros H. apply Qclt_alt in H. exact (Qclt_not_le _ _ H (Qcle_refl a)).
Qed.

Lemma ascii_compare_refl (c : Ascii.ascii) : Ascii.compare c c = Eq.
Proof. unfold Ascii.compare. apply N.compare_refl. Qed.

Lemma ascii_compare_trans (a b c : Ascii.ascii) :
  Ascii.compare a b = Lt -> Ascii.compare b c = Lt -> Ascii.compare a c = Lt.
Proof.
  unfold Ascii.compare. rewrite !N.compare_lt_iff. apply N.lt_trans.
Qed.

Lemma string_compare_trans (a b c : string) :
  String.compare a b = Lt -> String.compare b c = Lt -> String.compare a c = Lt.
Proof.
  revert b c. induction a as [|x a IH]; intros [|y b] [|z c]; simpl;
    try discriminate; try reflexivity.
  destruct (Ascii.compare x y) eqn:Exy; try discriminate;
    destruct (Ascii.compare y z) eqn:Eyz; try discriminate; intros H1 H2.
  - apply Ascii.compare_eq_iff in Exy, Eyz. subst y z.
    rewrite ascii_compare_refl. exact (IH _ _ H1 H2).
  - apply Ascii.compare_eq_iff in Exy. subst y. rewrite Eyz. reflexivity.
  - apply Ascii.compare_eq_iff in Eyz. subst z. rewrite Exy. reflexivity.
  - rewrite (ascii_compare_trans _ _ _ Exy Eyz). reflexivity.
Qed.

Lemma string_compare_Gt (a b : string) :
  String.compare a b = Gt -> String.compare b a = Lt.
Proof.
  intros H. rewrite String.compare_antisym, H. reflexivity.
Qed.

Lemma string_compare_irrefl (a : string) : String.compare a a <> Lt.
Proof.
  intros H. pose proof (String.compare_antisym a a) as E.
  rewrite H in E. discriminate E.
Qed.

(* ================================================================== *)
(** * Regridder: failure modes, empty columns, chunks and range         *)
(* ================================================================== *)

Lemma getitem_short {A : Type} (l : list A) (i : nat) :
  (length l <= i)%nat -> getitem l i = Raise IndexError.
Proof.
  intros H. unfold getitem. apply nth_error_None in H. rewrite H. reflexivity.
Qed.

Lemma reshape_ValueError (c : sparse.COO) (new_shape : list nat) :
  np.prod (sparse.shape c) <> np.prod new_shape ->
  sparse.reshape c new_shape = Raise ValueError.
Proof.
  intros H. unfold sparse.reshape.
  destruct (Nat.eqb_spec (np.prod (sparse.shape c)) (np.prod new_shape)) as [E|_];
    [contradiction|reflexivity].
Qed.

(** X1.  The Regridder can stop at five places, decided by the two shapes alone
    and met in this order: an index error when the data have fewer than
    three dimensions; a value error when the data cannot be reshaped to
    (time, rows x columns), which takes dimensions after the third that
    change the number of elements; an index error when the weights have
    fewer than three dimensions; the assertion on the size of the planes;
    a value error when the weights cannot be reshaped to
    (rows x columns, regions).  In every other case it returns an array
    of shape (time, regions): the product and the last assertion never
    fail. *)
Theorem regridder_failure_modes (weights : sparse.COO) (data : np.ndarray) :
  ((length (np.shape data) < 3)%nat ->
     apply_weights_matmul_sparse weights data = Raise IndexError)
  /\ forall n r c drest, np.shape data = (n :: r :: c :: drest)%list ->
     ((np.prod (np.shape data) <> n * (r * c))%nat ->
        apply_weights_matmul_sparse weights data = Raise ValueError)
     /\ ((np.prod (np.shape data) = n * (r * c))%nat ->
         ((length (sparse.shape weights) < 3)%nat ->
            apply_weights_matmul_sparse weights data = Raise IndexError)
         /\ forall w0 w1 m wrest, sparse.shape weights = (w0 :: w1 :: m :: wrest)%list ->
            ((r * c <> w0 * w1)%nat ->
               apply_weights_matmul_sparse weights data = Raise AssertionError)
            /\ ((r * c = w0 * w1)%nat ->
                ((np.prod (sparse.shape weights) <> r * c * m)%nat ->
                   apply_weights_matmul_sparse weights data = Raise ValueError)
                /\ ((np.prod (sparse.shape weights) = r * c * m)%nat ->
                    exists out,
                      apply_weights_matmul_sparse weights data = Ok out
                      /\ np.shape out = [n; m]%list
                      /\ length (np.data out) = (n * m)%nat))).
Proof.
  unfold apply_weights_matmul_sparse.
  change (sparse.shape (sparse.from_numpy data)) with (np.shape data).
  split.
  - intros H. destruct (np.shape data) as [|n [|r [|c drest]]];
      cbn [getitem nth_error bind]; try reflexivity.
    simpl in H. lia.
  - intros n r c drest Hd. rewrite Hd. cbn [getitem nth_error bind]. split.
    + intros Hne. rewrite reshape_ValueError; [reflexivity|].
      change (sparse.shape (sparse.from_numpy data)) with (np.shape data).
      rewrite Hd, prod_2. exact Hne.
    + intros He.
      destruct (@reshape_Ok (sparse.from_numpy data) [n; (r * c)%nat])
        as (d' & Ed & Sd & _).
      { change (sparse.shape (sparse.from_numpy data)) with (np.shape data).
        rewrite Hd, prod_2. exact He. }
      rewrite Ed. cbn [bind]. split.
      * intros H. destruct (sparse.shape weights) as [|w0 [|w1 [|m wrest]]];
          cbn [getitem nth_error bind]; try reflexivity.
        simpl in H. lia.
      * intros w0 w1 m wrest Hw. rewrite Hw. cbn [getitem nth_error bind]. split.
        { intros Hne. destruct (Nat.eqb_spec (r * c) (w0 * w1)) as [E|_];
            [contradiction|]. reflexivity. }
        intros Hk. rewrite <- Hk, Nat.eqb_refl. cbn [assert bind]. split.
        { intros Hne. rewrite reshape_ValueError; [reflexivity|].
          rewrite Hw, prod_2. exact Hne. }
        intros Hp.
        destruct (@reshape_Ok weights [(r * c)%nat; m]) as (w' & Ew & Sw & _).
        { rewrite Hw, prod_2. exact Hp. }
        rewrite Ew. cbn [bind].
        unfold sparse.matmul. rewrite Sd, Sw, Nat.eqb_refl. cbn [bind sparse.shape].
        unfold shape_eqb. destruct (list_eq_dec Nat.eq_dec [n; m] [n; m]) as [_|N];
          [|exfalso; apply N; reflexivity].
        cbn [assert bind]. eexists. split; [reflexivity|].
        unfold sparse.todense. cbn [np.shape np.data sparse.shape].
        split; [reflexivity|].
        rewrite length_map, length_seq, prod_2. reflexivity.
Qed.

Lemma at_flat_no_entry (c : sparse.COO) (w0 w1 m j cell : nat) :
  sparse.shape c = [w0; w1; m]%list -> wf_COO c -> (j < m)%nat ->
  (forall e, In e (sparse.entries c) -> nth 2 (fst e) 0%nat <> j) ->
  sparse.at_flat c (cell * m + j) = 0.
Proof.
  intros Hs Hwf Hj Hno. rewrite at_flat_indicator, Hs.
  rewrite (sum_map_ext_in _ (fun _ => 0)); [apply sum_map_zero|].
  intros [idx v] Hin. cbn [fst snd].
  unfold wf_COO in Hwf. rewrite Forall_forall in Hwf.
  pose proof (Hwf _ Hin) as Hv. rewrite Hs in Hv. cbn [fst] in Hv.
  inversion Hv as [|a na idx1 s1 Ha H1]; subst.
  inversion H1 as [|b nb idx2 s2 Hb H2]; subst.
  inversion H2 as [|k nk idx3 s3 Hk H3]; subst.
  inversion H3; subst.
  specialize (Hno _ Hin). cbn [fst nth] in Hno.
  rewrite ravel_3, pair_index_eqb by assumption.
  destruct (Nat.eqb_spec k j) as [E|_]; [contradiction|].
  rewrite andb_false_r. reflexivity.
Qed.

(** X2.  A region for which the weights store no entry receives exactly zero at
    every time step, whatever the data. *)
Theorem regridder_unweighted_region_is_zero
        (weights : sparse.COO) (data : np.ndarray) (n r c w0 w1 m j : nat) :
  np.shape data = [n; r; c]%list ->
  sparse.shape weights = [w0; w1; m]%list ->
  wf_ndarray data -> wf_COO weights ->
  (r * c = w0 * w1)%nat ->
  (j < m)%nat ->
  (forall e, In e (sparse.entries weights) -> nth 2 (fst e) 0%nat <> j) ->
  exists out,
    apply_weights_matmul_sparse weights data = Ok out
    /\ forall t, (t < n)%nat -> np_item out [t; j]%list = 0.
Proof.
  intros Hd Hw Hwfd Hwfw Hk Hj Hno.
  destruct (apply_weights_run weights data Hd Hw Hk) as (out & Eo & So & _ & Vo).
  exists out. split; [exact Eo|].
  intros t Ht. unfold np_item. rewrite So, ravel_2.
  rewrite (Vo Hwfd Hwfw t j Ht Hj).
  unfold big_sum.
  rewrite (sum_map_ext_in _ (fun _ => 0)); [apply sum_map_zero|].
  intros cell _. rewrite (at_flat_no_entry cell Hw Hwfw Hj Hno). ring.
Qed.








Lemma shape_eqb_refl (s : list nat) : shape_eqb s s = true.
Proof.
  unfold shape_eqb. destruct (list_eq_dec Nat.eq_dec s s) as [_|N];
    [reflexivity|exfalso; apply N; reflexivity].
Qed.

Lemma nth_app_block (a b : list num) (k i p : nat) :
  length a = (k * i)%nat -> (p < i)%nat ->
  forall t, nth (t * i + p) (a ++ b) 0
            = if (t <? k)%nat then nth (t * i + p) a 0 else nth ((t - k) * i + p) b 0.
Proof.
  intros La Hp t. destruct (Nat.ltb_spec t k) as [H|H].
  - apply app_nth1. rewrite La. apply index2_lt; assumption.
  - rewrite app_nth2 by (rewrite La; nia). f_equal. rewrite La. nia.
Qed.

(** Regridding two blocks of time steps put together gives the two
    regridded blocks put together. *)
Lemma regrid_concatenate (weights : sparse.COO) (A B : np.ndarray)
      (n1 n2 r c w0 w1 m : nat) :
  np.shape A = [n1; r; c]%list -> np.shape B = [n2; r; c]%list ->
  sparse.shape weights = [w0; w1; m]%list ->
  wf_ndarray A -> wf_ndarray B -> wf_COO weights ->
  (r * c = w0 * w1)%nat ->
  exists AB outA outB outAB,
    dask.concatenate A B = Ok AB
    /\ np.shape AB = [(n1 + n2)%nat; r; c]%list /\ wf_ndarray AB
    /\ apply_weights_matmul_sparse weights A = Ok outA
    /\ apply_weights_matmul_sparse weights B = Ok outB
    /\ apply_weights_matmul_sparse weights AB = Ok outAB
    /\ dask.concatenate outA outB = Ok outAB.
Proof.
  intros HA HB Hw WA WB Wwf Hk.
  assert (LA : length (np.data A) = (n1 * (r * c))%nat).
  { unfold wf_ndarray in WA. rewrite WA, HA, prod_3. lia. }
  assert (LB : length (np.data B) = (n2 * (r * c))%nat).
  { unfold wf_ndarray in WB. rewrite WB, HB, prod_3. lia. }
  set (AB := {| np.shape := [(n1 + n2)%nat; r; c]%list;
                np.data := (np.data A ++ np.data B)%list |}).
  assert (EAB : dask.concatenate A B = Ok AB).
  { unfold dask.concatenate. rewrite HA, HB, shape_eqb_refl. reflexivity. }
  assert (SAB : np.shape AB = [(n1 + n2)%nat; r; c]%list) by reflexivity.
  assert (WAB : wf_ndarray AB).
  { unfold wf_ndarray, AB. cbn [np.data np.shape].
    rewrite length_app, LA, LB, prod_3. lia. }
  destruct (apply_weights_run weights A HA Hw Hk) as (oA & EA & SA & LoA & VA).
  destruct (apply_weights_run weights B HB Hw Hk) as (oB & EB & SB & LoB & VB).
  destruct (apply_weights_run weights AB SAB Hw Hk) as (oAB & EoAB & SoAB & LoAB & VAB).
  exists AB, oA, oB, oAB.
  repeat (split; [assumption|]).
  unfold dask.concatenate. rewrite SA, SB, shape_eqb_refl. f_equal. symmetry.
  apply (@ndarray_ext oAB _ (n1 + n2) m); cbn [np.shape np.data]; auto.
  - rewrite length_app, LoA, LoB. lia.
  - intros t j Ht Hj.
    rewrite (VAB WAB Wwf t j Ht Hj).
    rewrite (@nth_app_block _ (np.data oB) _ _ _ LoA Hj t).
    destruct (Nat.ltb_spec t n1) as [H|H].
    + rewrite (VA WA Wwf t j H Hj). apply big_sum_ext. intros cell Hc.
      unfold AB. cbn [np.data].
      rewrite (@nth_app_block _ (np.data B) _ _ _ LA Hc t).
      destruct (Nat.ltb_spec t n1) as [_|H']; [reflexivity|lia].
    + rewrite (VB WB Wwf (t - n1)%nat j) by lia. apply big_sum_ext. intros cell Hc.
      unfold AB. cbn [np.data].
      rewrite (@nth_app_block _ (np.data B) _ _ _ LA Hc t).
      destruct (Nat.ltb_spec t n1) as [H'|_]; [lia|reflexivity].
Qed.

(** X4.  Chunking along time does not change the result: applying the
    Regridder to every chunk of a variable and putting the results
    together gives what the Regridder returns on the whole variable. *)
Theorem regridding_by_time_chunks
        (weights : sparse.COO) (first : np.ndarray) (rest : list np.ndarray)
        (r c w0 w1 m : nat) :
  sparse.shape weights = [w0; w1; m]%list ->
  wf_COO weights ->
  (r * c = w0 * w1)%nat ->
  Forall (fun a => wf_ndarray a /\ exists n, np.shape a = [n; r; c]%list)
         (first :: rest) ->
  exists whole out,
    dask.concat_all first rest = Ok whole
    /\ apply_weights_matmul_sparse weights whole = Ok out
    /\ dask.parallelized apply_weights_matmul_sparse weights first rest = Ok out.
Proof.
  intros Hw Wwf Hk. revert first.
  induction rest as [|b rest IH]; intros first HF.
  - inversion HF as [|a l [WA (n & HA)] _]; subst.
    destruct (apply_weights_run weights first HA Hw Hk) as (oA & EA & _).
    exists first, oA. unfold dask.parallelized. rewrite EA. cbn [bind mapM dask.concat_all].
    repeat split; reflexivity || assumption.
  - inversion HF as [|a l [WA (n1 & HA)] HF']; subst.
    inversion HF' as [|a l [WB (n2 & HB)] HF'']; subst.
    destruct (regrid_concatenate HA HB Hw WA WB Wwf Hk)
      as (AB & oA & oB & oAB & EAB & SAB & WAB & EA & EB & EoAB & Ecat).
    destruct (IH AB) as (whole & out & Ewhole & Eout & Epar).
    { constructor; [|exact HF'']. split; [exact WAB|]. eexists. exact SAB. }
    exists whole, out. cbn [dask.concat_all]. rewrite EAB. cbn [bind].
    split; [exact Ewhole|]. split; [exact Eout|].
    revert Epar. unfold dask.parallelized. rewrite EoAB, EA. cbn [bind mapM].
    rewrite EB. cbn [bind].
    destruct (mapM (apply_weights_matmul_sparse weights) rest) as [outs|e];
      cbn [bind dask.concat_all]; [|discriminate].
    rewrite Ecat. cbn [bind]. auto.
Qed.

(* ================================================================== *)
(** * Regridder: one region for each cell                               *)
(* ================================================================== *)

Lemma identity_weights_wf (rows cols : nat) : wf_COO (identity_weights rows cols).
Proof.
  unfold wf_COO, identity_weights. cbn [sparse.shape sparse.entries].
  apply Forall_map. apply Forall_forall. intros cell Hc. apply in_seq in Hc.
  cbn [fst].
  assert (Hcols : (0 < cols)%nat) by (destruct cols; [lia|lia]).
  repeat constructor.
  - apply Nat.Div0.div_lt_upper_bound. lia.
  - apply Nat.mod_upper_bound. lia.
  - lia.
Qed.

Lemma identity_weights_at (rows cols cell j : nat) :
  (cell < rows * cols)%nat -> (j < rows * cols)%nat ->
  sparse.at_flat (identity_weights rows cols) (cell * (rows * cols) + j)
  = if (cell =? j)%nat then 1 else 0.
Proof.
  intros Hc Hj. rewrite at_flat_indicator.
  unfold identity_weights. cbn [sparse.shape sparse.entries].
  rewrite map_map. cbn [fst snd].
  rewrite (sum_map_ext_in _
             (fun k => if (k =? cell)%nat then (if (cell =? j)%nat then 1 else 0) else 0)).
  - apply (sum_seq_pick (fun _ => if (cell =? j)%nat then 1 else 0)). exact Hc.
  - intros k Hk. apply in_seq in Hk.
    rewrite ravel_cell_weight.
    rewrite pair_index_eqb by lia.
    destruct (Nat.eqb_spec k cell) as [->|N]; [|reflexivity].
    cbn [andb]. reflexivity.
Qed.

(** X5.  With one region for each cell, the Regridder returns the data
    themselves, each plane flattened row by row: the cell of row [i] and
    column [j] is the region numbered [i * columns + j]. *)
Theorem regridder_identity_weights (data : np.ndarray) (n rows cols : nat) :
  np.shape data = [n; rows; cols]%list ->
  wf_ndarray data ->
  apply_weights_matmul_sparse (identity_weights rows cols) data
  = Ok {| np.shape := [n; (rows * cols)%nat]%list; np.data := np.data data |}.
Proof.
  intros Hd Hwf.
  assert (Hw : sparse.shape (identity_weights rows cols)
               = [rows; cols; (rows * cols)%nat]%list) by reflexivity.
  destruct (apply_weights_run (identity_weights rows cols) data Hd Hw eq_refl)
    as (out & Eo & So & Lo & Vo).
  rewrite Eo. f_equal.
  apply (@ndarray_ext out _ n (rows * cols)); cbn [np.shape np.data]; auto.
  - unfold wf_ndarray in Hwf. rewrite Hwf, Hd, prod_3. lia.
  - intros t j Ht Hj.
    rewrite (Vo Hwf (identity_weights_wf rows cols) t j Ht Hj).
    unfold big_sum.
    rewrite (sum_map_ext_in _
               (fun cell => if (cell =? j)%nat
                            then nth (t * (rows * cols) + cell) (np.data data) 0
                            else 0)).
    + apply (sum_seq_pick (fun cell => nth (t * (rows * cols) + cell) (np.data data) 0)).
      exact Hj.
    + intros cell Hc. apply in_seq in Hc.
      rewrite identity_weights_at by lia.
      destruct (cell =? j)%nat; ring.
Qed.

(* ================================================================== *)
(** * Unstacking the weights                                            *)
(* ================================================================== *)

Lemma index_key_eqb_eq (a b : index_key) : index_key_eqb a b = true <-> a = b.
Proof.
  destruct a as [[ay ax] an], b as [[by_ bx] bn].
  unfold index_key_eqb. cbn [fst snd]. split.
  - intros H. apply andb_prop in H. destruct H as [H Hn].
    apply andb_prop in H. destruct H as [Hy Hx].
    apply num_eqb_true in Hy, Hx. apply String.eqb_eq in Hn. congruence.
  - intros E. injection E as -> -> ->.
    rewrite !num_eqb_refl, String.eqb_refl. reflexivity.
Qed.

Lemma has_duplicates_false (l : list index_key) :
  xr.has_duplicates l = false <-> NoDup l.
Proof.
  induction l as [|k l IH]; simpl.
  - split; [constructor|reflexivity].
  - rewrite orb_false_iff, IH. split.
    + intros [He Hn]. constructor; [|exact Hn].
      intros Hin.
      assert (Ht : existsb (index_key_eqb k) l = true).
      { apply existsb_exists. exists k. split; [exact Hin|].
        apply index_key_eqb_eq. reflexivity. }
      congruence.
    + intros Hn. inversion Hn as [|k' l' Hk Hl]; subst. split; [|exact Hl].
      destruct (existsb (index_key_eqb k) l) eqn:E; [|reflexivity].
      apply existsb_exists in E. destruct E as (k' & Hin & E).
      apply index_key_eqb_eq in E. subst k'. contradiction.
Qed.

Lemma grid_cell_fraction_length (ov : list overlay_row) :
  length (grid_cell_fraction ov) = length ov.
Proof. rewrite grid_cell_fraction_closed_form. apply length_map. Qed.

Lemma map_fst_combine {A B : Type} (l : list A) (l' : list B) :
  length l = length l' -> map fst (combine l l') = l.
Proof.
  revert l'. induction l as [|a l IH]; intros [|b l'] H; simpl in *;
    try discriminate; [reflexivity|].
  f_equal. apply IH. lia.
Qed.

Lemma df_weights_keys (ov : list overlay_row) :
  map fst (df_weights ov) = multi_index ov.
Proof.
  unfold df_weights. apply map_fst_combine.
  unfold multi_index. rewrite length_map, grid_cell_fraction_length. reflexivity.
Qed.

Lemma index_of_nth_NoDup {A : Type} (eqb : A -> A -> bool) (l : list A) (j : nat) (a : A) :
  (forall x, eqb x x = true) -> (forall x y, eqb x y = true -> x = y) ->
  NoDup l -> nth_error l j = Some a -> index_of eqb a l = Some j.
Proof.
  intros Hr Ht. revert j. induction l as [|h t IH]; intros j Hn Hj.
  - destruct j; discriminate.
  - inversion Hn as [|h' t' Hh Hnt]; subst. destruct j as [|j]; simpl in *.
    + injection Hj as ->. rewrite Hr. reflexivity.
    + destruct (eqb a h) eqn:E.
      * apply Ht in E. subst h. exfalso. apply Hh.
        eapply nth_error_In. exact Hj.
      * rewrite (IH j Hnt Hj). reflexivity.
Qed.

(** X8.  The three axes of the weights hold exactly the labels found in the
    overlay, each once, in increasing order: a region has a column if and
    only if it has at least one fragment. *)
Theorem weights_axes_are_overlay_labels (ov : list overlay_row) (w : xr.SparseDataArray) :
  xr.unstack (df_weights ov) = Ok w ->
  (forall region, In region (xr.w_name w) <-> exists row, In row ov /\ o_name row = region)
  /\ (forall vy, In vy (xr.w_y w) <-> exists row, In row ov /\ o_y row = vy)
  /\ (forall vx, In vx (xr.w_x w) <-> exists row, In row ov /\ o_x row = vx)
  /\ increasing String.compare (xr.w_name w)
  /\ increasing Qccompare (xr.w_y w)
  /\ increasing Qccompare (xr.w_x w)
  /\ NoDup (xr.w_name w).
Proof.
  unfold xr.unstack. rewrite df_weights_keys.
  destruct (xr.has_duplicates (multi_index ov)); [discriminate|].
  intros E. injection E as <-. cbn [xr.w_y xr.w_x xr.w_name].
  unfold multi_index. rewrite !map_map. cbn [fst snd].
  assert (S : increasing String.compare (sort_unique String.compare (map o_name ov))).
  { apply sort_unique_increasing;
      [apply string_compare_Gt|apply string_compare_trans]. }
  repeat split.
  - intros H. apply sort_unique_In in H. apply in_map_iff in H.
    destruct H as (row & <- & H). exists row. split; [exact H|reflexivity].
  - intros (row & H & <-). apply sort_unique_In_intro; [apply string_compare_Eq|].
    apply in_map. exact H.
  - intros H. apply sort_unique_In in H. apply in_map_iff in H.
    destruct H as (row & <- & H). exists row. split; [exact H|reflexivity].
  - intros (row & H & <-). apply sort_unique_In_intro; [apply Qccompare_Eq|].
    apply in_map. exact H.
  - intros H. apply sort_unique_In in H. apply in_map_iff in H.
    destruct H as (row & <- & H). exists row. split; [exact H|reflexivity].
  - intros (row & H & <-). apply sort_unique_In_intro; [apply Qccompare_Eq|].
    apply in_map. exact H.
  - exact S.
  - apply sort_unique_increasing; [apply Qccompare_Gt|apply Qccompare_trans].
  - apply sort_unique_increasing; [apply Qccompare_Gt|apply Qccompare_trans].
  - eapply increasing_NoDup; [apply string_compare_irrefl|exact S].
Qed.

(* ================================================================== *)
(** * Reading the weights back by label                                 *)
(* ================================================================== *)

Lemma combine_map_same {A B C : Type} (g : A -> B) (f : A -> C) (l : list A) :
  combine (map g l) (map f l) = map (fun a => (g a, f a)) l.
Proof. induction l as [|a l IH]; simpl; [reflexivity|]. rewrite IH. reflexivity. Qed.

Lemma df_weights_rows (ov : list overlay_row) :
  df_weights ov
  = map (fun r => ((o_y r, o_x r, o_name r),
                   shapely.area (o_geometry r) / region_area ov (o_name r))) ov.
Proof.
  unfold df_weights, multi_index. rewrite grid_cell_fraction_closed_form.
  apply combine_map_same.
Qed.

Lemma triple_index_eqb (nx nn a b c a' b' c' : nat) :
  (b < nx)%nat -> (b' < nx)%nat -> (c < nn)%nat -> (c' < nn)%nat ->
  ((a * nx + b) * nn + c =? (a' * nx + b') * nn + c')
  = (a =? a') && (b =? b') && (c =? c').
Proof.
  intros Hb Hb' Hc Hc'.
  rewrite pair_index_eqb by assumption.
  rewrite pair_index_eqb by assumption. reflexivity.
Qed.

Lemma sum_pick_unique (df : list (index_key * num)) (k : index_key) (v : num) :
  NoDup (map fst df) -> In (k, v) df ->
  sum (map (fun kv => if index_key_eqb (fst kv) k then snd kv else 0) df) = v.
Proof.
  induction df as [|[k0 v0] df IH]; intros Hn Hin; [destruct Hin|].
  simpl in Hn. inversion Hn as [|x l Hk Hn']; subst.
  simpl. rewrite sum_cons. cbn [fst snd]. destruct Hin as [E|Hin].
  - injection E as -> ->.
    rewrite (proj2 (index_key_eqb_eq k k) eq_refl).
    rewrite (sum_map_ext_in _ (fun _ => 0)); [rewrite sum_map_zero; ring|].
    intros [k1 v1] H1. cbn [fst snd].
    destruct (index_key_eqb k1 k) eqn:E; [|reflexivity].
    apply index_key_eqb_eq in E. subst k1. exfalso. apply Hk.
    apply in_map_iff. exists (k, v1). split; [reflexivity|exact H1].
  - destruct (index_key_eqb k0 k) eqn:E.
    + apply index_key_eqb_eq in E. subst k0. exfalso. apply Hk.
      apply in_map_iff. exists (k, v). split; [reflexivity|exact Hin].
    + rewrite (IH Hn' Hin). ring.
Qed.

Lemma sum_pick_absent (df : list (index_key * num)) (k : index_key) :
  ~ In k (map fst df) ->
  sum (map (fun kv => if index_key_eqb (fst kv) k then snd kv else 0) df) = 0.
Proof.
  intros Hk. rewrite (sum_map_ext_in _ (fun _ => 0)); [apply sum_map_zero|].
  intros [k1 v1] H1. cbn [fst snd].
  destruct (index_key_eqb k1 k) eqn:E; [|reflexivity].
  apply index_key_eqb_eq in E. subst k1. exfalso. apply Hk.
  apply in_map_iff. exists (k, v1). split; [reflexivity|exact H1].
Qed.

(** The entries of the unstacked weights, in terms of its own axes. *)
Lemma unstack_entries (df : list (index_key * num)) (w : xr.SparseDataArray) :
  xr.unstack df = Ok w ->
  sparse.entries (xr.w_data w)
  = map (fun kv : index_key * num =>
           ([ xr.code num_eqb (xr.w_y w) (fst (fst (fst kv)));
              xr.code num_eqb (xr.w_x w) (snd (fst (fst kv)));
              xr.code String.eqb (xr.w_name w) (snd (fst kv)) ]%list,
            snd kv)) df
  /\ forall k, In k (map fst df) ->
       In (fst (fst k)) (xr.w_y w) /\ In (snd (fst k)) (xr.w_x w)
       /\ In (snd k) (xr.w_name w).
Proof.
  unfold xr.unstack.
  destruct (xr.has_duplicates (map fst df)); [discriminate|].
  intros E. injection E as <-.
  cbn [xr.w_data xr.w_y xr.w_x xr.w_name sparse.entries].
  split; [reflexivity|].
  intros k Hk. repeat split.
  - apply sort_unique_In_intro; [apply Qccompare_Eq|].
    apply in_map_iff. exists k. split; [reflexivity|exact Hk].
  - apply sort_unique_In_intro; [apply Qccompare_Eq|].
    apply in_map_iff. exists k. split; [reflexivity|exact Hk].
  - apply sort_unique_In_intro; [apply string_compare_Eq|].
    apply in_map_iff. exists k. split; [reflexivity|exact Hk].
Qed.

(** The weight read at three labels found on the axes is the sum of the
    rows stored under that key. *)
Lemma sel_weight_unstack (df : list (index_key * num)) (w : xr.SparseDataArray)
      (vy vx : num) (region : string) :
  xr.unstack df = Ok w ->
  In vy (xr.w_y w) -> In vx (xr.w_x w) -> In region (xr.w_name w) ->
  xr.sel_weight w vy vx region
  = Ok (sum (map (fun kv => if index_key_eqb (fst kv) (vy, vx, region)
                            then snd kv else 0) df)).
Proof.
  intros Eu Hy Hx Hn.
  destruct (@unstack_wf _ _ Eu) as [Hs _].
  destruct (@unstack_entries _ _ Eu) as [He Hl].
  unfold xr.sel_weight.
  destruct (@code_In _ num_eqb num_eqb_refl vy _ Hy) as [Ey Ly].
  destruct (@code_In _ num_eqb num_eqb_refl vx _ Hx) as [Ex Lx].
  destruct (@code_In _ String.eqb String.eqb_refl region _ Hn) as [En Ln].
  rewrite Ey, Ex, En. f_equal.
  rewrite at_flat_indicator, Hs, He.
  rewrite map_map. apply sum_map_ext_in.
  intros [[[ky kx] kn] v] Hin. cbn [fst snd].
  destruct (Hl (ky, kx, kn)) as (Iy & Ix & In_).
  { apply in_map_iff. exists (ky, kx, kn, v). split; [reflexivity|exact Hin]. }
  cbn [fst snd] in Iy, Ix, In_.
  rewrite !ravel_3.
  rewrite triple_index_eqb;
    try assumption;
    try (apply code_lt; [apply num_eqb_refl || apply String.eqb_refl|assumption]).
  rewrite (@code_is _ _ num_eqb_refl num_eqb_true _ _ _ _ Iy Ey).
  rewrite (@code_is _ _ num_eqb_refl num_eqb_true _ _ _ _ Ix Ex).
  rewrite (@code_is _ _ String.eqb_refl string_eqb_true _ _ _ _ In_ En).
  reflexivity.
Qed.

(** X9.  Round trip through the sparse weights: the weight read at the cell
    and the region of a fragment is the area of the fragment divided by
    the total area of the fragments of its region. *)
Theorem weight_lookup_roundtrip
        (ov : list overlay_row) (w : xr.SparseDataArray) (row : overlay_row) :
  xr.unstack (df_weights ov) = Ok w ->
  In row ov ->
  xr.sel_weight w (o_y row) (o_x row) (o_name row)
  = Ok (shapely.area (o_geometry row) / region_area ov (o_name row)).
Proof.
  intros Eu Hrow.
  assert (Hn : NoDup (map fst (df_weights ov))).
  { apply has_duplicates_false. revert Eu. unfold xr.unstack.
    destruct (xr.has_duplicates (map fst (df_weights ov))); [discriminate|reflexivity]. }
  assert (Hk : In (o_y row, o_x row, o_name row) (map fst (df_weights ov))).
  { rewrite df_weights_keys. unfold multi_index.
    apply in_map_iff. exists row. split; [reflexivity|exact Hrow]. }
  destruct (@unstack_entries _ _ Eu) as [_ Hl].
  destruct (Hl _ Hk) as (Iy & Ix & In_). cbn [fst snd] in Iy, Ix, In_.
  rewrite (@sel_weight_unstack _ _ (o_y row) (o_x row) (o_name row) Eu Iy Ix In_).
  f_equal. apply sum_pick_unique; [exact Hn|].
  rewrite df_weights_rows. apply in_map_iff. exists row.
  split; [reflexivity|exact Hrow].
Qed.

(** X10.  A cell and a region that both appear on the axes of the weights but
    share no fragment have weight zero: pairs without a fragment are not
    stored and read as the fill value. *)
Theorem weight_of_unmatched_pair_is_zero
        (ov : list overlay_row) (w : xr.SparseDataArray)
        (vy vx : num) (region : string) :
  xr.unstack (df_weights ov) = Ok w ->
  In vy (xr.w_y w) -> In vx (xr.w_x w) -> In region (xr.w_name w) ->
  (forall row, In row ov -> (o_y row, o_x row, o_name row) <> (vy, vx, region)) ->
  xr.sel_weight w vy vx region = Ok 0.
Proof.
  intros Eu Hy Hx Hn Hno.
  rewrite (@sel_weight_unstack _ _ vy vx region Eu Hy Hx Hn).
  f_equal. apply sum_pick_absent. rewrite df_weights_keys. unfold multi_index.
  intros Hin. apply in_map_iff in Hin. destruct Hin as (row & E & Hrow).
  exact (Hno row Hrow E).
Qed.

(* ================================================================== *)
(** * The pipeline on any field                                         *)
(* ================================================================== *)

Lemma length_flat_map_const {A B : Type} (f : A -> list B) (k : nat) (l : list A) :
  (forall a, In a l -> length (f a) = k) -> length (flat_map f l) = (length l * k)%nat.
Proof.
  induction l as [|a l IH]; intros H; simpl; [reflexivity|].
  rewrite length_app, (H a) by (left; reflexivity).
  rewrite IH by (intros b Hb; apply H; right; exact Hb). reflexivity.
Qed.

(** Aligning a variable on labels it has cannot fail; the result has one
    value for every time step and every pair of the wanted labels, and
    each of its values is a value of the variable. *)
Lemma reindex_like_Ok (da : xr.DataArray) (ys xs : list num) :
  (forall a, In a ys -> In a (xr.d_y da)) ->
  (forall a, In a xs -> In a (xr.d_x da)) ->
  exists out,
    xr.reindex_like da ys xs = Ok out
    /\ np.shape out = [length (xr.d_time da); length ys; length xs]%list
    /\ wf_ndarray out
    /\ (length (np.data (xr.d_values da))
        = (length (xr.d_time da) * length (xr.d_y da) * length (xr.d_x da))%nat ->
        forall v, In v (np.data out) -> In v (np.data (xr.d_values da))).
Proof.
  intros Hy Hx. unfold xr.reindex_like.
  destruct (mapM_lookup_In (xr.d_y da) ys Hy) as (iy & Ey & Ly & Fy).
  destruct (mapM_lookup_In (xr.d_x da) xs Hx) as (ix & Ex & Lx & Fx).
  rewrite Ey, Ex. cbn [bind]. eexists. split; [reflexivity|].
  cbn [np.shape np.data]. split; [reflexivity|]. split.
  - unfold wf_ndarray. cbn [np.shape np.data]. rewrite prod_3.
    rewrite (@length_flat_map_const _ _ _ (length ys * length xs)).
    + rewrite length_seq. lia.
    + intros t _. rewrite (@length_flat_map_const _ _ _ (length xs)).
      * rewrite Ly. reflexivity.
      * intros i _. rewrite length_map. exact Lx.
  - intros Hlen v Hv.
    apply in_flat_map in Hv. destruct Hv as (t & Ht & Hv). apply in_seq in Ht.
    apply in_flat_map in Hv. destruct Hv as (i & Hi & Hv).
    apply in_map_iff in Hv. destruct Hv as (j & <- & Hj).
    rewrite Forall_forall in Fy, Fx.
    apply nth_In. rewrite Hlen.
    apply index3_lt; [lia|apply Fy; exact Hi|apply Fx; exact Hj].
Qed.

Section AnyField.

Variable reproject : shapely.Polygon -> shapely.Polygon.
Variable intersects : shapely.Polygon -> shapely.Polygon -> bool.
Variable intersection : shapely.Polygon -> shapely.Polygon -> option shapely.Polygon.

(** Every fragment carries the labels of a cell of the dataset. *)
Lemma overlay_of_labels (ds : Dataset) (regions : list region_row)
      (ov : list overlay_row) (row : overlay_row) :
  overlay_of reproject intersects intersection ds regions = Ok ov -> In row ov ->
  In (o_y row) (ds_y ds) /\ In (o_x row) (ds_x ds).
Proof.
  intros E Hrow. apply overlay_of_Ok in E. destruct E as (grid & Eg & _ & ->).
  unfold overlay_rows in Hrow.
  apply in_flat_map in Hrow. destruct Hrow as (c & Hc & Hrow).
  apply in_flat_map in Hrow. destruct Hrow as (r & Hr & Hrow).
  destruct (fragment intersects intersection (g_geometry c) (r_geometry r)) as [g|];
    [|destruct Hrow].
  destruct Hrow as [<-|[]]. cbn [o_y o_x].
  unfold grid_to_crs in Hc. apply in_map_iff in Hc.
  destruct Hc as (c0 & <- & Hc0). cbn [g_y g_x].
  exact (@grid_df_labels _ _ _ Eg Hc0).
Qed.

(** What the last step of the pipeline does once the weights exist: the
    variable is aligned on the labels of the weights, which never fails;
    when its rows and columns lie in one chunk it is handed to the
    Regridder, which returns, and otherwise the call is refused. *)
Lemma var_regridded_run (ds : Dataset) (regions : list region_row)
      (w : xr.SparseDataArray) :
  weights_sparse reproject intersects intersection ds regions = Ok w ->
  exists data out,
    xr.reindex_like (ds_getitem ds) (xr.w_y w) (xr.w_x w) = Ok data
    /\ np.shape data = [length (ds_time ds); length (xr.w_y w); length (xr.w_x w)]%list
    /\ wf_ndarray data
    /\ (wf_Dataset ds -> forall v, In v (np.data data) -> In v (np.data (ds_var ds)))
    /\ apply_weights_matmul_sparse (xr.w_data w) data = Ok out
    /\ var_regridded reproject intersects intersection ds regions
       = if xr.core_dims_in_one_chunk (ds_getitem ds)
         then Ok {| xr.r_time := ds_time ds; xr.r_region := xr.w_name w;
                    xr.r_values := out |}
         else Raise ValueError.
Proof.
  intros Ew. unfold var_regridded. rewrite Ew. cbn [bind].
  unfold weights_sparse in Ew.
  destruct (overlay_of reproject intersects intersection ds regions) as [ov|e] eqn:Eov;
    cbn [bind] in Ew; [|discriminate].
  destruct (@unstack_labels _ _ Ew) as (Ly & Lx & _).
  destruct (@unstack_wf _ _ Ew) as [Hs _].
  destruct (@reindex_like_Ok (ds_getitem ds) (xr.w_y w) (xr.w_x w))
    as (data & Ed & Sd & Wd & Vd).
  { intros a Ha. destruct (Ly a Ha) as (row & Hrow & <-).
    eapply overlay_of_labels; eassumption. }
  { intros a Ha. destruct (Lx a Ha) as (row & Hrow & <-).
    eapply overlay_of_labels; eassumption. }
  cbn [ds_getitem xr.d_time xr.d_y xr.d_x xr.d_values] in Sd, Vd.
  destruct (apply_weights_run (xr.w_data w) data Sd Hs eq_refl) as (out & Eo & _).
  exists data, out. split; [exact Ed|]. split; [exact Sd|]. split; [exact Wd|].
  split.
  { intros (Hshape & Hwf & _). apply Vd.
    unfold wf_ndarray in Hwf. rewrite Hwf, Hshape, prod_3. reflexivity. }
  split; [exact Eo|].
  unfold xr.apply_ufunc. rewrite Ed. cbn [bind].
  destruct (xr.core_dims_in_one_chunk (ds_getitem ds)); cbn [bind]; [|reflexivity].
  rewrite Eo. reflexivity.
Qed.

(** X11.  Once the weights exist, the regridding of a variable whose rows
    and columns lie in one chunk (or that is held in memory) cannot fail:
    the alignment with [join="left"] finds every label of the weights in
    the dataset, and the two assertions of the Regridder hold.  The
    result has the time steps of the dataset, the regions of the weights,
    and one value for each pair. *)
Theorem regridding_cannot_fail_once_weights_exist
        (ds : Dataset) (regions : list region_row) (w : xr.SparseDataArray) :
  xr.core_dims_in_one_chunk (ds_getitem ds) = true ->
  weights_sparse reproject intersects intersection ds regions = Ok w ->
  exists out,
    var_regridded reproject intersects intersection ds regions = Ok out
    /\ xr.r_time out = ds_time ds
    /\ xr.r_region out = xr.w_name w
    /\ np.shape (xr.r_values out) = [length (ds_time ds); length (xr.w_name w)]%list
    /\ wf_ndarray (xr.r_values out).
Proof.
  intros Hc Ew.
  destruct (var_regridded_run ds regions Ew) as (data & out & _ & Sd & _ & _ & Eo & Er).
  rewrite Hc in Er.
  unfold weights_sparse in Ew.
  destruct (overlay_of reproject intersects intersection ds regions) as [ov|e];
    cbn [bind] in Ew; [|discriminate].
  destruct (@unstack_wf _ _ Ew) as [Hs _].
  destruct (apply_weights_run (xr.w_data w) data Sd Hs eq_refl) as (out' & Eo' & So & Lo & _).
  rewrite Eo in Eo'. injection Eo' as <-.
  eexists. split; [exact Er|]. cbn [xr.r_time xr.r_region xr.r_values].
  split; [reflexivity|]. split; [reflexivity|]. split; [exact So|].
  unfold wf_ndarray. rewrite Lo, So, prod_2. reflexivity.
Qed.

(** The Grid Polygonizer only fails with an index error. *)
Lemma grid_df_Raise (ds : Dataset) (e : exn) :
  grid_df ds = Raise e -> e = IndexError.
Proof.
  intros Eg. unfold grid_df in Eg.
  destruct (mapM _ (combine (ds_y ds) (ds_y_bounds ds))) as [rows|e0] eqn:Er;
    cbn [bind] in Eg; [discriminate|].
  injection Eg as ->.
  revert Er. generalize (combine (ds_y ds) (ds_y_bounds ds)) as lys.
  induction lys as [|yb lys IH]; cbn [mapM]; [discriminate|].
  destruct (mapM _ (combine (ds_x ds) (ds_x_bounds ds))) as [row|e0] eqn:Ex;
    cbn [bind].
  - destruct (mapM _ lys) as [rows|e0]; cbn [bind]; [discriminate|].
    intros E. apply IH. exact E.
  - intros E. injection E as ->. clear IH.
    revert Ex. generalize (combine (ds_x ds) (ds_x_bounds ds)) as lxs.
    induction lxs as [|xb lxs IHx]; cbn [mapM]; [discriminate|].
    destruct (bounds_to_poly (snd xb) (snd yb)) as [p|e0] eqn:Ep; cbn [bind].
    + destruct (mapM _ lxs) as [row|e0]; cbn [bind]; [discriminate|].
      intros E. apply IHx. exact E.
    + intros E. injection E as ->.
      unfold bounds_to_poly, getitem in Ep.
      destruct (snd xb) as [|x0 [|x1 xr]], (snd yb) as [|y0 [|y1 yr]];
        cbn [nth_error bind] in Ep;
        first [injection Ep as <-; reflexivity|discriminate Ep].
Qed.

(** X12.  The only ways the pipeline can stop.  The Weight Builder stops
    with an index error, raised by the Grid Polygonizer on bounds with
    fewer than two entries; with a value error raised by the overlay,
    when no cell of the grid intersects any region; and with a value
    error raised when two fragments of the overlay share their cell and
    their region name.  After it, the regridding call stops in one way
    only: with a value error, when the rows or the columns of the
    variable lie in several chunks. *)
Theorem pipeline_failure_modes
        (ds : Dataset) (regions : list region_row) (e : exn) :
  (weights_sparse reproject intersects intersection ds regions = Raise e ->
     (e = IndexError /\ grid_df ds = Raise IndexError)
     \/ (e = ValueError
         /\ exists grid,
             grid_df ds = Ok grid
             /\ any_pair intersects (grid_to_crs reproject grid)
                          (regions_to_crs reproject regions) = false)
     \/ (e = ValueError
         /\ exists ov, overlay_of reproject intersects intersection ds regions = Ok ov
                       /\ ~ NoDup (multi_index ov)))
  /\ (var_regridded reproject intersects intersection ds regions = Raise e ->
      weights_sparse reproject intersects intersection ds regions = Raise e
      \/ (e = ValueError
          /\ (exists w, weights_sparse reproject intersects intersection ds regions = Ok w)
          /\ xr.core_dims_in_one_chunk (ds_getitem ds) = false)).
Proof.
  split.
  - unfold weights_sparse.
    destruct (overlay_of reproject intersects intersection ds regions) as [ov|e0] eqn:Eov;
      cbn [bind].
    + intros Eu. right. right.
      assert (Ev : xr.unstack (df_weights ov) = Raise ValueError).
      { revert Eu. unfold xr.unstack.
        destruct (xr.has_duplicates _); [reflexivity|discriminate]. }
      split; [congruence|].
      exists ov. split; [reflexivity|].
      revert Ev. unfold xr.unstack. rewrite df_weights_keys.
      destruct (xr.has_duplicates _) eqn:Ed; [|discriminate].
      intros _ Hn. apply has_duplicates_false in Hn. congruence.
    + intros E. injection E as ->.
      revert Eov. unfold overlay_of, overlay.
      destruct (grid_df ds) as [grid|e0] eqn:Eg; cbn [bind].
      * destruct (any_pair intersects (grid_to_crs reproject grid)
                           (regions_to_crs reproject regions)) eqn:P; [discriminate|].
        intros E. injection E as <-. right. left.
        split; [reflexivity|]. exists grid. split; [reflexivity|exact P].
      * intros E. injection E as ->. left.
        rewrite (grid_df_Raise ds Eg). split; reflexivity.
  - unfold var_regridded.
    destruct (weights_sparse reproject intersects intersection ds regions) as [w|e0] eqn:Ew;
      cbn [bind]; [|intros E; injection E as ->; left; reflexivity].
    destruct (var_regridded_run ds regions Ew) as (data & out & _ & _ & _ & _ & _ & Er).
    unfold var_regridded in Er. rewrite Ew in Er. cbn [bind] in Er. rewrite Er.
    destruct (xr.core_dims_in_one_chunk (ds_getitem ds)); [discriminate|].
    intros E. injection E as <-. right.
    split; [reflexivity|]. split; [exists w; reflexivity|reflexivity].
Qed.

End AnyField.

(* ================================================================== *)
(** * The Weight Matrix built from fragments of positive area           *)
(* ================================================================== *)

Lemma Qcdiv_pos (a s : num) : 0 < a -> 0 < s -> 0 < a / s.
Proof.
  intros Ha Hs.
  destruct (Qclt_le_dec 0 (a / s)) as [H|H]; [exact H|exfalso].
  assert (Hz : a / s * s <= 0 * s).
  { apply Qcmult_le_compat_r; [exact H|apply Qclt_le_weak; exact Hs]. }
  rewrite test_field in Hz.
  - rewrite Qcmult_0_l in Hz. exact (Qclt_not_le _ _ Ha Hz).
  - intros E. rewrite E in Hs. exact (Qclt_not_le _ _ Hs (Qcle_refl _)).
Qed.

(** Every stored weight lies in (0, 1]. *)
Lemma unstack_entries_bounds (ov : list overlay_row) (w : xr.SparseDataArray) :
  (forall r, In r ov -> 0 < shapely.area (o_geometry r)) ->
  xr.unstack (df_weights ov) = Ok w ->
  forall e, In e (sparse.entries (xr.w_data w)) -> 0 < snd e /\ snd e <= 1.
Proof.
  intros Hpos Eu e He.
  destruct (@unstack_entries _ _ Eu) as [Hen _]. rewrite Hen in He.
  apply in_map_iff in He. destruct He as (kv & <- & Hkv). cbn [snd].
  rewrite df_weights_rows in Hkv. apply in_map_iff in Hkv.
  destruct Hkv as (row & <- & Hrow). cbn [snd].
  pose proof (Hpos row Hrow) as Ha.
  pose proof (@region_area_pos ov row Hpos Hrow) as Hs.
  assert (Hle : shapely.area (o_geometry row) <= region_area ov (o_name row)).
  { unfold region_area.
    apply (sum_ge_member (fun r => shapely.area (o_geometry r))).
    - intros b _. apply area_nonneg.
    - apply filter_In. split; [exact Hrow|apply String.eqb_refl]. }
  split; [apply Qcdiv_pos; assumption|].
  apply Qcdiv_unit_interval; [apply Qclt_le_weak|..]; assumption.
Qed.

(** Every column of the Weight Matrix adds up to one. *)
Lemma unstack_columns (ov : list overlay_row) (w : xr.SparseDataArray) :
  (forall r, In r ov -> 0 < shapely.area (o_geometry r)) ->
  xr.unstack (df_weights ov) = Ok w ->
  forall j, (j < length (xr.w_name w))%nat -> column_sum (xr.w_data w) j = 1.
Proof.
  intros Hpos Eu j Hj.
  destruct (nth_error (xr.w_name w) j) as [region|] eqn:En.
  2:{ apply nth_error_None in En. lia. }
  assert (Hin : In region (xr.w_name w)) by (eapply nth_error_In; exact En).
  assert (Hnd : NoDup (xr.w_name w)).
  { revert Eu. unfold xr.unstack.
    destruct (xr.has_duplicates (map fst (df_weights ov))); [discriminate|].
    intros E. injection E as <-. cbn [xr.w_name].
    eapply increasing_NoDup; [apply string_compare_irrefl|].
    apply sort_unique_increasing; [apply string_compare_Gt|apply string_compare_trans]. }
  assert (Ej : index_of String.eqb region (xr.w_name w) = Some j).
  { apply index_of_nth_NoDup;
      [apply String.eqb_refl|apply string_eqb_true|exact Hnd|exact En]. }
  destruct (@unstack_labels _ _ Eu) as (_ & _ & Ln).
  destruct (Ln region Hin) as (row & Hrow & Erow).
  apply (@weight_matrix_columns_normalised ov w region j Eu Ej).
  rewrite <- Erow. apply region_area_pos; assumption.
Qed.

Section PositiveFragments.

Variable reproject : shapely.Polygon -> shapely.Polygon.
Variable intersects : shapely.Polygon -> shapely.Polygon -> bool.
Variable intersection : shapely.Polygon -> shapely.Polygon -> option shapely.Polygon.

(** The overlay only returns fragments of positive area. *)
Hypothesis fragments_positive :
  forall a b g, intersection a b = Some g -> 0 < shapely.area g.

(** X13.  The invariants of the Weight Matrix the pipeline builds: a
    well-formed array over the labels of its three axes, whose stored
    weights lie in (0, 1] and whose columns, one for each region on the
    axis, each add up to one within the relative tolerance 1e-6. *)
Theorem weight_matrix_invariants
        (ds : Dataset) (regions : list region_row) (w : xr.SparseDataArray) :
  weights_sparse reproject intersects intersection ds regions = Ok w ->
  sparse.shape (xr.w_data w)
  = [length (xr.w_y w); length (xr.w_x w); length (xr.w_name w)]%list
  /\ wf_COO (xr.w_data w)
  /\ (forall e, In e (sparse.entries (xr.w_data w)) -> 0 < snd e /\ snd e <= 1)
  /\ (forall j, (j < length (xr.w_name w))%nat ->
        Qcabs (column_sum (xr.w_data w) j - 1) <= tolerance * Qcabs 1).
Proof.
  intros Ew. unfold weights_sparse in Ew.
  destruct (overlay_of reproject intersects intersection ds regions) as [ov|e] eqn:Eov;
    cbn [bind] in Ew; [|discriminate].
  assert (Hrows : forall r, In r ov -> 0 < shapely.area (o_geometry r)).
  { intros r Hr.
    eapply (@overlay_of_rows reproject intersects intersection fragments_positive);
      eassumption. }
  destruct (@unstack_wf _ _ Ew) as [Hs Hwf].
  split; [exact Hs|]. split; [exact Hwf|]. split.
  - exact (@unstack_entries_bounds ov w Hrows Ew).
  - intros j Hj. rewrite (@unstack_columns ov w Hrows Ew j Hj).
    unfold Qcle. vm_compute. discriminate.
Qed.


End PositiveFragments.

(* ================================================================== *)
(** * The grid as a frame of polygons                                   *)
(* ================================================================== *)

Lemma bounds_to_poly_Ok (xb yb : list num) :
  (2 <= length xb)%nat -> (2 <= length yb)%nat ->
  bounds_to_poly xb yb
  = Ok (shapely.mkPolygon
          (shapely.close_ring
             (cell_ring (nth 0 xb 0) (nth 1 xb 0) (nth 0 yb 0) (nth 1 yb 0)))).
Proof.
  intros Hx Hy.
  destruct xb as [|x0 [|x1 xs]]; destruct yb as [|y0 [|y1 ys]];
    simpl in Hx, Hy; try lia; reflexivity.
Qed.

Lemma mapM_Ok_map {A B : Type} (f : A -> result B) (g : A -> B) (l : list A) :
  (forall a, In a l -> f a = Ok (g a)) -> mapM f l = Ok (map g l).
Proof.
  induction l as [|a l IH]; intros H; simpl; [reflexivity|].
  rewrite (H a) by (left; reflexivity). cbn [bind].
  rewrite IH by (intros b Hb; apply H; right; exact Hb). reflexivity.
Qed.

(** With two bounds or more for every row and column, the Grid Polygonizer
    returns the cells row by row. *)
Lemma grid_df_Ok (ds : Dataset) :
  Forall (fun b => (2 <= length b)%nat) (ds_y_bounds ds) ->
  Forall (fun b => (2 <= length b)%nat) (ds_x_bounds ds) ->
  grid_df ds
  = Ok (flat_map (fun yb => map (cell_of yb) (combine (ds_x ds) (ds_x_bounds ds)))
                 (combine (ds_y ds) (ds_y_bounds ds))).
Proof.
  intros Hy Hx. unfold grid_df. rewrite Forall_forall in Hy, Hx.
  rewrite (@mapM_Ok_map _ _ _
             (fun yb => map (cell_of yb) (combine (ds_x ds) (ds_x_bounds ds)))).
  - cbn [bind]. rewrite flat_map_concat_map. reflexivity.
  - intros yb Hyb. apply mapM_Ok_map. intros xb Hxb.
    rewrite bounds_to_poly_Ok.
    + reflexivity.
    + apply Hx. destruct xb as [vx b]. exact (in_combine_r _ _ _ _ Hxb).
    + apply Hy. destruct yb as [vy b]. exact (in_combine_r _ _ _ _ Hyb).
Qed.

Lemma nth_error_flat_map_const {A B : Type} (f : A -> list B) (k : nat) (l : list A)
      (i j : nat) :
  (forall a, In a l -> length (f a) = k) -> (j < k)%nat ->
  nth_error (flat_map f l) (i * k + j)
  = match nth_error l i with
    | Some a => nth_error (f a) j
    | None => None
    end.
Proof.
  intros Hlen Hj. revert i. induction l as [|a l IH]; intros i.
  - simpl flat_map. rewrite !nth_error_nil. reflexivity.
  - simpl flat_map. destruct i as [|i].
    + simpl. apply nth_error_app1. rewrite Hlen by (left; reflexivity). exact Hj.
    + rewrite nth_error_app2 by (rewrite Hlen by (left; reflexivity); simpl; lia).
      rewrite Hlen by (left; reflexivity).
      replace (S i * k + j - k)%nat with (i * k + j)%nat by (simpl; lia).
      simpl nth_error. apply IH. intros b Hb. apply Hlen. right. exact Hb.
Qed.

Lemma nth_error_combine {A B : Type} (l : list A) (l' : list B) (i : nat) (a : A) (b : B) :
  nth_error l i = Some a -> nth_error l' i = Some b ->
  nth_error (combine l l') i = Some (a, b).
Proof.
  revert l' i. induction l as [|x l IH]; intros [|y l'] [|i]; simpl;
    try discriminate.
  - intros E1 E2. injection E1 as ->. injection E2 as ->. reflexivity.
  - apply IH.
Qed.

Lemma length_combine_same {A B : Type} (l : list A) (l' : list B) :
  length l' = length l -> length (combine l l') = length l.
Proof. intros H. rewrite length_combine, H. apply Nat.min_id. Qed.

(** X15.  One polygon for each cell: the frame of the grid has rows x columns
    rows; the cell of row [i] and column [j] of the grid is found at
    position [i * columns + j], labelled with the centre of the cell and
    carrying the rectangle spanned by the first two bounds of its column
    and of its row, whose area is width x height. *)
Theorem grid_df_cells (ds : Dataset) :
  length (ds_y_bounds ds) = length (ds_y ds) ->
  length (ds_x_bounds ds) = length (ds_x ds) ->
  Forall (fun b => (2 <= length b)%nat) (ds_y_bounds ds) ->
  Forall (fun b => (2 <= length b)%nat) (ds_x_bounds ds) ->
  exists grid,
    grid_df ds = Ok grid
    /\ length grid = (length (ds_y ds) * length (ds_x ds))%nat
    /\ forall i j vy vx yb xb,
         nth_error (ds_y ds) i = Some vy -> nth_error (ds_y_bounds ds) i = Some yb ->
         nth_error (ds_x ds) j = Some vx -> nth_error (ds_x_bounds ds) j = Some xb ->
         exists c,
           nth_error grid (i * length (ds_x ds) + j) = Some c
           /\ g_y c = vy /\ g_x c = vx
           /\ shapely.exterior (g_geometry c)
              = shapely.close_ring
                  (cell_ring (nth 0 xb 0) (nth 1 xb 0) (nth 0 yb 0) (nth 1 yb 0))
           /\ shapely.area (g_geometry c)
              = Qcabs (nth 1 xb 0 - nth 0 xb 0) * Qcabs (nth 1 yb 0 - nth 0 yb 0).
Proof.
  intros Ly Lx Hy Hx. rewrite (grid_df_Ok ds Hy Hx).
  set (row := fun yb => map (cell_of yb) (combine (ds_x ds) (ds_x_bounds ds))).
  assert (Hrow : forall yb, In yb (combine (ds_y ds) (ds_y_bounds ds)) ->
                   length (row yb) = length (ds_x ds)).
  { intros yb _. unfold row. rewrite length_map. apply length_combine_same. exact Lx. }
  eexists. split; [reflexivity|]. split.
  - rewrite (@length_flat_map_const _ _ _ _ _ Hrow). rewrite length_combine_same by exact Ly.
    reflexivity.
  - intros i j vy vx yb xb Ey Eyb Ex Exb.
    assert (Hj : (j < length (ds_x ds))%nat).
    { apply nth_error_Some. congruence. }
    rewrite (@nth_error_flat_map_const _ _ _ _ _ i j Hrow Hj).
    rewrite (@nth_error_combine _ _ _ _ _ _ _ Ey Eyb).
    unfold row. rewrite nth_error_map, (@nth_error_combine _ _ _ _ _ _ _ Ex Exb).
    cbn [option_map]. eexists. split; [reflexivity|].
    unfold cell_of. cbn [g_y g_x g_geometry fst snd shapely.exterior].
    repeat split. apply area_cell_ring.
Qed.

(* ================================================================== *)
(** * Unique labels give unique keys                                    *)
(* ================================================================== *)

Lemma NoDup_map_flat_map {A B K P : Type} (key : B -> K) (f : A -> list B)
      (pk : K -> P) (ka : A -> P) (l : list A) :
  (forall a b, In a l -> In b (f a) -> pk (key b) = ka a) ->
  NoDup (map ka l) ->
  (forall a, In a l -> NoDup (map key (f a))) ->
  NoDup (map key (flat_map f l)).
Proof.
  induction l as [|a l IH]; intros Hp Hn Hf; simpl; [constructor|].
  simpl in Hn. inversion Hn as [|x l' Ha Hn']; subst.
  rewrite map_app. apply NoDup_app.
  - apply Hf. left. reflexivity.
  - apply IH; [|exact Hn'|].
    + intros a' b Ha' Hb. apply Hp; [right; exact Ha'|exact Hb].
    + intros a' Ha'. apply Hf. right. exact Ha'.
  - intros k Hk1 Hk2.
    apply in_map_iff in Hk1. destruct Hk1 as (b1 & <- & Hb1).
    apply in_map_iff in Hk2. destruct Hk2 as (b2 & E & Hb2).
    apply in_flat_map in Hb2. destruct Hb2 as (a' & Ha' & Hb2).
    apply Ha. apply in_map_iff. exists a'. split; [|exact Ha'].
    rewrite <- (Hp a' b2 (or_intror Ha') Hb2), E.
    apply Hp; [left; reflexivity|exact Hb1].
Qed.

Lemma NoDup_map_injective {A B : Type} (f : A -> B) (l : list A) :
  (forall a b, f a = f b -> a = b) -> NoDup l -> NoDup (map f l).
Proof.
  intros Hinj. induction 1 as [|a l Ha Hl IH]; simpl; constructor; [|exact IH].
  intros Hin. apply in_map_iff in Hin. destruct Hin as (b & E & Hb).
  apply Hinj in E. subst b. contradiction.
Qed.

Lemma NoDup_fst_combine {A B : Type} (l : list A) (l' : list B) :
  NoDup l -> NoDup (map fst (combine l l')).
Proof.
  intros Hn. revert l'. induction Hn as [|a l Ha Hl IH]; intros [|b l']; simpl;
    try constructor; [|apply IH].
  intros Hin. apply in_map_iff in Hin. destruct Hin as ([a' b'] & E & Hin).
  cbn [fst] in E. subst a'. apply Ha. exact (in_combine_l _ _ _ _ Hin).
Qed.

Lemma num_of_Z_le (a b : Z) : (a <= b)%Z -> num_of_Z a <= num_of_Z b.
Proof.
  intros H. unfold num_of_Z, Qcle. cbn [this Q2Qc].
  apply Qred_le. rewrite <- Zle_Qle. exact H.
Qed.

Lemma num_of_Z_lt (a b : Z) : (a < b)%Z -> num_of_Z a < num_of_Z b.
Proof.
  intros H. unfold num_of_Z, Qclt. cbn [this Q2Qc].
  apply Qred_lt. rewrite <- Zlt_Qlt. exact H.
Qed.

Section UniqueLabels.

Variable reproject : shapely.Polygon -> shapely.Polygon.
Variable intersects : shapely.Polygon -> shapely.Polygon -> bool.
Variable intersection : shapely.Polygon -> shapely.Polygon -> option shapely.Polygon.

Lemma overlay_keys_NoDup (grid : list grid_row) (regions : list region_row) :
  NoDup (map (fun c => (g_y c, g_x c)) grid) ->
  NoDup (map r_name regions) ->
  NoDup (multi_index (overlay_rows intersects intersection grid regions)).
Proof.
  intros Hg Hr. unfold multi_index, overlay_rows.
  apply (@NoDup_map_flat_map _ _ _ _ _ _ (fun k : index_key => fst k)
           (fun c => (g_y c, g_x c))); [| exact Hg |].
  - intros c row _ Hrow. apply in_flat_map in Hrow. destruct Hrow as (r & _ & Hrow).
    destruct (fragment intersects intersection (g_geometry c) (r_geometry r));
      [|destruct Hrow].
    destruct Hrow as [<-|[]]. reflexivity.
  - intros c _.
    apply (@NoDup_map_flat_map _ _ _ _ _ _ (fun k : index_key => snd k) r_name);
      [| exact Hr |].
    + intros r row _ Hrow.
      destruct (fragment intersects intersection (g_geometry c) (r_geometry r));
        [|destruct Hrow].
      destruct Hrow as [<-|[]]. reflexivity.
    + intros r _.
      destruct (fragment intersects intersection (g_geometry c) (r_geometry r)); simpl.
      * constructor; [intros []|constructor].
      * constructor.
Qed.

(** X16.  With coordinate labels without repetition, region names without
    repetition and two bounds or more for every row and column, the
    Weight Builder stops in one case only, whatever the geometries: the
    weights exist when a cell of the grid intersects a region, and the
    overlay raises a value error when none does. *)
Theorem unique_labels_give_weights (ds : Dataset) (regions : list region_row) :
  NoDup (ds_y ds) -> NoDup (ds_x ds) ->
  NoDup (map r_name regions) ->
  Forall (fun b => (2 <= length b)%nat) (ds_y_bounds ds) ->
  Forall (fun b => (2 <= length b)%nat) (ds_x_bounds ds) ->
  exists grid,
    grid_df ds = Ok grid
    /\ (any_pair intersects (grid_to_crs reproject grid)
                  (regions_to_crs reproject regions) = true ->
        exists w, weights_sparse reproject intersects intersection ds regions = Ok w)
    /\ (any_pair intersects (grid_to_crs reproject grid)
                  (regions_to_crs reproject regions) = false ->
        weights_sparse reproject intersects intersection ds regions = Raise ValueError).
Proof.
  intros Ny Nx Nr Hy Hx.
  eexists. split; [exact (grid_df_Ok ds Hy Hx)|].
  unfold weights_sparse, overlay_of, overlay. rewrite (grid_df_Ok ds Hy Hx). cbn [bind].
  split; intros P; rewrite P; cbn [bind]; [|reflexivity].
  match goal with
  | |- exists w, xr.unstack (df_weights ?ov) = Ok w =>
      assert (Hk : NoDup (multi_index ov))
  end.
  { apply overlay_keys_NoDup.
    - unfold grid_to_crs. rewrite map_map. cbn [g_y g_x].
      apply (@NoDup_map_flat_map _ _ _ _ _ _ (fun k : num * num => fst k)
               (fun yb : num * list num => fst yb)).
      + intros yb c _ Hc. apply in_map_iff in Hc. destruct Hc as (xb & <- & _).
        reflexivity.
      + apply NoDup_fst_combine. exact Ny.
      + intros yb _. rewrite map_map. cbn [cell_of g_y g_x].
        rewrite <- (map_map fst (fun vx => (fst yb, vx))).
        apply NoDup_map_injective; [|apply NoDup_fst_combine; exact Nx].
        intros a b E. injection E as ->. reflexivity.
    - unfold regions_to_crs. rewrite map_map. cbn [r_name]. exact Nr. }
  match goal with
  | |- exists w, xr.unstack (df_weights ?ov) = Ok w =>
      destruct (xr.unstack (df_weights ov)) as [w|e] eqn:Eu
  end.
  - exists w. reflexivity.
  - exfalso. revert Eu. unfold xr.unstack. rewrite df_weights_keys.
    apply has_duplicates_false in Hk. rewrite Hk. discriminate.
Qed.

(** X17.  The share of the pairs of a cell and a region that have a fragment.
    It cannot be computed (a division by zero) exactly when the grid has
    no cell or there is no region; otherwise it lies between 0 and 1,
    because the overlay has at most one fragment for each pair.  The
    frame the overlay returns, when it returns, is made of these
    fragments. *)
Theorem sparsity_in_unit_interval (grid : list grid_row) (regions : list region_row) :
  (sparsity (overlay_rows intersects intersection (grid_to_crs reproject grid)
                          (regions_to_crs reproject regions))
            (grid_to_crs reproject grid) (regions_to_crs reproject regions) = None
   <-> grid = []%list \/ regions = []%list)
  /\ (length (overlay_rows intersects intersection (grid_to_crs reproject grid)
                           (regions_to_crs reproject regions))
      <= length grid * length regions)%nat
  /\ (forall s,
       sparsity (overlay_rows intersects intersection (grid_to_crs reproject grid)
                              (regions_to_crs reproject regions))
                (grid_to_crs reproject grid) (regions_to_crs reproject regions) = Some s ->
       0 <= s /\ s <= 1)
  /\ (forall ov,
       overlay intersects intersection (grid_to_crs reproject grid)
               (regions_to_crs reproject regions) = Ok ov ->
       ov = overlay_rows intersects intersection (grid_to_crs reproject grid)
                         (regions_to_crs reproject regions)).
Proof.
  set (grid' := grid_to_crs reproject grid).
  set (regions' := regions_to_crs reproject regions).
  set (ov := overlay_rows intersects intersection grid' regions').
  assert (Lg : length grid' = length grid) by apply length_map.
  assert (Lr : length regions' = length regions) by apply length_map.
  assert (Lov : (length ov <= length grid' * length regions')%nat).
  { unfold ov, overlay_rows. generalize grid' as g. intros g.
    induction g as [|c g IH]; simpl; [lia|].
    rewrite length_app.
    assert (H : (length (flat_map
                   (fun r => match fragment intersects intersection
                                            (g_geometry c) (r_geometry r) with
                             | Some g0 => [ {| o_geometry := g0; o_y := g_y c;
                                               o_x := g_x c; o_name := r_name r |} ]%list
                             | None => []%list
                             end) regions') <= length regions')%nat).
    { generalize regions' as rs. intros rs. induction rs as [|r rs IHr]; simpl; [lia|].
      rewrite length_app.
      destruct (fragment intersects intersection (g_geometry c) (r_geometry r));
        simpl; lia. }
    lia. }
  split; [|split; [|split]].
  - unfold sparsity. rewrite Lg, Lr.
    destruct (Nat.eqb_spec (length grid * length regions) 0) as [E|N].
    + split; [intros _|reflexivity].
      apply Nat.eq_mul_0 in E. destruct E as [E|E]; apply length_zero_iff_nil in E; auto.
    + split; [discriminate|]. intros [->| ->]; simpl in N; lia.
  - rewrite <- Lg, <- Lr. exact Lov.
  - unfold sparsity. intros s.
    destruct (Nat.eqb_spec (length grid' * length regions') 0) as [E|N]; [discriminate|].
    intros E. injection E as <-.
    apply Qcdiv_unit_interval.
    + apply num_of_Z_le. lia.
    + apply num_of_Z_le. lia.
    + apply num_of_Z_lt. lia.
  - intros ov'. unfold overlay.
    destruct (any_pair intersects grid' regions'); [|discriminate].
    intros E. injection E as <-. reflexivity.
Qed.

End UniqueLabels.

(* ================================================================== *)
(** * Means over time and the merged frame                              *)
(* ================================================================== *)




Section Merged.

Variable reproject : shapely.Polygon -> shapely.Polygon.
Variable intersects : shapely.Polygon -> shapely.Polygon -> bool.
Variable intersection : shapely.Polygon -> shapely.Polygon -> option shapely.Polygon.


End Merged.

(* ================================================================== *)
(** * Selecting regions by name                                         *)
(* ================================================================== *)

Lemma sel_names_indices (axis names : list string) :
  (forall n, In n names -> In n axis) ->
  exists idx,
    mapM (fun name =>
            match index_of String.eqb name axis with
            | Some j => Ok j
            | None => Raise KeyError
            end) names = Ok idx
    /\ length idx = length names
    /\ forall k n, nth_error names k = Some n ->
         exists j, nth_error idx k = Some j
                   /\ index_of String.eqb n axis = Some j
                   /\ (j < length axis)%nat.
Proof.
  induction names as [|a names IH]; intros H; cbn [mapM].
  - exists []%list. split; [reflexivity|]. split; [reflexivity|].
    intros [|k] n E; discriminate E.
  - destruct (@code_In _ String.eqb String.eqb_refl a axis (H a (or_introl eq_refl)))
      as [Ea La].
    destruct IH as (idx & E & L & V).
    { intros n Hn. apply H. right. exact Hn. }
    rewrite Ea. cbn [bind]. rewrite E. cbn [bind].
    eexists. split; [reflexivity|]. split; [simpl; lia|].
    intros [|k] n En; cbn [nth_error] in En |- *.
    + injection En as <-. eexists. split; [reflexivity|]. split; assumption.
    + apply V. exact En.
Qed.

Lemma sel_names_missing (axis names : list string) (n : string) :
  In n names -> ~ In n axis ->
  mapM (fun name =>
          match index_of String.eqb name axis with
          | Some j => Ok j
          | None => Raise KeyError
          end) names = Raise KeyError.
Proof.
  intros Hn Ha. induction names as [|a names IH]; [destruct Hn|]. cbn [mapM].
  destruct (index_of String.eqb a axis) as [j|] eqn:Ea; cbn [bind]; [|reflexivity].
  destruct Hn as [->|Hn].
  - rewrite (@index_of_name_None n axis Ha) in Ea. discriminate Ea.
  - rewrite (IH Hn). reflexivity.
Qed.

Section Selection.

Variable reproject : shapely.Polygon -> shapely.Polygon.
Variable intersects : shapely.Polygon -> shapely.Polygon -> bool.
Variable intersection : shapely.Polygon -> shapely.Polygon -> option shapely.Polygon.

(** X20.  Selecting regions of the regridded variable by name.  When every
    name in the list is the name of a region with a fragment in the
    overlay, the selection returns the series of those regions, in the
    order of the list.  When some name in the list is the name of no
    fragment (a region away from the grid, or a name that is not the name
    of a region), the selection stops with a key error. *)
Theorem selecting_regions_needs_fragments
        (ds : Dataset) (regions : list region_row)
        (ov : list overlay_row) (out : xr.RegionArray) (names : list string) :
  overlay_of reproject intersects intersection ds regions = Ok ov ->
  var_regridded reproject intersects intersection ds regions = Ok out ->
  ((forall n, In n names -> exists row, In row ov /\ o_name row = n) ->
   exists sel,
     frames.sel_names out names = Ok sel
     /\ xr.r_time sel = xr.r_time out
     /\ xr.r_region sel = names
     /\ forall t k n,
          (t < length (xr.r_time out))%nat -> nth_error names k = Some n ->
          getitem (np.data (xr.r_values sel)) (t * length names + k)
          = xr.sel_region out t n)
  /\ ((exists n, In n names /\ ~ exists row, In row ov /\ o_name row = n) ->
      frames.sel_names out names = Raise KeyError).
Proof.
  intros Eov Eout.
  assert (Ew : exists w, weights_sparse reproject intersects intersection ds regions = Ok w).
  { unfold var_regridded in Eout.
    destruct (weights_sparse reproject intersects intersection ds regions) as [w|e];
      [exists w; reflexivity|discriminate Eout]. }
  destruct Ew as (w & Ew).
  destruct (@var_regridded_run reproject intersects intersection ds regions w Ew)
    as (data & o & _ & Sd & _ & _ & Eo & Er).
  rewrite Er in Eout.
  destruct (xr.core_dims_in_one_chunk (ds_getitem ds)); [|discriminate Eout].
  injection Eout as <-.
  unfold weights_sparse in Ew. rewrite Eov in Ew. cbn [bind] in Ew.
  destruct (@unstack_wf _ _ Ew) as [Hs _].
  destruct (apply_weights_run (xr.w_data w) data Sd Hs eq_refl) as (o' & Eo' & _ & Lo & _).
  rewrite Eo in Eo'. injection Eo' as <-.
  destruct (@unstack_labels _ _ Ew) as (_ & _ & Ln).
  destruct (@unstack_entries _ _ Ew) as [_ Hl].
  assert (Haxis : forall n, In n (xr.w_name w) <-> exists row, In row ov /\ o_name row = n).
  { intros n. split; [apply Ln|]. intros (row & Hrow & <-).
    apply (Hl (o_y row, o_x row, o_name row)).
    rewrite df_weights_keys. unfold multi_index.
    apply in_map_iff. exists row. split; [reflexivity|exact Hrow]. }
  unfold frames.sel_names. cbn [xr.r_time xr.r_region xr.r_values]. split.
  - intros Hall.
    destruct (@sel_names_indices (xr.w_name w) names) as (idx & Ei & Li & Vi).
    { intros n Hn. apply Haxis. apply Hall. exact Hn. }
    rewrite Ei. cbn [bind]. eexists. split; [reflexivity|].
    cbn [xr.r_time xr.r_region xr.r_values np.data].
    split; [reflexivity|]. split; [reflexivity|].
    intros t k n Ht Ek.
    destruct (Vi k n Ek) as (j & Ej & En & Lj).
    assert (Hk : (k < length names)%nat) by (apply nth_error_Some; congruence).
    unfold getitem, xr.sel_region. cbn [xr.r_region xr.r_values]. rewrite En.
    rewrite <- Li.
    rewrite (@nth_error_flat_map_const _ _ _ (length idx) (seq 0 (length (ds_time ds))) t k).
    + rewrite nth_error_seq.
      destruct (Nat.ltb_spec t (length (ds_time ds))) as [_|H]; [|lia].
      rewrite nth_error_map, Ej. cbn [option_map Nat.add].
      unfold getitem.
      rewrite (nth_error_nth' (np.data o) 0) by (rewrite Lo; nia).
      reflexivity.
    + intros t' _. apply length_map.
    + rewrite Li. exact Hk.
  - intros (n & Hn & Hno).
    rewrite (@sel_names_missing (xr.w_name w) names n Hn); [reflexivity|].
    intros Hin. apply Hno. apply Haxis. exact Hin.
Qed.

End Selection.

(* ================================================================== *)
(** * Starting the Dask cluster: which machines are served              *)
(* ================================================================== *)

Lemma eqb_false_of_neq (a b : string) : a <> b -> String.eqb a b = false.
Proof. intros H. apply String.eqb_neq. exact H. Qed.

(** Case analysis on the name of the machine, as the chain of tests of
    [configure_cluster] makes it. *)
Ltac machine_cases machine :=
  destruct (String.eqb_spec machine "denali") as [->|N1];
  [|destruct (String.eqb_spec machine "tallgrass") as [->|N2];
    [|destruct (String.eqb_spec machine "local") as [->|N3];
      [|destruct (String.eqb_spec machine "esip-qhub-gateway-v0.4") as [->|N4]]]].

Lemma configure_cluster1_unknown (w : py.world) (machine : string) :
  machine <> "denali"%string -> machine <> "tallgrass"%string ->
  machine <> "local"%string -> machine <> "esip-qhub-gateway-v0.4"%string ->
  notebook1.configure_cluster w machine
  = py.Throw (py.UnboundLocalError "client") []%list.
Proof.
  intros N1 N2 N3 N4. unfold notebook1.configure_cluster. cbn [existsb].
  rewrite (eqb_false_of_neq N1), (eqb_false_of_neq N2),
          (eqb_false_of_neq N3), (eqb_false_of_neq N4).
  reflexivity.
Qed.

Lemma configure_cluster2_unknown (w : py.world) (machine : string) :
  machine <> "denali"%string -> machine <> "tallgrass"%string ->
  machine <> "local"%string -> machine <> "esip-qhub-gateway-v0.4"%string ->
  notebook2.configure_cluster w machine
  = py.Throw (py.UnboundLocalError "client") []%list.
Proof.
  intros N1 N2 N3 N4. unfold notebook2.configure_cluster. cbn [existsb].
  rewrite (eqb_false_of_neq N1), (eqb_false_of_neq N2),
          (eqb_false_of_neq N3), (eqb_false_of_neq N4).
  reflexivity.
Qed.

Lemma configure_cluster1_local (w : py.world) :
  notebook1.configure_cluster w "local"
  = py.Throw (py.UnboundLocalError "LocalCluster")
      [ py.Import_ "os"; py.Import_ "warnings";
        py.Call (py.Attr (py.Imported "warnings" EmptyString) "warn")
                [(EmptyString,
                  py.Str ("Running locally can result in costly data transfers!"
                          ++ newline))]%list;
        py.Call (py.Attr (py.Imported "os" EmptyString) "cpu_count") []%list ]%list.
Proof. reflexivity. Qed.

Lemma configure_cluster1_esip (w : py.world) :
  py.returns (notebook1.configure_cluster w "esip-qhub-gateway-v0.4")
  = py.environ_contains w "HOME"
  /\ (py.environ_contains w "HOME" = false ->
      notebook1.configure_cluster w "esip-qhub-gateway-v0.4"
      = py.Throw (py.KeyError "HOME") [py.Import_ "sys"; py.Import_ "os"]%list).
Proof.
  unfold notebook1.configure_cluster, py.environ_contains, py.environ_getitem.
  destruct (py.assoc "HOME" (py.environ w)) as [home|];
    split; first [reflexivity|discriminate|intros _; reflexivity].
Qed.

Lemma configure_cluster2_esip (w : py.world) :
  py.returns (notebook2.configure_cluster w "esip-qhub-gateway-v0.4")
  = py.environ_contains w "HOME"
  /\ (py.environ_contains w "HOME" = false ->
      notebook2.configure_cluster w "esip-qhub-gateway-v0.4"
      = py.Throw (py.KeyError "HOME") [py.Import_ "sys"; py.Import_ "os"]%list).
Proof.
  unfold notebook2.configure_cluster, py.environ_contains, py.environ_getitem.
  destruct (py.assoc "HOME" (py.environ w)) as [home|];
    split; first [reflexivity|discriminate|intros _; reflexivity].
Qed.

Lemma configure_cluster1_returns_iff (w : py.world) (machine : string) :
  py.returns (notebook1.configure_cluster w machine) = true
  <-> machine = "denali"%string \/ machine = "tallgrass"%string
      \/ (machine = "esip-qhub-gateway-v0.4"%string
          /\ py.environ_contains w "HOME" = true).
Proof.
  machine_cases machine.
  - split; [auto|reflexivity].
  - split; [auto|reflexivity].
  - rewrite configure_cluster1_local. split; [discriminate|].
    intros [H|[H|[H _]]]; discriminate H.
  - rewrite (proj1 (configure_cluster1_esip w)). split; [auto|].
    intros [H|[H|[_ H]]]; [discriminate H|discriminate H|exact H].
  - rewrite configure_cluster1_unknown by assumption. split; [discriminate|].
    intros [H|[H|[H _]]]; contradiction.
Qed.

Lemma configure_cluster2_returns_iff (w : py.world) (machine : string) :
  py.returns (notebook2.configure_cluster w machine) = true
  <-> machine = "denali"%string \/ machine = "tallgrass"%string
      \/ machine = "local"%string
      \/ (machine = "esip-qhub-gateway-v0.4"%string
          /\ py.environ_contains w "HOME" = true).
Proof.
  machine_cases machine.
  - split; [auto|reflexivity].
  - split; [auto|reflexivity].
  - split; [auto|]. intros _.
    unfold notebook2.configure_cluster. destruct w as [env [n|]]; reflexivity.
  - rewrite (proj1 (configure_cluster2_esip w)). split; [auto 6|].
    intros [H|[H|[H|[_ H]]]]; [discriminate H|discriminate H|discriminate H|exact H].
  - rewrite configure_cluster2_unknown by assumption. split; [discriminate|].
    intros [H|[H|[H|[H _]]]]; contradiction.
Qed.

(** X21.  The machines [configure_cluster] serves.  In the first notebook it
    returns for 'denali' and 'tallgrass', and for the cloud gateway when
    the environment has HOME; it does not return for 'local'.  In the
    second notebook it also returns for 'local'.  It returns for no other
    name. *)
Theorem configure_cluster_supported_machines (w : py.world) (machine : string) :
  (py.returns (notebook1.configure_cluster w machine) = true
   <-> machine = "denali"%string \/ machine = "tallgrass"%string
       \/ (machine = "esip-qhub-gateway-v0.4"%string
           /\ py.environ_contains w "HOME" = true))
  /\ (py.returns (notebook2.configure_cluster w machine) = true
      <-> machine = "denali"%string \/ machine = "tallgrass"%string
          \/ machine = "local"%string
          \/ (machine = "esip-qhub-gateway-v0.4"%string
              /\ py.environ_contains w "HOME" = true)).
Proof.
  split; [apply configure_cluster1_returns_iff|apply configure_cluster2_returns_iff].
Qed.

(** X22.  A machine name that none of the four tests accepts makes
    [configure_cluster] raise [UnboundLocalError] at its [return], in both
    notebooks, before anything is imported or started. *)
Theorem unknown_machine_raises_before_anything_starts (w : py.world) (machine : string) :
  machine <> "denali"%string -> machine <> "tallgrass"%string ->
  machine <> "local"%string -> machine <> "esip-qhub-gateway-v0.4"%string ->
  notebook1.configure_cluster w machine
  = py.Throw (py.UnboundLocalError "client") []%list
  /\ notebook2.configure_cluster w machine
     = py.Throw (py.UnboundLocalError "client") []%list.
Proof.
  intros N1 N2 N3 N4. split.
  - apply configure_cluster1_unknown; assumption.
  - apply configure_cluster2_unknown; assumption.
Qed.

(** X23.  On the machine 'local' the first notebook warns, counts the cores and
    then raises [UnboundLocalError]: its only import of [LocalCluster]
    inside the function is in the branch of 'denali', which makes the name
    local and leaves it unbound here.  The second notebook imports the
    name in this branch too and returns a client of a local cluster with
    as many threads per worker as the machine has cores. *)
Theorem local_machine_needs_the_import (w : py.world) :
  notebook1.configure_cluster w "local"
  = py.Throw (py.UnboundLocalError "LocalCluster")
      [ py.Import_ "os"; py.Import_ "warnings";
        py.Call (py.Attr (py.Imported "warnings" EmptyString) "warn")
                [(EmptyString,
                  py.Str ("Running locally can result in costly data transfers!"
                          ++ newline))]%list;
        py.Call (py.Attr (py.Imported "os" EmptyString) "cpu_count") []%list ]%list
  /\ exists f,
       notebook2.configure_cluster w "local" = py.Return (py.Result 6, py.Result 5) f
       /\ nth_error (py.trace f) 5
          = Some (py.Call (py.Imported "dask.distributed" "LocalCluster")
                    [("threads_per_worker"%string,
                      match py.cpu_count w with
                      | Some n => py.Int n
                      | None => py.None_
                      end)]%list)
       /\ nth_error (py.trace f) 6
          = Some (py.Call (py.Imported "dask.distributed" "Client")
                    [(EmptyString, py.Result 5)]%list).
Proof.
  split; [apply configure_cluster1_local|].
  eexists. split; [reflexivity|]. split; reflexivity.
Qed.

Lemma startup1_cases (w : py.world) :
  match py.assoc "SLURM_CLUSTER_NAME" (py.environ w) with
  | Some name =>
      notebook1.startup w
      = ("conus404-hourly-onprem"%string, notebook1.configure_cluster w name)
      /\ py.environ_contains w "SLURM_CLUSTER_NAME" = true
  | None =>
      notebook1.startup w
      = ("conus404-hourly-cloud"%string,
         notebook1.configure_cluster w "esip-qhub-gateway-v0.4")
      /\ py.environ_contains w "SLURM_CLUSTER_NAME" = false
  end.
Proof.
  unfold notebook1.startup, py.environ_contains.
  destruct (py.assoc "SLURM_CLUSTER_NAME" (py.environ w)); split; reflexivity.
Qed.

Lemma startup2_cases (w : py.world) :
  match py.assoc "SLURM_CLUSTER_NAME" (py.environ w) with
  | Some name =>
      notebook2.startup w
      = ("conus404-hourly-onprem"%string, notebook2.configure_cluster w name)
      /\ py.environ_contains w "SLURM_CLUSTER_NAME" = true
  | None =>
      notebook2.startup w
      = ("conus404-hourly-cloud"%string,
         notebook2.configure_cluster w "esip-qhub-gateway-v0.4")
      /\ py.environ_contains w "SLURM_CLUSTER_NAME" = false
  end.
Proof.
  unfold notebook2.startup, py.environ_contains.
  destruct (py.assoc "SLURM_CLUSTER_NAME" (py.environ w)); split; reflexivity.
Qed.

(** X24.  When the notebooks can start.  With SLURM_CLUSTER_NAME in the
    environment the dataset is the on-premises one and the cluster is
    configured for the machine of that name, which works for the machines
    [configure_cluster] serves and for no other; without it the dataset
    is the cloud one and the cloud gateway is configured, which needs
    HOME. *)
Theorem startup_returns_iff (w : py.world) :
  (py.returns (snd (notebook1.startup w)) = true
   <-> match py.assoc "SLURM_CLUSTER_NAME" (py.environ w) with
       | Some name =>
           name = "denali"%string \/ name = "tallgrass"%string
           \/ (name = "esip-qhub-gateway-v0.4"%string
               /\ py.environ_contains w "HOME" = true)
       | None => py.environ_contains w "HOME" = true
       end)
  /\ (py.returns (snd (notebook2.startup w)) = true
      <-> match py.assoc "SLURM_CLUSTER_NAME" (py.environ w) with
          | Some name =>
              name = "denali"%string \/ name = "tallgrass"%string
              \/ name = "local"%string
              \/ (name = "esip-qhub-gateway-v0.4"%string
                  /\ py.environ_contains w "HOME" = true)
          | None => py.environ_contains w "HOME" = true
          end)
  /\ fst (notebook1.startup w)
     = (if py.environ_contains w "SLURM_CLUSTER_NAME"
        then "conus404-hourly-onprem"%string else "conus404-hourly-cloud"%string)
  /\ fst (notebook2.startup w) = fst (notebook1.startup w).
Proof.
  pose proof (startup1_cases w) as H1. pose proof (startup2_cases w) as H2.
  destruct (py.assoc "SLURM_CLUSTER_NAME" (py.environ w)) as [name|];
    destruct H1 as [E1 C]; destruct H2 as [E2 _]; rewrite E1, E2, C; cbn [fst snd].
  - split; [apply configure_cluster1_returns_iff|].
    split; [apply configure_cluster2_returns_iff|]. split; reflexivity.
  - split.
    { rewrite configure_cluster1_returns_iff. split; [|auto].
      intros [H|[H|[_ H]]]; [discriminate H|discriminate H|exact H]. }
    split.
    { rewrite configure_cluster2_returns_iff. split; [|auto 6].
      intros [H|[H|[H|[_ H]]]]; [discriminate H|discriminate H|discriminate H|exact H]. }
    split; reflexivity.
Qed.

Lemma connected1 (w : py.world) (machine : string)
      (client cluster : py.value) (f : py.frame) :
  notebook1.configure_cluster w machine = py.Return (client, cluster) f ->
  connected client cluster (py.trace f).
Proof.
  machine_cases machine.
  - intros H. vm_compute in H. injection H as <- <- <-.
    left. exists 1%nat. repeat split. simpl. lia.
  - intros H. vm_compute in H. injection H as <- <- <-.
    left. exists 2%nat. repeat split. simpl. lia.
  - rewrite configure_cluster1_local. discriminate.
  - unfold notebook1.configure_cluster, py.environ_getitem.
    destruct (py.assoc "HOME" (py.environ w)) as [home|]; intros H;
      vm_compute in H; [|discriminate H].
    injection H as <- <- <-. right. eexists. repeat split.
  - rewrite configure_cluster1_unknown by assumption. discriminate.
Qed.

Lemma connected2 (w : py.world) (machine : string)
      (client cluster : py.value) (f : py.frame) :
  notebook2.configure_cluster w machine = py.Return (client, cluster) f ->
  connected client cluster (py.trace f).
Proof.
  machine_cases machine.
  - intros H. vm_compute in H. injection H as <- <- <-.
    left. exists 1%nat. repeat split. simpl. lia.
  - intros H. vm_compute in H. injection H as <- <- <-.
    left. exists 2%nat. repeat split. simpl. lia.
  - intros H. vm_compute in H. injection H as <- <- <-.
    left. exists 5%nat. repeat split. simpl. lia.
  - unfold notebook2.configure_cluster, py.environ_getitem.
    destruct (py.assoc "HOME" (py.environ w)) as [home|]; intros H;
      vm_compute in H; [|discriminate H].
    injection H as <- <- <-. right. eexists. repeat split.
  - rewrite configure_cluster2_unknown by assumption. discriminate.
Qed.

(** X25.  Whenever [configure_cluster] returns, in either notebook, the client
    it returns comes from the last call it made and belongs to the
    cluster it returns: it is [Client(cluster)], or the two come out of
    one call of [ebd.start_dask_cluster]. *)
Theorem returned_client_belongs_to_returned_cluster
        (w : py.world) (machine : string) (client cluster : py.value) (f : py.frame) :
  (notebook1.configure_cluster w machine = py.Return (client, cluster) f ->
   connected client cluster (py.trace f))
  /\ (notebook2.configure_cluster w machine = py.Return (client, cluster) f ->
      connected client cluster (py.trace f)).
Proof. split; [apply connected1|apply connected2]. Qed.

(* ================================================================== *)
(** * Further statements at concrete inputs                             *)
(* ================================================================== *)

Lemma sample_unstack_Ok : is_Ok (xr.unstack (df_weights sample_overlay)) = true.
Proof. vm_compute. reflexivity. Qed.




Lemma weights_axes_are_overlay_labels_witness :
  exists w,
    xr.unstack (df_weights sample_overlay) = Ok w
    /\ (forall region, In region (xr.w_name w)
                       <-> exists row, In row sample_overlay /\ o_name row = region)
    /\ increasing String.compare (xr.w_name w)
    /\ NoDup (xr.w_name w).
Proof.
  destruct (xr.unstack (df_weights sample_overlay)) as [w|e] eqn:E.
  2:{ pose proof sample_unstack_Ok as H. rewrite E in H. discriminate H. }
  exists w. split; [reflexivity|].
  destruct (@weights_axes_are_overlay_labels sample_overlay w E)
    as (Hn & _ & _ & Hs & _ & _ & Hd).
  split; [exact Hn|]. split; [exact Hs|exact Hd].
Defined.

Lemma regridder_unweighted_region_is_zero_witness :
  np.shape sample_data = [2; 2; 2]%nat
  /\ sparse.shape sample_weights_one_region = [2; 2; 2]%nat
  /\ exists out,
      apply_weights_matmul_sparse sample_weights_one_region sample_data = Ok out
      /\ forall t, (t < 2)%nat -> np_item out [t; 1%nat]%list = 0.
Proof.
  split; [reflexivity|]. split; [reflexivity|].
  apply (@regridder_unweighted_region_is_zero
           sample_weights_one_region sample_data 2 2 2 2 2 2 1).
  - reflexivity.
  - reflexivity.
  - reflexivity.
  - apply wf_COOb_true. reflexivity.
  - reflexivity.
  - lia.
  - intros e [<-|[<-|[]]]; cbn [fst nth]; discriminate.
Defined.


Lemma regridding_by_time_chunks_witness :
  exists whole out,
    dask.concat_all sample_data [sample_data']%list = Ok whole
    /\ np.shape whole = [4; 2; 2]%nat
    /\ apply_weights_matmul_sparse sample_weights whole = Ok out
    /\ dask.parallelized apply_weights_matmul_sparse sample_weights
                         sample_data [sample_data']%list = Ok out.
Proof.
  destruct (@regridding_by_time_chunks
              sample_weights sample_data [sample_data']%list 2 2 2 2 2)
    as (whole & out & Ew & Eo & Ep).
  - reflexivity.
  - apply wf_COOb_true. reflexivity.
  - reflexivity.
  - repeat constructor; exists 2%nat; reflexivity.
  - exists whole, out. split; [exact Ew|]. split; [|split; assumption].
    cbn in Ew. injection Ew as <-. reflexivity.
Defined.

Lemma weight_lookup_roundtrip_witness :
  exists w,
    xr.unstack (df_weights sample_overlay) = Ok w
    /\ In sample_row_a2 sample_overlay
    /\ xr.sel_weight w (o_y sample_row_a2) (o_x sample_row_a2) (o_name sample_row_a2)
       = Ok (shapely.area (o_geometry sample_row_a2)
             / region_area sample_overlay (o_name sample_row_a2)).
Proof.
  destruct (xr.unstack (df_weights sample_overlay)) as [w|e] eqn:E.
  2:{ pose proof sample_unstack_Ok as H. rewrite E in H. discriminate H. }
  assert (Hin : In sample_row_a2 sample_overlay) by (right; left; reflexivity).
  exists w. split; [reflexivity|]. split; [exact Hin|].
  exact (@weight_lookup_roundtrip sample_overlay w sample_row_a2 E Hin).
Defined.

Lemma weight_of_unmatched_pair_is_zero_witness :
  exists w,
    xr.unstack (df_weights sample_overlay) = Ok w
    /\ xr.sel_weight w (half 3) (half 1) "a" = Ok 0.
Proof.
  destruct (xr.unstack (df_weights sample_overlay)) as [w|e] eqn:E.
  2:{ pose proof sample_unstack_Ok as H. rewrite E in H. discriminate H. }
  exists w. split; [reflexivity|].
  destruct (@unstack_entries _ _ E) as [_ Hl].
  assert (Kb : In (o_y sample_row_b, o_x sample_row_b, o_name sample_row_b)
                  (map fst (df_weights sample_overlay))).
  { rewrite df_weights_keys. right. right. left. reflexivity. }
  assert (Ka : In (o_y sample_row_a1, o_x sample_row_a1, o_name sample_row_a1)
                  (map fst (df_weights sample_overlay))).
  { rewrite df_weights_keys. left. reflexivity. }
  apply (@weight_of_unmatched_pair_is_zero sample_overlay w (half 3) (half 1) "a" E).
  - exact (proj1 (Hl _ Kb)).
  - exact (proj1 (proj2 (Hl _ Ka))).
  - exact (proj2 (proj2 (Hl _ Ka))).
  - intros row [<-|[<-|[<-|[]]]] Heq;
      apply (f_equal (fun k : index_key =>
                        (this (fst (fst k)), this (snd (fst k)), snd k))) in Heq;
      vm_compute in Heq; discriminate Heq.
Defined.

Lemma sample_rect_weights_Ok :
  is_Ok (rect_weights (uniform_grid 2 3 (num_of_Z 10)) inside_outside) = true.
Proof. vm_compute. reflexivity. Qed.

Lemma regridding_cannot_fail_once_weights_exist_witness :
  xr.core_dims_in_one_chunk (ds_getitem (uniform_grid 2 3 (num_of_Z 10))) = true
  /\ exists w out,
      rect_weights (uniform_grid 2 3 (num_of_Z 10)) inside_outside = Ok w
      /\ rect_regridded (uniform_grid 2 3 (num_of_Z 10)) inside_outside = Ok out
      /\ xr.r_region out = xr.w_name w
      /\ np.shape (xr.r_values out) = [3%nat; length (xr.w_name w)]%list.
Proof.
  split; [reflexivity|].
  destruct (rect_weights (uniform_grid 2 3 (num_of_Z 10)) inside_outside)
    as [w|e] eqn:E.
  2:{ pose proof sample_rect_weights_Ok as H. rewrite E in H. discriminate H. }
  destruct (@regridding_cannot_fail_once_weights_exist
              rectangles.reproject rectangles.intersects rectangles.intersection
              (uniform_grid 2 3 (num_of_Z 10)) inside_outside w
              eq_refl E)
    as (out & Eo & _ & Er & Es & _).
  exists w, out. split; [reflexivity|]. split; [exact Eo|]. split; [exact Er|exact Es].
Defined.

Lemma weight_matrix_invariants_witness :
  exists w,
    rect_weights (uniform_grid 2 3 (num_of_Z 10)) inside_outside = Ok w
    /\ (forall e, In e (sparse.entries (xr.w_data w)) -> 0 < snd e /\ snd e <= 1)
    /\ (forall j, (j < length (xr.w_name w))%nat ->
          Qcabs (column_sum (xr.w_data w) j - 1) <= tolerance * Qcabs 1).
Proof.
  destruct (rect_weights (uniform_grid 2 3 (num_of_Z 10)) inside_outside)
    as [w|e] eqn:E.
  2:{ pose proof sample_rect_weights_Ok as H. rewrite E in H. discriminate H. }
  exists w. split; [reflexivity|].
  exact (proj2 (proj2 (@weight_matrix_invariants
                         rectangles.reproject rectangles.intersects rectangles.intersection
                         rectangles_fragments_positive
                         (uniform_grid 2 3 (num_of_Z 10)) inside_outside w E))).
Defined.


Lemma unit_bounds_two (n : nat) :
  Forall (fun b : list num => (2 <= length b)%nat) (unit_bounds n).
Proof.
  unfold unit_bounds. apply Forall_map. apply Forall_forall. intros i _. simpl. lia.
Qed.

Lemma grid_df_cells_witness :
  exists grid,
    grid_df (uniform_grid 2 3 (num_of_Z 10)) = Ok grid
    /\ length grid = 4%nat
    /\ exists c,
         nth_error grid 3 = Some c
         /\ g_y c = half 3 /\ g_x c = half 3
         /\ shapely.area (g_geometry c)
            = Qcabs (num_of_Z 2 - num_of_Z 1) * Qcabs (num_of_Z 2 - num_of_Z 1).
Proof.
  destruct (@grid_df_cells (uniform_grid 2 3 (num_of_Z 10)))
    as (grid & Eg & Lg & Hc).
  - reflexivity.
  - reflexivity.
  - apply unit_bounds_two.
  - apply unit_bounds_two.
  - exists grid. split; [exact Eg|]. split; [exact Lg|].
    destruct (Hc 1%nat 1%nat (half 3) (half 3)
                 [num_of_Z 1; num_of_Z 2]%list [num_of_Z 1; num_of_Z 2]%list
                 eq_refl eq_refl eq_refl eq_refl)
      as (c & Ec & Ey & Ex & _ & Ea).
    exists c. split; [exact Ec|]. split; [exact Ey|]. split; [exact Ex|exact Ea].
Defined.

Lemma unit_centres_2_NoDup : NoDup (unit_centres 2).
Proof.
  unfold unit_centres. cbn [seq map].
  constructor; [|constructor; [intros []|constructor]].
  intros [H|[]]. apply (f_equal this) in H. vm_compute in H. discriminate H.
Qed.

Lemma unique_labels_give_weights_witness :
  NoDup (map r_name inside_outside)
  /\ (exists w, rect_weights (uniform_grid 2 3 (num_of_Z 10)) inside_outside = Ok w)
  /\ rect_weights (uniform_grid 2 3 (num_of_Z 10)) [outside_region]%list
     = Raise ValueError.
Proof.
  assert (Hn : NoDup (map r_name inside_outside)).
  { cbn. constructor; [|constructor; [intros []|constructor]].
    intros [H|[]]. discriminate H. }
  assert (Hn' : NoDup (map r_name [outside_region]%list)).
  { cbn. constructor; [intros []|constructor]. }
  split; [exact Hn|]. split.
  - destruct (@unique_labels_give_weights
                rectangles.reproject rectangles.intersects rectangles.intersection
                (uniform_grid 2 3 (num_of_Z 10)) inside_outside
                unit_centres_2_NoDup unit_centres_2_NoDup Hn
                (unit_bounds_two 2) (unit_bounds_two 2))
      as (grid & Eg & Hyes & _).
    apply Hyes. run_in Eg. vm_compute. reflexivity.
  - destruct (@unique_labels_give_weights
                rectangles.reproject rectangles.intersects rectangles.intersection
                (uniform_grid 2 3 (num_of_Z 10)) [outside_region]%list
                unit_centres_2_NoDup unit_centres_2_NoDup Hn'
                (unit_bounds_two 2) (unit_bounds_two 2))
      as (grid & Eg & _ & Hno).
    apply Hno. run_in Eg. vm_compute. reflexivity.
Defined.

Lemma sample_rect_regridded_Ok :
  is_Ok (rect_regridded (uniform_grid 2 3 (num_of_Z 10)) inside_outside) = true.
Proof. vm_compute. reflexivity. Qed.

Lemma sample_rect_overlay_Ok :
  is_Ok (overlay_of rectangles.reproject rectangles.intersects rectangles.intersection
                    (uniform_grid 2 3 (num_of_Z 10)) inside_outside) = true.
Proof. vm_compute. reflexivity. Qed.


Lemma unknown_machine_raises_before_anything_starts_witness :
  notebook1.configure_cluster sample_world "hovenweep"
  = py.Throw (py.UnboundLocalError "client") []%list
  /\ notebook2.configure_cluster sample_world "hovenweep"
     = py.Throw (py.UnboundLocalError "client") []%list.
Proof.
  apply (@unknown_machine_raises_before_anything_starts sample_world "hovenweep");
    discriminate.
Defined.

Lemma selecting_regions_needs_fragments_witness :
  exists ov out sel,
    overlay_of rectangles.reproject rectangles.intersects rectangles.intersection
               (uniform_grid 2 3 (num_of_Z 10)) inside_outside = Ok ov
    /\ rect_regridded (uniform_grid 2 3 (num_of_Z 10)) inside_outside = Ok out
    /\ frames.sel_names out ["inside"%string]%list = Ok sel
    /\ xr.r_region sel = ["inside"%string]%list.
Proof.
  destruct (overlay_of rectangles.reproject rectangles.intersects rectangles.intersection
                       (uniform_grid 2 3 (num_of_Z 10)) inside_outside)
    as [ov|e] eqn:Eov.
  2:{ pose proof sample_rect_overlay_Ok as H. rewrite Eov in H. discriminate H. }
  destruct (rect_regridded (uniform_grid 2 3 (num_of_Z 10)) inside_outside)
    as [out|e] eqn:Eout.
  2:{ pose proof sample_rect_regridded_Ok as H. rewrite Eout in H. discriminate H. }
  destruct (@selecting_regions_needs_fragments
              rectangles.reproject rectangles.intersects rectangles.intersection
              (uniform_grid 2 3 (num_of_Z 10)) inside_outside ov out
              ["inside"%string]%list Eov Eout) as [Hsel _].
  destruct Hsel as (sel & Es & _ & Er & _).
  - intros n [<-|[]].
    assert (E' := Eov). vm_compute in E'. injection E' as <-.
    eexists. split; [left; reflexivity|reflexivity].
  - exists ov, out, sel. split; [reflexivity|]. split; [reflexivity|].
    split; [exact Es|exact Er].
Defined.

Lemma regridder_identity_weights_witness :
  np.shape sample_data = [2; 2; 2]%nat
  /\ wf_ndarray sample_data
  /\ apply_weights_matmul_sparse (identity_weights 2 2) sample_data
     = Ok {| np.shape := [2; 4]%nat; np.data := np.data sample_data |}.
Proof.
  split; [reflexivity|]. split; [reflexivity|].
  apply (@regridder_identity_weights sample_data 2 2 2); reflexivity.
Defined.

